(** * Vanilla RNN layers (code_base/rnn_layers.py): a shallow embedding

    The Python module implements, on top of numpy, the forward and backward
    passes of a single tanh RNN step, of a whole RNN run over T timesteps,
    of a masked temporal average and of a temporal affine layer.  (Its two
    bidirectional functions are stubs that return [None, None].)

    Layout of this development:
    - [Py]         : Python exceptions as an error monad;
    - [Scalar]     : the element type of the arrays (np.float64 in the
                     program) as an interface, with an integer and an IEEE
                     binary64 instance;
    - [Numpy]      : the numpy [ndarray] (a shape and a row-major buffer)
                     and the numpy operations the module calls;
    - [Layers]     : the functions of rnn_layers.py, statement by statement;
    - [Vocabulary] : what the layers are meant to compute, entry by entry,
                     and the invariants of their loops;
    - [Demo]       : small concrete inputs;
    - facts about the numpy operations, the run of every layer on
      well-shaped arguments, and the properties of the layers.

    Arithmetic is kept abstract: sums are written in the order the model
    accumulates them, and a law of arithmetic (commutativity of the
    product, a zero times a finite value is a zero, ...) is a hypothesis
    of the statement that needs it.  The laws about zeros are stated so
    that they hold in IEEE binary64, where an infinity or a nan times
    zero is nan and where -0 and +0 are two values; they are proved for
    binary64 from the specification of its operations. *)

From Stdlib Require Import List Arith Lia Bool ZArith.
From Corelib Require Import PrimFloat SpecFloat FloatOps FloatAxioms.
Import ListNotations.

Set Implicit Arguments.

(* ------------------------------------------------------------------ *)
(** * Python exceptions *)
(* ------------------------------------------------------------------ *)

Module Py.

(** The exceptions the modelled statements can raise.  numpy's AxisError
    is a subclass of both ValueError and IndexError, it is kept apart. *)
Inductive exn : Type :=
| ValueError
| IndexError
| AxisError
| UnboundLocalError.

Inductive result (A : Type) : Type :=
| Ok (a : A)
| Err (e : exn).

Arguments Ok {A} a.
Arguments Err {A} e.

Definition bind {A B : Type} (m : result A) (f : A -> result B) : result B :=
  match m with
  | Ok a => f a
  | Err e => Err e
  end.

Definition returns {A : Type} (m : result A) : bool :=
  match m with Ok _ => true | Err _ => false end.

(** [l[i]] on a Python list, for a non-negative index. *)
Definition list_index {A : Type} (l : list A) (i : nat) : result A :=
  match nth_error l i with
  | Some a => Ok a
  | None => Err IndexError
  end.

(** A local variable that may not have been assigned yet. *)
Definition read_local {A : Type} (v : option A) : result A :=
  match v with
  | Some a => Ok a
  | None => Err UnboundLocalError
  end.

End Py.

Import Py.

Declare Scope py_scope.
Delimit Scope py_scope with py.
Notation "x <- m ;; k" := (bind m (fun x => k))
  (at level 61, m at next level, right associativity) : py_scope.
Notation "' p <- m ;; k" := (bind m (fun x => match x with p => k end))
  (at level 61, p pattern, m at next level, right associativity) : py_scope.
Open Scope py_scope.

(* ------------------------------------------------------------------ *)
(** * Array elements *)
(* ------------------------------------------------------------------ *)

(** The arithmetic of the element type.  Division is total, as numpy's
    true_divide is: on a zero divisor it produces a value of the element
    type (inf or nan for np.float64) and does not raise. *)
Class Scalar (R : Type) : Type := {
  zero : R;
  one : R;
  add : R -> R -> R;
  sub : R -> R -> R;
  mul : R -> R -> R;
  div : R -> R -> R
}.

(** The elementwise activation, np.tanh. *)
Class Activation (R : Type) : Type := {
  tanh : R -> R
}.

(** IEEE 754 binary64, the element type of the program's arrays. *)
#[export] Instance float_scalar : Scalar float := {
  zero := PrimFloat.zero;
  one := PrimFloat.one;
  add := PrimFloat.add;
  sub := PrimFloat.sub;
  mul := PrimFloat.mul;
  div := PrimFloat.div
}.

(** Integers, to run the layers on small exact inputs. *)
#[export] Instance Z_scalar : Scalar Z := {
  zero := 0%Z;
  one := 1%Z;
  add := Z.add;
  sub := Z.sub;
  mul := Z.mul;
  div := Z.div
}.

(** On integers tanh is replaced by its rounding to the nearest integer,
    the sign. *)
#[export] Instance Z_activation : Activation Z := {
  tanh := Z.sgn
}.

(** The kind of an element: a zero (what [v == 0] tells: +0 or -0 in
    binary64), a finite value (np.isfinite) or nan (np.isnan). *)
Class Kinds (R : Type) : Type := {
  iszero : R -> Prop;
  isfinite : R -> Prop;
  isnan : R -> Prop
}.

Definition float_iszero (v : float) : Prop :=
  match Prim2SF v with
  | S754_zero _ => True
  | _ => False
  end.

Definition float_isfinite (v : float) : Prop :=
  match Prim2SF v with
  | S754_zero _ | S754_finite _ _ _ => True
  | _ => False
  end.

Definition float_isnan (v : float) : Prop :=
  match Prim2SF v with
  | S754_nan => True
  | _ => False
  end.

#[export] Instance float_kinds : Kinds float := {
  iszero := float_iszero;
  isfinite := float_isfinite;
  isnan := float_isnan
}.

#[export] Instance Z_kinds : Kinds Z := {
  iszero := fun v => v = 0%Z;
  isfinite := fun _ => True;
  isnan := fun _ => False
}.

(** Two elements that compare equal as numbers or are both nan: the same
    value, or two zeros (of any signs). *)
Definition same_value {R : Type} {KR : Kinds R} (a b : R) : Prop :=
  a = b \/ (iszero a /\ iszero b).

(* ------------------------------------------------------------------ *)
(** * numpy arrays and operations *)
(* ------------------------------------------------------------------ *)

Section Numpy.

Context {R : Type} `{Scalar R}.

(** An ndarray: its shape and its elements in row-major (C) order. *)
Record ndarray : Type := mk_ndarray {
  shape : list nat;
  data : list R
}.

(** Number of elements of an array of shape [s]. *)
Definition size (s : list nat) : nat := fold_right Nat.mul 1 s.

(** [a] is a well-formed array of shape [s]. *)
Definition has_shape (a : ndarray) (s : list nat) : Prop :=
  shape a = s /\ length (data a) = size s.

(** Element at flat position [k]. *)
Definition get (a : ndarray) (k : nat) : R := nth k (data a) zero.

(** Elements of a 1-D, 2-D and 3-D array by index; the strides are
    passed explicitly. *)
Definition get1 (a : ndarray) (i : nat) : R := get a i.
Definition get2 (a : ndarray) (m : nat) (i j : nat) : R := get a (i * m + j).
Definition get3 (a : ndarray) (t d : nat) (i j l : nat) : R :=
  get a ((i * t + j) * d + l).

(** The buffer [f 0; ...; f (n-1)]. *)
Definition tab (n : nat) (f : nat -> R) : list R := map f (seq 0 n).

(** [f 0 + f 1 + ... + f (n-1)], accumulated from the left, starting
    from zero: the reduction of np.dot and np.sum. *)
Definition sigma (n : nat) (f : nat -> R) : R :=
  fold_left (fun acc l => add acc (f l)) (seq 0 n) zero.

Fixpoint shape_eqb (s1 s2 : list nat) : bool :=
  match s1, s2 with
  | [], [] => true
  | a :: s1', b :: s2' => (a =? b) && shape_eqb s1' s2'
  | _, _ => false
  end.

(** ** Broadcasting *)

(** Two dimensions are compatible when equal or when one of them is 1. *)
Definition bdim (a b : nat) : option nat :=
  if a =? b then Some a
  else if a =? 1 then Some b
  else if b =? 1 then Some a
  else None.

(** The broadcast of two shapes, both given last axis first. *)
Fixpoint bshape (ra rb : list nat) : option (list nat) :=
  match ra, rb with
  | [], _ => Some rb
  | _, [] => Some ra
  | a :: ra', b :: rb' =>
      match bdim a b, bshape ra' rb' with
      | Some c, Some rc => Some (c :: rc)
      | _, _ => None
      end
  end.

(** The flat position, in an operand of reversed shape [rs], of the
    element used at flat position [q] of the result of reversed shape
    [rc]: an axis of length 1 is read at index 0, a missing leading axis
    is ignored. *)
Fixpoint bidx (rc rs : list nat) (q : nat) : nat :=
  match rc, rs with
  | c :: rc', s :: rs' =>
      (if s =? 1 then 0 else q mod c) + s * bidx rc' rs' (q / c)
  | _, _ => 0
  end.

(** An elementwise binary operator with numpy's broadcasting. *)
Definition np_binop (op : R -> R -> R) (a b : ndarray) : result ndarray :=
  match bshape (rev (shape a)) (rev (shape b)) with
  | None => Err ValueError
  | Some rc =>
      Ok {| shape := rev rc;
            data := tab (size rc) (fun q =>
              op (get a (bidx rc (rev (shape a)) q))
                 (get b (bidx rc (rev (shape b)) q))) |}
  end.

Definition np_add : ndarray -> ndarray -> result ndarray := np_binop add.
Definition np_mul : ndarray -> ndarray -> result ndarray := np_binop mul.
Definition np_div : ndarray -> ndarray -> result ndarray := np_binop div.

(** [a += b]: the broadcast result must have the shape of [a]. *)
Definition np_iadd (a b : ndarray) : result ndarray :=
  r <- np_add a b ;;
  if shape_eqb (shape r) (shape a) then Ok r else Err ValueError.

(** [c - a] and [a ** 2] for a Python number [c]. *)
Definition np_rsub (c : R) (a : ndarray) : ndarray :=
  {| shape := shape a; data := map (fun x => sub c x) (data a) |}.

Definition np_square (a : ndarray) : ndarray :=
  {| shape := shape a; data := map (fun x => mul x x) (data a) |}.

Definition np_map (f : R -> R) (a : ndarray) : ndarray :=
  {| shape := shape a; data := map f (data a) |}.

(** ** np.dot *)

(** With a 0-D operand np.dot multiplies; with a 1-D right operand it is
    the sum product over the last axis of both; otherwise over the last
    axis of [a] and the second-to-last axis of [b]. *)
Definition np_dot (a b : ndarray) : result ndarray :=
  match shape a, shape b with
  | [], _ => Ok {| shape := shape b; data := map (mul (get a 0)) (data b) |}
  | _, [] =>
      Ok {| shape := shape a; data := map (fun x => mul x (get b 0)) (data a) |}
  | _, _ =>
      let k := last (shape a) 0 in
      let sa := removelast (shape a) in
      match rev (shape b) with
      | [] => Err ValueError
      | [k'] =>
          if k =? k' then
            Ok {| shape := sa;
                  data := tab (size sa) (fun r =>
                    sigma k (fun l => mul (get a (r * k + l)) (get b l))) |}
          else Err ValueError
      | m :: k' :: rsb =>
          let sb := rev rsb in
          if k =? k' then
            Ok {| shape := sa ++ sb ++ [m];
                  data := tab (size sa * size sb * m) (fun q =>
                    let j := q mod m in
                    let p := q / m in
                    let pb := p mod size sb in
                    let ra := p / size sb in
                    sigma k (fun l =>
                      mul (get a (ra * k + l))
                          (get b ((pb * k + l) * m + j)))) |}
          else Err ValueError
      end
  end.

(** ** Transposition *)

(** Position in [a] (of shape [sa]) of the element at flat position [q]
    of [np.transpose(a)], whose axes are those of [a] reversed. *)
Fixpoint tidx (sa : list nat) (q acc : nat) : nat :=
  match sa with
  | [] => acc
  | s :: sa' => tidx sa' (q / s) (acc * s + q mod s)
  end.

Definition np_transpose (a : ndarray) : ndarray :=
  {| shape := rev (shape a);
     data := tab (size (shape a)) (fun q => get a (tidx (shape a) q 0)) |}.

(** [np.array(l)] for a Python list of arrays: the arrays are stacked
    along a new leading axis; the empty list gives the 1-D array of
    shape (0,); arrays of different shapes are refused. *)
Definition np_array (l : list ndarray) : result ndarray :=
  match l with
  | [] => Ok {| shape := [0]; data := [] |}
  | a :: l' =>
      if forallb (fun x => shape_eqb (shape x) (shape a)) l' then
        Ok {| shape := length l :: shape a; data := concat (map data l) |}
      else Err ValueError
  end.

Fixpoint map_result {A B : Type} (f : A -> result B) (l : list A)
  : result (list B) :=
  match l with
  | [] => Ok []
  | a :: l' => b <- f a ;; bs <- map_result f l' ;; Ok (b :: bs)
  end.

(** [np.array(ll)] for a list of lists of arrays. *)
Definition np_array2 (ll : list (list ndarray)) : result ndarray :=
  rows <- map_result np_array ll ;; np_array rows.

(** [np.transpose(l, [1,0,2])] for a list [l] of arrays: the list is
    converted with np.array and must then have exactly three axes. *)
Definition np_transpose_102 (l : list ndarray) : result ndarray :=
  a <- np_array l ;;
  match shape a with
  | [t; n; h] =>
      Ok {| shape := [n; t; h];
            data := tab (n * t * h) (fun q =>
              let l := q mod h in
              let p := q / h in
              get a (((p mod t) * n + p / t) * h + l)) |}
  | _ => Err ValueError
  end.

(** ** Reductions *)

Definition np_sum_axis0 (a : ndarray) : result ndarray :=
  match shape a with
  | d0 :: rest =>
      Ok {| shape := rest;
            data := tab (size rest) (fun r =>
              sigma d0 (fun i => get a (i * size rest + r))) |}
  | [] => Err AxisError
  end.

Definition np_sum_axis1 (a : ndarray) : result ndarray :=
  match shape a with
  | d0 :: d1 :: rest =>
      Ok {| shape := d0 :: rest;
            data := tab (d0 * size rest) (fun q =>
              let r := q mod size rest in
              let i := q / size rest in
              sigma d1 (fun j => get a ((i * d1 + j) * size rest + r))) |}
  | _ => Err AxisError
  end.

(** [a.sum(axis=(0,1))] *)
Definition np_sum_axis01 (a : ndarray) : result ndarray :=
  match shape a with
  | d0 :: d1 :: rest =>
      Ok {| shape := rest;
            data := tab (size rest) (fun r =>
              sigma (d0 * d1) (fun p => get a (p * size rest + r))) |}
  | _ => Err AxisError
  end.

(** ** Indexing *)

(** [a[i]] *)
Definition np_index (a : ndarray) (i : nat) : result ndarray :=
  match shape a with
  | d0 :: rest =>
      if i <? d0 then
        Ok {| shape := rest;
              data := tab (size rest) (fun r => get a (i * size rest + r)) |}
      else Err IndexError
  | [] => Err IndexError
  end.

(** [a[i,j]] *)
Definition np_index2 (a : ndarray) (i j : nat) : result ndarray :=
  match shape a with
  | d0 :: d1 :: rest =>
      if (i <? d0) && (j <? d1) then
        Ok {| shape := rest;
              data := tab (size rest) (fun r =>
                get a ((i * d1 + j) * size rest + r)) |}
      else Err IndexError
  | _ => Err IndexError
  end.

(** [a[:,t,:]] *)
Definition np_slice_mid (a : ndarray) (t : nat) : result ndarray :=
  match shape a with
  | d0 :: d1 :: d2 :: rest =>
      if t <? d1 then
        let w := d2 * size rest in
        Ok {| shape := d0 :: d2 :: rest;
              data := tab (d0 * w) (fun q =>
                get a (((q / w) * d1 + t) * w + q mod w)) |}
      else Err IndexError
  | _ => Err IndexError
  end.

(** [a.reshape(s)] *)
Definition np_reshape (a : ndarray) (s : list nat) : result ndarray :=
  if size (shape a) =? size s then Ok {| shape := s; data := data a |}
  else Err ValueError.

(** [a.shape[k]] and the unpacking of [a.shape] into two or three names. *)
Definition shape_at (a : ndarray) (k : nat) : result nat :=
  list_index (shape a) k.

Definition shape2 (a : ndarray) : result (nat * nat) :=
  match shape a with
  | [n; h] => Ok (n, h)
  | _ => Err ValueError
  end.

Definition shape3 (a : ndarray) : result (nat * nat * nat) :=
  match shape a with
  | [n; t; h] => Ok (n, t, h)
  | _ => Err ValueError
  end.

End Numpy.

Arguments ndarray R : clear implicits.

(* ------------------------------------------------------------------ *)
(** * The layers of rnn_layers.py *)
(* ------------------------------------------------------------------ *)

Section Layers.

Context {R : Type} `{Scalar R} `{Activation R}.

Local Abbreviation array := (ndarray R).

(** The dictionary built by [rnn_step_forward], keys 'x', 'prev_h',
    'next_h', 'Wh' and 'Wx'. *)
Record step_cache : Type := mk_step_cache {
  c_x : array;
  c_prev_h : array;
  c_next_h : array;
  c_Wh : array;
  c_Wx : array
}.

(** ** One timestep *)

Definition rnn_step_forward (x prev_h Wx Wh b : array)
  : result (array * step_cache) :=
  xWx <- np_dot x Wx ;;
  hWh <- np_dot prev_h Wh ;;
  s <- np_add xWx hWh ;;
  z <- np_add s b ;;
  let next_h := np_map tanh z in
  Ok (next_h,
      {| c_x := x; c_prev_h := prev_h; c_next_h := next_h;
         c_Wh := Wh; c_Wx := Wx |}).

Definition rnn_step_backward (dnext_h : array) (cache : step_cache)
  : result (array * array * array * array * array) :=
  let x := c_x cache in
  let prev_h := c_prev_h cache in
  let next_h := c_next_h cache in
  let Wh := c_Wh cache in
  let Wx := c_Wx cache in
  de_dz <- np_mul dnext_h (np_rsub one (np_square next_h)) ;;
  dWh <- np_dot (np_transpose prev_h) de_dz ;;
  dWx <- np_dot (np_transpose x) de_dz ;;
  dx <- np_dot de_dz (np_transpose Wx) ;;
  dprev_h <- np_dot de_dz (np_transpose Wh) ;;
  db <- np_sum_axis0 de_dz ;;
  Ok (dx, dprev_h, dWx, dWh, db).

(** ** A whole sequence *)

(** The body of [for timestep in range(x.shape[1])], over the timesteps
    [ts] still to run; [h], [cache] and [prev_h] are the loop's
    variables. *)
Fixpoint rnn_forward_loop (x Wx Wh b : array) (ts : list nat)
    (h : list array) (cache : list step_cache) (prev_h : array)
  : result (list array * list step_cache) :=
  match ts with
  | [] => Ok (h, cache)
  | timestep :: ts' =>
      xt <- np_slice_mid x timestep ;;
      '(h_current, cache_current) <- rnn_step_forward xt prev_h Wx Wh b ;;
      rnn_forward_loop x Wx Wh b ts'
        (h ++ [h_current]) (cache ++ [cache_current])
        (c_next_h cache_current)
  end.

Definition rnn_forward (x h0 Wx Wh b : array)
  : result (array * list step_cache) :=
  T <- shape_at x 1 ;;
  '(h, cache) <- rnn_forward_loop x Wx Wh b (seq 0 T) [] [] h0 ;;
  h' <- np_transpose_102 h ;;
  Ok (h', cache).

(** The names [dh0], [dWx], [dWh] and [db] of [rnn_backward]: they are
    bound together by the first branch of the loop body, and unbound
    before. *)
Definition bptt_vars : Type := (array * array * array * array)%type.

(** The timesteps of [range(T-1, -1, -1)]. *)
Definition range_down (T : nat) : list nat := rev (seq 0 T).

Fixpoint rnn_backward_loop (dh : array) (cache : list step_cache)
    (ts : list nat) (dx : list array) (vars : option bptt_vars)
  : result (list array * option bptt_vars) :=
  match ts with
  | [] => Ok (dx, vars)
  | timestep :: ts' =>
      T <- shape_at dh 1 ;;
      if S timestep =? T then
        dht <- np_slice_mid dh timestep ;;
        c <- list_index cache timestep ;;
        '(dx_current, dh0, dWx, dWh, db) <- rnn_step_backward dht c ;;
        rnn_backward_loop dh cache ts' (dx ++ [dx_current])
          (Some (dh0, dWx, dWh, db))
      else
        dht <- np_slice_mid dh timestep ;;
        '(dh0, dWx, dWh, db) <- read_local vars ;;
        g <- np_add dht dh0 ;;
        c <- list_index cache timestep ;;
        '(dx_current, dh0', dWx_current, dWh_current, db_current) <-
           rnn_step_backward g c ;;
        dWx' <- np_iadd dWx dWx_current ;;
        dWh' <- np_iadd dWh dWh_current ;;
        db' <- np_iadd db db_current ;;
        rnn_backward_loop dh cache ts' (dx ++ [dx_current])
          (Some (dh0', dWx', dWh', db'))
  end.

Definition rnn_backward (dh : array) (cache : list step_cache)
  : result (array * array * array * array * array) :=
  T <- shape_at dh 1 ;;
  '(dx, vars) <- rnn_backward_loop dh cache (range_down T) [] None ;;
  dx' <- np_transpose_102 (rev dx) ;;
  '(dh0, dWx, dWh, db) <- read_local vars ;;
  Ok (dx', dh0, dWx, dWh, db).

(** ** Masked average over time *)

(** The dictionary built by [average_forward], keys 'mask' and 'count'. *)
Record avg_cache : Type := mk_avg_cache {
  ac_mask : array;
  ac_count : array
}.

Fixpoint average_forward_loop (hi mask count : array) (rows : list nat)
    (ho : list array) : result (list array) :=
  match rows with
  | [] => Ok ho
  | i :: rows' =>
      mask_i <- np_index mask i ;;
      hi_i <- np_index hi i ;;
      s <- np_dot mask_i hi_i ;;
      count_i <- np_index count i ;;
      q <- np_div s count_i ;;
      average_forward_loop hi mask count rows' (ho ++ [q])
  end.

Definition average_forward (hi mask : array) : result (array * avg_cache) :=
  '(N, _, _) <- shape3 hi ;;
  count <- np_sum_axis1 mask ;;
  ho <- average_forward_loop hi mask count (seq 0 N) [] ;;
  ho' <- np_array ho ;;
  Ok (ho', {| ac_mask := mask; ac_count := count |}).

Fixpoint average_backward_inner (dho : array) (cache : avg_cache) (i : nat)
    (cols : list nat) (tmph : list array) : result (list array) :=
  match cols with
  | [] => Ok tmph
  | j :: cols' =>
      dho_i <- np_index dho i ;;
      m_ij <- np_index2 (ac_mask cache) i j ;;
      p <- np_mul dho_i m_ij ;;
      count_i <- np_index (ac_count cache) i ;;
      q <- np_div p count_i ;;
      average_backward_inner dho cache i cols' (tmph ++ [q])
  end.

Fixpoint average_backward_loop (dho : array) (cache : avg_cache) (T : nat)
    (rows : list nat) (dhi : list (list array))
  : result (list (list array)) :=
  match rows with
  | [] => Ok dhi
  | i :: rows' =>
      tmph <- average_backward_inner dho cache i (seq 0 T) [] ;;
      average_backward_loop dho cache T rows' (dhi ++ [tmph])
  end.

Definition average_backward (dho : array) (cache : avg_cache)
  : result array :=
  '(N, _) <- shape2 dho ;;
  T <- shape_at (ac_mask cache) 1 ;;
  dhi <- average_backward_loop dho cache T (seq 0 N) [] ;;
  np_array2 dhi.

(** ** Temporal affine layer *)

(** The tuple [x, w, b, out]. *)
Definition affine_cache : Type := (array * array * array * array)%type.

Definition temporal_affine_forward (x w b : array)
  : result (array * affine_cache) :=
  '(N, T, D) <- shape3 x ;;
  M <- shape_at b 0 ;;
  x2 <- np_reshape x [N * T; D] ;;
  p <- np_dot x2 w ;;
  p3 <- np_reshape p [N; T; M] ;;
  out <- np_add p3 b ;;
  Ok (out, (x, w, b, out)).

Definition temporal_affine_backward (dout : array) (cache : affine_cache)
  : result (array * array * array) :=
  let '(x, w, b, out) := cache in
  '(N, T, D) <- shape3 x ;;
  M <- shape_at b 0 ;;
  dout2 <- np_reshape dout [N * T; M] ;;
  dx2 <- np_dot dout2 (np_transpose w) ;;
  dx <- np_reshape dx2 [N; T; D] ;;
  dout2' <- np_reshape dout [N * T; M] ;;
  x2 <- np_reshape x [N * T; D] ;;
  dwT <- np_dot (np_transpose dout2') x2 ;;
  let dw := np_transpose dwT in
  db <- np_sum_axis01 dout ;;
  Ok (dx, dw, db).

End Layers.

Arguments step_cache R : clear implicits.
Arguments avg_cache R : clear implicits.

(** ** The bidirectional stubs *)

Section Stubs.

Context {R : Type}.

(** Both functions bind their two results to [None], run [pass] and return
    the pair: whatever the arguments, the result is [(None, None)]. *)
Definition bidirectional_rnn_concatenate_forward (h hr mask : ndarray R)
  : option (ndarray R) * option (ndarray R) :=
  (None, None).

Definition bidirectional_rnn_concatenate_backward
    (dho : ndarray R) (cache : option (ndarray R))
  : option (ndarray R) * option (ndarray R) :=
  (None, None).

End Stubs.

(* ------------------------------------------------------------------ *)
(** * Vocabulary of the specification *)
(* ------------------------------------------------------------------ *)

(** The definitions below are not part of the program: they name what the
    layers are meant to compute, entry by entry and timestep by timestep,
    and the invariants of the loops. *)

Section Vocabulary.

Context {R : Type} {SR : Scalar R} {AR : Activation R} {KR : Kinds R}.

(** ** StepCell *)

(** Entry [(i,j)] of [tanh(x.Wx + prev_h.Wh + b)], for [x] of shape
    [(n,d)] and a hidden size [h]; [b] is added to every row. *)
Definition step_entry (x prev_h Wx Wh b : ndarray R) (d h i j : nat) : R :=
  tanh (add (add (sigma d (fun l => mul (get2 x d i l) (get2 Wx h l j)))
                 (sigma h (fun l => mul (get2 prev_h h i l) (get2 Wh h l j))))
            (get1 b j)).

(** Entry [(i,j)] of the local gradient [dz = dnext_h * (1 - next_h^2)]. *)
Definition local_grad (dnext_h next_h : ndarray R) (h i j : nat) : R :=
  mul (get2 dnext_h h i j)
      (sub one (mul (get2 next_h h i j) (get2 next_h h i j))).

(** The shapes of the entries of a step cache, for batch size [n], input
    size [d] and hidden size [h]. *)
Definition cache_shaped (c : step_cache R) (n d h : nat) : Prop :=
  has_shape (c_x c) [n; d] /\ has_shape (c_prev_h c) [n; h] /\
  has_shape (c_next_h c) [n; h] /\ has_shape (c_Wh c) [h; h] /\
  has_shape (c_Wx c) [d; h].

(** A step cache that holds no infinity and no nan: the entries of x,
    prev_h, Wh and Wx are finite, and so is the factor [1 - next_h^2] of
    the local gradient (as it is for every next_h between -1 and 1). *)
Definition cache_finite (c : step_cache R) (n d h : nat) : Prop :=
  (forall i l, i < n -> l < d -> isfinite (get2 (c_x c) d i l)) /\
  (forall i k, i < n -> k < h -> isfinite (get2 (c_prev_h c) h i k)) /\
  (forall i j, i < n -> j < h ->
     isfinite (sub one (mul (get2 (c_next_h c) h i j)
                            (get2 (c_next_h c) h i j)))) /\
  (forall k j, k < h -> j < h -> isfinite (get2 (c_Wh c) h k j)) /\
  (forall l j, l < d -> j < h -> isfinite (get2 (c_Wx c) h l j)).

(** ** SequenceRunner, forward *)

(** The recurrence the forward pass is meant to compute, by timestep:
    [hidden_before t] is the hidden state entering timestep [t] ([h0] at
    timestep 0, otherwise the output of timestep [t-1]), and [step_at t]
    is the forward step of timestep [t] on the slice [x[:,t,:]]. *)
Fixpoint hidden_before (x h0 Wx Wh b : ndarray R) (t : nat)
  : result (ndarray R) :=
  match t with
  | 0 => Ok h0
  | S t' =>
      prev <- hidden_before x h0 Wx Wh b t' ;;
      xt <- np_slice_mid x t' ;;
      '(next_h, _) <- rnn_step_forward xt prev Wx Wh b ;;
      Ok next_h
  end.

Definition step_at (x h0 Wx Wh b : ndarray R) (t : nat)
  : result (ndarray R * step_cache R) :=
  prev <- hidden_before x h0 Wx Wh b t ;;
  xt <- np_slice_mid x t ;;
  rnn_step_forward xt prev Wx Wh b.

(** What holds of the loop variables of [rnn_forward] after timesteps
    [0 .. t0-1]. *)
Definition forward_inv (x h0 Wx Wh b : ndarray R) (n d h : nat) (t0 : nat)
    (hl : list (ndarray R)) (cl : list (step_cache R)) (prev : ndarray R)
  : Prop :=
  length hl = t0 /\ length cl = t0 /\
  hidden_before x h0 Wx Wh b t0 = Ok prev /\ has_shape prev [n; h] /\
  Forall (fun a => has_shape a [n; h]) hl /\
  Forall (fun c => cache_shaped c n d h) cl /\
  forall t, t < t0 ->
    exists next_h c, nth_error hl t = Some next_h /\
      nth_error cl t = Some c /\ step_at x h0 Wx Wh b t = Ok (next_h, c).

(** ** SequenceRunner, backward *)

(** The value of a backward step, with the empty array where the step
    raised. *)
Definition no_array : ndarray R := {| shape := [0]; data := [] |}.

Definition grad5 : Type :=
  (ndarray R * ndarray R * ndarray R * ndarray R * ndarray R)%type.

Definition grad_dx (r : result grad5) : ndarray R :=
  match r with Ok (dx, _, _, _, _) => dx | Err _ => no_array end.
Definition grad_dprev_h (r : result grad5) : ndarray R :=
  match r with Ok (_, dprev_h, _, _, _) => dprev_h | Err _ => no_array end.
Definition grad_dWx (r : result grad5) : ndarray R :=
  match r with Ok (_, _, dWx, _, _) => dWx | Err _ => no_array end.
Definition grad_dWh (r : result grad5) : ndarray R :=
  match r with Ok (_, _, _, dWh, _) => dWh | Err _ => no_array end.
Definition grad_db (r : result grad5) : ndarray R :=
  match r with Ok (_, _, _, _, db) => db | Err _ => no_array end.

(** [g 0 + g 1 + ... + g k], accumulated from the left and starting from
    [g 0]: the order in which the loop of [rnn_backward] adds the
    gradients of the steps it runs. *)
Fixpoint acc_sum (g : nat -> R) (k : nat) : R :=
  match k with
  | 0 => g 0
  | S k' => add (acc_sum g k') (g k)
  end.

(** Backpropagation through time as a recurrence: [bptt dh cache top k] is
    the backward step of timestep [top - k], where [top] is the last
    timestep.  The last timestep receives [dh[:,top,:]] alone; an earlier
    timestep [t] receives [dh[:,t,:]] plus the [dprev_h] of the step of
    timestep [t+1]. *)
Fixpoint bptt (dh : ndarray R) (cache : list (step_cache R)) (top k : nat)
  : result grad5 :=
  match k with
  | 0 =>
      dht <- np_slice_mid dh top ;;
      c <- list_index cache top ;;
      rnn_step_backward dht c
  | S k' =>
      '(_, dprev_h, _, _, _) <- bptt dh cache top k' ;;
      dht <- np_slice_mid dh (top - k) ;;
      g <- np_add dht dprev_h ;;
      c <- list_index cache (top - k) ;;
      rnn_step_backward g c
  end.

(** The backward step of timestep [t] in a run of [T] timesteps. *)
Definition step_grad (dh : ndarray R) (cache : list (step_cache R))
    (T t : nat) : result grad5 :=
  bptt dh cache (T - 1) (T - 1 - t).

Definition grads_shaped (n d h : nat) (g : grad5) : Prop :=
  let '(dx, dprev_h, dWx, dWh, db) := g in
  has_shape dx [n; d] /\ has_shape dprev_h [n; h] /\
  has_shape dWx [d; h] /\ has_shape dWh [h; h] /\ has_shape db [h].

(** What holds of the loop variables of [rnn_backward] once the steps of
    timesteps [T-1, ..., T-1-k] have run. *)
Definition backward_inv (dh : ndarray R) (cache : list (step_cache R))
    (n T d h : nat) (k : nat) (dxl : list (ndarray R))
    (vars : option (@bptt_vars R)) : Prop :=
  length dxl = S k /\
  Forall (fun a => has_shape a [n; d]) dxl /\
  (forall m, m <= k ->
     exists r, bptt dh cache (T - 1) m = Ok r /\ grads_shaped n d h r /\
       nth_error dxl m = Some (grad_dx (Ok r))) /\
  exists dh0 dWx dWh db,
    vars = Some (dh0, dWx, dWh, db) /\
    dh0 = grad_dprev_h (bptt dh cache (T - 1) k) /\
    has_shape dh0 [n; h] /\ has_shape dWx [d; h] /\
    has_shape dWh [h; h] /\ has_shape db [h] /\
    (forall l j, l < d -> j < h ->
       get2 dWx h l j =
       acc_sum (fun m => get2 (grad_dWx (bptt dh cache (T - 1) m)) h l j) k) /\
    (forall i j, i < h -> j < h ->
       get2 dWh h i j =
       acc_sum (fun m => get2 (grad_dWh (bptt dh cache (T - 1) m)) h i j) k) /\
    (forall j, j < h ->
       get1 db j =
       acc_sum (fun m => get1 (grad_db (bptt dh cache (T - 1) m)) j) k).

(** ** MaskedAverager *)

(** [count[i] = sum_t mask[i,t]] for a mask with [T] columns. *)
Definition mask_count (mask : ndarray R) (T i : nat) : R :=
  sigma T (fun t => get2 mask T i t).

(** Component [k] of [(mask[i] . h[i]) / count[i]]. *)
Definition avg_entry (hi mask : ndarray R) (T h i k : nat) : R :=
  div (sigma T (fun t => mul (get2 mask T i t) (get3 hi T h i t k)))
      (mask_count mask T i).

(** Component [k] of [dho[i] * mask[i,t] / count[i]]. *)
Definition davg_entry (dho mask count : ndarray R) (T h i t k : nat) : R :=
  div (mul (get2 dho h i k) (get2 mask T i t)) (get1 count i).

(** The shape numpy gives to [np.array] of [n] rows of shape [s]: with no
    row at all the result is the 1-D array of shape (0,). *)
Definition stacked_shape (n : nat) (s : list nat) : list nat :=
  match n with
  | 0 => [0]
  | S _ => n :: s
  end.

(** What holds of the list [ho] of [average_forward] after rows
    [0 .. i0-1]. *)
Definition avg_inv (hi mask : ndarray R) (T h : nat) (i0 : nat)
    (ho : list (ndarray R)) : Prop :=
  length ho = i0 /\
  Forall (fun a => has_shape a [h]) ho /\
  forall i a k, nth_error ho i = Some a -> k < h ->
    get1 a k = avg_entry hi mask T h i k.

(** What holds of the list [tmph] of [average_backward], in row [i], after
    timesteps [0 .. t0-1]. *)
Definition davg_inner_inv (dho : ndarray R) (cache : avg_cache R)
    (T h : nat) (i t0 : nat) (tmph : list (ndarray R)) : Prop :=
  length tmph = t0 /\
  Forall (fun a => has_shape a [h]) tmph /\
  forall t a k, nth_error tmph t = Some a -> k < h ->
    get1 a k = davg_entry dho (ac_mask cache) (ac_count cache) T h i t k.

(** Row [i] of the result of [average_backward], once converted by
    [np.array]. *)
Definition davg_row_ok (dho : ndarray R) (cache : avg_cache R) (T h : nat)
    (i : nat) (row : ndarray R) : Prop :=
  has_shape row (stacked_shape T [h]) /\
  forall t k, t < T -> k < h ->
    get2 row h t k = davg_entry dho (ac_mask cache) (ac_count cache) T h i t k.

(** What holds of the list [dhi] of [average_backward] after rows
    [0 .. i0-1]. *)
Definition davg_outer_inv (dho : ndarray R) (cache : avg_cache R)
    (T h : nat) (i0 : nat) (dhi : list (list (ndarray R))) : Prop :=
  length dhi = i0 /\
  forall i tmph, nth_error dhi i = Some tmph ->
    exists row, np_array tmph = Ok row /\ davg_row_ok dho cache T h i row.

End Vocabulary.

(* ------------------------------------------------------------------ *)
(** * Small concrete inputs *)
(* ------------------------------------------------------------------ *)

Module Demo.

Definition arr (s : list nat) (d : list Z) : ndarray Z :=
  {| shape := s; data := d |}.

Definition farr (s : list nat) (d : list float) : ndarray float :=
  {| shape := s; data := d |}.

(** An RNN with batch size 2, two timesteps, input size 1, hidden size 2. *)
Definition x : ndarray Z := arr [2; 2; 1] [1; 0; -3; 4]%Z.
Definition x_t : ndarray Z := arr [2; 1] [1; -3]%Z.
Definition h0 : ndarray Z := arr [2; 2] [0; 0; 0; 0]%Z.
Definition Wx : ndarray Z := arr [1; 2] [1; -1]%Z.
Definition Wh : ndarray Z := arr [2; 2] [1; 0; 0; 1]%Z.
Definition b : ndarray Z := arr [2] [0; 0]%Z.
Definition dnext_h : ndarray Z := arr [2; 2] [1; 2; 3; 4]%Z.
Definition dh : ndarray Z := arr [2; 2; 2] [1; 2; 3; 4; 5; 6; 7; 8]%Z.

(** The same RNN on a sequence with no timestep. *)
Definition x_empty : ndarray Z := arr [2; 0; 1] [].
Definition dh_empty : ndarray Z := arr [2; 0; 2] [].

(** A run of one timestep with batch size, input size and hidden size 1,
    its cache, and that cache with one more entry. *)
Definition x1 : ndarray Z := arr [1; 1; 1] [0]%Z.
Definition h1 : ndarray Z := arr [1; 1] [0]%Z.
Definition W1 : ndarray Z := arr [1; 1] [1]%Z.
Definition b1 : ndarray Z := arr [1] [0]%Z.
Definition dh1 : ndarray Z := arr [1; 1; 1] [1]%Z.
Definition c1 : step_cache Z :=
  {| c_x := arr [1; 1] [0]%Z; c_prev_h := h1; c_next_h := arr [1; 1] [0]%Z;
     c_Wh := W1; c_Wx := W1 |}.
Definition cache1 : list (step_cache Z) := [c1].
Definition cache1_longer : list (step_cache Z) := [c1; c1].

(** A batch of two sequences of three timesteps and hidden size 2: the
    first sequence is complete, the second has one valid timestep. *)
Definition hi : ndarray Z :=
  arr [2; 3; 2] [1; 2; 3; 4; 5; 6; 7; 8; 9; 10; 11; 12]%Z.
Definition mask : ndarray Z := arr [2; 3] [1; 1; 1; 1; 0; 0]%Z.
Definition davg : ndarray Z := arr [2; 2] [6; 12; 5; 7]%Z.

(** One sequence of one timestep that is padding, in binary64. *)
Definition hi_pad : ndarray float := farr [1; 1; 1] [5%float].
Definition mask_pad : ndarray float := farr [1; 1] [0%float].

(** An empty batch of sequences of two timesteps and hidden size 3. *)
Definition hi_none : ndarray float := farr [0; 2; 3] [].
Definition mask_none : ndarray float := farr [0; 2] [].
Definition davg_none : ndarray float := farr [0; 3] [].

(** A temporal affine layer: one sequence, two timesteps, D = 2, M = 3. *)
Definition ax : ndarray Z := arr [1; 2; 2] [1; 2; 3; 4]%Z.
Definition aw : ndarray Z := arr [2; 3] [1; 0; 1; 0; 1; 1]%Z.
Definition ab : ndarray Z := arr [3] [10; 20; 30]%Z.
Definition adout : ndarray Z := arr [1; 2; 3] [1; 2; 3; 4; 5; 6]%Z.


(** The input [x] with other values at timestep 1, weights for an input
    of size 3, a hidden state with one row, a gradient that is zero at
    timestep 1, and a mask with two columns. *)
Definition x_alt : ndarray Z := arr [2; 2; 1] [1; 5; -3; 7]%Z.
Definition Wx_wide : ndarray Z := arr [3; 2] [1; -1; 1; -1; 1; -1]%Z.
Definition h_row : ndarray Z := arr [1; 2] [1; -1]%Z.
Definition dh_early : ndarray Z := arr [2; 2; 2] [1; 2; 0; 0; 5; 6; 0; 0]%Z.
Definition mask_short : ndarray Z := arr [2; 2] [1; 1; 1; 0]%Z.
Definition hi_other : ndarray Z :=
  arr [2; 3; 2] [1; 2; 3; 4; 5; 6; 7; 8; 0; 0; -1; -1]%Z.

(** In binary64: one sequence of two timesteps and hidden size 1 whose
    second timestep is padding, the same sequence with another value at
    the padded timestep, a gradient of the average and one that holds an
    infinity. *)
Definition fhi : ndarray float := farr [1; 2; 1] [3; 5]%float.
Definition fhi_other : ndarray float := farr [1; 2; 1] [3; -7]%float.
Definition fmask : ndarray float := farr [1; 2] [1; 0]%float.
Definition fdavg : ndarray float := farr [1; 1] [-4]%float.
Definition fdavg_inf : ndarray float := farr [1; 1] [infinity].

(** In binary64: the step caches of two timesteps of one sequence (input
    size 1, hidden size 1), an upstream gradient of a step that is zero,
    and an upstream gradient of the run that is zero at timestep 1. *)
Definition fc0 : step_cache float :=
  {| c_x := farr [1; 1] [2%float];
     c_prev_h := farr [1; 1] [0%float];
     c_next_h := farr [1; 1] [0.5%float];
     c_Wh := farr [1; 1] [1%float];
     c_Wx := farr [1; 1] [(-1)%float] |}.
Definition fc1 : step_cache float :=
  {| c_x := farr [1; 1] [3%float];
     c_prev_h := farr [1; 1] [0.5%float];
     c_next_h := farr [1; 1] [0.25%float];
     c_Wh := farr [1; 1] [1%float];
     c_Wx := farr [1; 1] [(-1)%float] |}.
Definition fcache : list (step_cache float) := [fc0; fc1].
Definition fdnext_zero : ndarray float := farr [1; 1] [0%float].
Definition fdh_early : ndarray float := farr [1; 2; 1] [1; 0]%float.

End Demo.


(* ------------------------------------------------------------------ *)
(** * Facts about the numpy operations *)
(* ------------------------------------------------------------------ *)

(** Inversion of a chain of binds that returned. *)
Ltac invert_binds H :=
  repeat match type of H with
  | bind ?m _ = Ok _ =>
      let E := fresh "E" in
      destruct m eqn:E; cbn [bind] in H; [|discriminate H]
  | match ?p with (_, _) => _ end = Ok _ => destruct p
  end.

(** Both sides run the same binds: compare them scrutinee by scrutinee. *)
Ltac same_binds :=
  repeat first
    [ reflexivity
    | match goal with
      | |- bind ?m _ = bind ?m _ => destruct m; cbn [bind]
      | |- match ?p with (_, _) => _ end = match ?p with (_, _) => _ end =>
          destruct p
      | |- (if ?c then _ else _) = (if ?c then _ else _) => destruct c
      end ].

(** Row-major index arithmetic. *)

Lemma row_index_lt (n m i j : nat) : i < n -> j < m -> i * m + j < n * m.
Proof. intros Hi Hj. nia. Qed.

Lemma row_index_div (m i j : nat) : j < m -> (i * m + j) / m = i.
Proof.
  intros Hj. rewrite Nat.div_add_l by lia.
  rewrite Nat.div_small by assumption. lia.
Qed.

Lemma row_index_mod (m i j : nat) : j < m -> (i * m + j) mod m = j.
Proof.
  intros Hj. rewrite Nat.add_comm, Nat.Div0.mod_add.
  apply Nat.mod_small; assumption.
Qed.

Lemma cube_index_lt (n t d i j l : nat) :
  i < n -> j < t -> l < d -> (i * t + j) * d + l < n * t * d.
Proof.
  intros Hi Hj Hl. apply row_index_lt; [apply row_index_lt|]; assumption.
Qed.

Lemma flat_index_split (m q n : nat) :
  q < n * m -> q / m < n /\ q mod m < m /\ q = (q / m) * m + q mod m.
Proof.
  intros Hq. assert (Hm : m <> 0) by (intros ->; lia).
  split; [apply Nat.Div0.div_lt_upper_bound; lia|].
  split; [apply Nat.mod_upper_bound; assumption|].
  rewrite (Nat.div_mod_eq q m) at 1. lia.
Qed.

Section NumpyFacts.

Context {R : Type} `{Scalar R}.

Lemma tab_length (n : nat) (f : nat -> R) : length (tab n f) = n.
Proof. unfold tab. rewrite length_map, length_seq. reflexivity. Qed.

Lemma nth_tab (n : nat) (f : nat -> R) (k : nat) (d : R) :
  k < n -> nth k (tab n f) d = f k.
Proof.
  intros Hk. unfold tab.
  rewrite nth_indep with (d' := f 0)
    by (rewrite length_map, length_seq; assumption).
  rewrite map_nth, seq_nth by assumption. reflexivity.
Qed.

Lemma tab_ext (n : nat) (f g : nat -> R) :
  (forall k, k < n -> f k = g k) -> tab n f = tab n g.
Proof.
  intros Hfg. unfold tab. apply map_ext_in.
  intros k Hk. apply in_seq in Hk. apply Hfg. lia.
Qed.

Lemma get_tab (s : list nat) (n : nat) (f : nat -> R) (k : nat) :
  k < n -> get {| shape := s; data := tab n f |} k = f k.
Proof. intros Hk. unfold get. simpl. apply nth_tab. assumption. Qed.

Lemma fold_add_ext (f g : nat -> R) (l : list nat) (acc : R) :
  (forall k, In k l -> f k = g k) ->
  fold_left (fun a k => add a (f k)) l acc =
  fold_left (fun a k => add a (g k)) l acc.
Proof.
  revert acc. induction l as [|k l IH]; intros acc Hfg; simpl.
  - reflexivity.
  - rewrite (Hfg k) by (left; reflexivity).
    apply IH. intros k' Hk'. apply Hfg. right. assumption.
Qed.

Lemma sigma_ext (n : nat) (f g : nat -> R) :
  (forall l, l < n -> f l = g l) -> sigma n f = sigma n g.
Proof.
  intros Hfg. unfold sigma. apply fold_add_ext.
  intros k Hk. apply in_seq in Hk. apply Hfg. lia.
Qed.

Lemma size_app (s1 s2 : list nat) : size (s1 ++ s2) = size s1 * size s2.
Proof.
  induction s1 as [|a s1 IH]; simpl.
  - lia.
  - rewrite IH. lia.
Qed.

Lemma size_rev (s : list nat) : size (rev s) = size s.
Proof.
  induction s as [|a s IH]; simpl.
  - reflexivity.
  - rewrite size_app, IH. simpl. lia.
Qed.

Lemma shape_eqb_refl (s : list nat) : shape_eqb s s = true.
Proof.
  induction s as [|a s IH]; simpl.
  - reflexivity.
  - rewrite Nat.eqb_refl, IH. reflexivity.
Qed.

(** ** Elementwise operations *)

Lemma has_shape_map (f : R -> R) (a : ndarray R) (s : list nat) :
  has_shape a s -> has_shape (np_map f a) s.
Proof.
  intros [Hs Hl]. split; simpl; [assumption|].
  rewrite length_map. assumption.
Qed.

Lemma get_map (f : R -> R) (a : ndarray R) (k : nat) :
  k < length (data a) -> get (np_map f a) k = f (get a k).
Proof.
  intros Hk. unfold get, np_map. simpl.
  rewrite nth_indep with (d' := f zero) by (rewrite length_map; assumption).
  apply map_nth.
Qed.

Lemma bdim_same (a : nat) : bdim a a = Some a.
Proof. unfold bdim. rewrite Nat.eqb_refl. reflexivity. Qed.

Lemma bshape_same (rs : list nat) : bshape rs rs = Some rs.
Proof.
  induction rs as [|a rs IH]; simpl.
  - reflexivity.
  - rewrite bdim_same, IH. reflexivity.
Qed.

Lemma bidx_same (rs : list nat) (q : nat) : q < size rs -> bidx rs rs q = q.
Proof.
  revert q. induction rs as [|c rs IH]; intros q Hq; simpl in *.
  - lia.
  - assert (Hc : c <> 0) by (intros ->; lia).
    rewrite IH by (apply Nat.Div0.div_lt_upper_bound; lia).
    destruct (c =? 1) eqn:Hc1.
    + apply Nat.eqb_eq in Hc1. subst c. rewrite Nat.div_1_r. lia.
    + rewrite (Nat.div_mod_eq q c) at 3. lia.
Qed.

(** Operands of one shape: the operator is applied position by position. *)
Lemma np_binop_same (op : R -> R -> R) (a b : ndarray R) (s : list nat) :
  has_shape a s -> has_shape b s ->
  exists r, np_binop op a b = Ok r /\ has_shape r s /\
    forall k, k < size s -> get r k = op (get a k) (get b k).
Proof.
  intros [Hsa Hla] [Hsb Hlb]. unfold np_binop.
  rewrite Hsa, Hsb, bshape_same.
  eexists. split; [reflexivity|]. split.
  - split; simpl; [apply rev_involutive|].
    rewrite tab_length. apply size_rev.
  - intros k Hk. rewrite get_tab by (rewrite size_rev; assumption).
    rewrite !bidx_same by (rewrite size_rev; assumption). reflexivity.
Qed.

(** A matrix and a vector along its rows: [(n,m) op (m,)]. *)
Lemma np_binop_row (op : R -> R -> R) (a b : ndarray R) (n m : nat) :
  has_shape a [n; m] -> has_shape b [m] ->
  exists r, np_binop op a b = Ok r /\ has_shape r [n; m] /\
    forall i j, i < n -> j < m ->
      get2 r m i j = op (get2 a m i j) (get1 b j).
Proof.
  intros [Hsa Hla] [Hsb Hlb]. unfold np_binop.
  rewrite Hsa, Hsb. cbn [rev app bshape]. rewrite bdim_same.
  eexists. split; [reflexivity|]. split.
  - split; cbn [shape data rev app size fold_right]; [reflexivity|].
    rewrite tab_length. lia.
  - intros i j Hi Hj. unfold get2, get1.
    assert (Hq : i * m + j < m * (n * 1)) by nia.
    cbn [size fold_right]. rewrite get_tab by assumption.
    cbn [bidx]. rewrite row_index_div, row_index_mod by assumption.
    destruct (m =? 1) eqn:Hm1; destruct (n =? 1) eqn:Hn1;
      try apply Nat.eqb_eq in Hm1; try apply Nat.eqb_eq in Hn1; subst;
      rewrite ?Nat.mod_small by assumption;
      f_equal; f_equal; lia.
Qed.

(** A 3-D array and a vector along its last axis: [(n,t,m) op (m,)]. *)
Lemma np_binop_cube_row (op : R -> R -> R) (a b : ndarray R) (n t m : nat) :
  has_shape a [n; t; m] -> has_shape b [m] ->
  exists r, np_binop op a b = Ok r /\ has_shape r [n; t; m] /\
    forall i j l, i < n -> j < t -> l < m ->
      get3 r t m i j l = op (get3 a t m i j l) (get1 b l).
Proof.
  intros [Hsa Hla] [Hsb Hlb]. unfold np_binop.
  rewrite Hsa, Hsb. cbn [rev app bshape]. rewrite bdim_same.
  eexists. split; [reflexivity|]. split.
  - split; cbn [shape data rev app size fold_right]; [reflexivity|].
    rewrite tab_length. lia.
  - intros i j l Hi Hj Hl. unfold get3, get1.
    assert (Hq : (i * t + j) * m + l < size [m; t; n]).
    { cbn [size fold_right].
      pose proof (@cube_index_lt n t m i j l Hi Hj Hl). lia. }
    rewrite get_tab by assumption.
    rewrite (bidx_same [m; t; n]) by assumption.
    cbn [bidx]. rewrite row_index_mod by assumption.
    f_equal. f_equal.
    destruct (m =? 1) eqn:Hm1; [|lia].
    apply Nat.eqb_eq in Hm1. lia.
Qed.

(** An array and a 0-D array: [(h,) op ()]. *)
Lemma np_binop_scalar (op : R -> R -> R) (a c : ndarray R) (h : nat) :
  has_shape a [h] -> has_shape c [] ->
  exists r, np_binop op a c = Ok r /\ has_shape r [h] /\
    forall k, k < h -> get1 r k = op (get1 a k) (get c 0).
Proof.
  intros [Hsa Hla] [Hsc Hlc]. unfold np_binop.
  rewrite Hsa, Hsc. cbn [rev app bshape].
  eexists. split; [reflexivity|]. split.
  - split; cbn [shape data rev app size fold_right]; [reflexivity|].
    rewrite tab_length. lia.
  - intros k Hk. unfold get1. cbn [size fold_right].
    rewrite get_tab by lia. cbn [bidx].
    destruct (h =? 1) eqn:Hh1.
    + apply Nat.eqb_eq in Hh1. subst h. replace k with 0 by lia. reflexivity.
    + rewrite Nat.mod_small by assumption.
      f_equal; f_equal; lia.
Qed.

(** ** np.dot *)

(** Matrix product: [(n,k) . (k,m)]. *)
Lemma np_dot_matrix (a b : ndarray R) (n k m : nat) :
  has_shape a [n; k] -> has_shape b [k; m] ->
  exists r, np_dot a b = Ok r /\ has_shape r [n; m] /\
    forall i j, i < n -> j < m ->
      get2 r m i j = sigma k (fun l => mul (get2 a k i l) (get2 b m l j)).
Proof.
  intros [Hsa Hla] [Hsb Hlb]. unfold np_dot.
  rewrite Hsa, Hsb. cbn [last removelast rev app]. rewrite Nat.eqb_refl.
  eexists. split; [reflexivity|]. split.
  - split; cbn [shape data app size fold_right]; [reflexivity|].
    rewrite tab_length. lia.
  - intros i j Hi Hj. unfold get2. cbn [size fold_right].
    rewrite get_tab by nia.
    rewrite row_index_div, row_index_mod by assumption.
    rewrite Nat.mod_1_r, Nat.div_1_r.
    apply sigma_ext. intros l Hl. f_equal; f_equal; lia.
Qed.

(** Vector-matrix product: [(k,) . (k,m)]. *)
Lemma np_dot_vector_matrix (a b : ndarray R) (k m : nat) :
  has_shape a [k] -> has_shape b [k; m] ->
  exists r, np_dot a b = Ok r /\ has_shape r [m] /\
    forall j, j < m ->
      get1 r j = sigma k (fun l => mul (get1 a l) (get2 b m l j)).
Proof.
  intros [Hsa Hla] [Hsb Hlb]. unfold np_dot.
  rewrite Hsa, Hsb. cbn [last removelast rev app]. rewrite Nat.eqb_refl.
  eexists. split; [reflexivity|]. split.
  - split; cbn [shape data app size fold_right]; [reflexivity|].
    rewrite tab_length. lia.
  - intros j Hj. unfold get1, get2. cbn [size fold_right].
    rewrite get_tab by lia.
    apply sigma_ext. intros l Hl.
    rewrite (Nat.div_small j m), (Nat.mod_small j m) by assumption.
    rewrite Nat.div_1_r, Nat.mod_1_r.
    f_equal; f_equal; lia.
Qed.

(** ** Transposition *)

Lemma np_transpose_matrix (a : ndarray R) (n m : nat) :
  has_shape a [n; m] ->
  has_shape (np_transpose a) [m; n] /\
  forall j i, j < m -> i < n -> get2 (np_transpose a) n j i = get2 a m i j.
Proof.
  intros [Hsa Hla]. unfold np_transpose. rewrite Hsa. split.
  - split; cbn [shape data rev app size fold_right]; [reflexivity|].
    rewrite tab_length. lia.
  - intros j i Hj Hi. unfold get2 at 1. cbn [size fold_right].
    rewrite get_tab by nia. cbn [tidx].
    rewrite row_index_div, row_index_mod by assumption.
    rewrite (Nat.mod_small j m) by assumption.
    unfold get2. f_equal.
Qed.

(** ** Reductions *)

Lemma np_sum_axis0_matrix (a : ndarray R) (n m : nat) :
  has_shape a [n; m] ->
  exists r, np_sum_axis0 a = Ok r /\ has_shape r [m] /\
    forall j, j < m -> get1 r j = sigma n (fun i => get2 a m i j).
Proof.
  intros [Hsa Hla]. unfold np_sum_axis0. rewrite Hsa.
  eexists. split; [reflexivity|]. split.
  - split; cbn [shape data]; [reflexivity|]. apply tab_length.
  - intros j Hj. unfold get1, get2. cbn [size fold_right].
    rewrite get_tab by lia.
    apply sigma_ext. intros i Hi. f_equal. lia.
Qed.

Lemma np_sum_axis1_matrix (a : ndarray R) (n m : nat) :
  has_shape a [n; m] ->
  exists r, np_sum_axis1 a = Ok r /\ has_shape r [n] /\
    forall i, i < n -> get1 r i = sigma m (fun j => get2 a m i j).
Proof.
  intros [Hsa Hla]. unfold np_sum_axis1. rewrite Hsa.
  eexists. split; [reflexivity|]. split.
  - split; cbn [shape data size fold_right]; [reflexivity|].
    rewrite tab_length. lia.
  - intros i Hi. unfold get1, get2. cbn [size fold_right].
    rewrite get_tab by lia.
    rewrite Nat.mod_1_r, Nat.div_1_r.
    apply sigma_ext. intros j Hj. f_equal. lia.
Qed.

Lemma np_sum_axis01_cube (a : ndarray R) (n t m : nat) :
  has_shape a [n; t; m] ->
  exists r, np_sum_axis01 a = Ok r /\ has_shape r [m] /\
    forall l, l < m ->
      get1 r l = sigma (n * t) (fun p => get3 a t m (p / t) (p mod t) l).
Proof.
  intros [Hsa Hla]. unfold np_sum_axis01. rewrite Hsa.
  eexists. split; [reflexivity|]. split.
  - split; cbn [shape data]; [reflexivity|]. apply tab_length.
  - intros l Hl. unfold get1, get3. cbn [size fold_right].
    rewrite get_tab by lia.
    apply sigma_ext. intros p Hp.
    destruct (@flat_index_split t p n Hp) as (_ & _ & Hsplit).
    rewrite <- Hsplit. f_equal. lia.
Qed.

(** ** Indexing *)

Lemma np_slice_mid_cube (a : ndarray R) (n t d j : nat) :
  has_shape a [n; t; d] -> j < t ->
  exists r, np_slice_mid a j = Ok r /\ has_shape r [n; d] /\
    forall i l, i < n -> l < d -> get2 r d i l = get3 a t d i j l.
Proof.
  intros [Hsa Hla] Hj. unfold np_slice_mid. rewrite Hsa.
  apply Nat.ltb_lt in Hj. rewrite Hj.
  eexists. split; [reflexivity|]. split.
  - split; cbn [shape data size fold_right]; [reflexivity|].
    rewrite tab_length. lia.
  - intros i l Hi Hl. unfold get2, get3. cbn [size fold_right].
    rewrite Nat.mul_1_r.
    rewrite get_tab by nia.
    rewrite row_index_div, row_index_mod by assumption. reflexivity.
Qed.

Lemma np_index_cube (a : ndarray R) (n t h i : nat) :
  has_shape a [n; t; h] -> i < n ->
  exists r, np_index a i = Ok r /\ has_shape r [t; h] /\
    forall j l, j < t -> l < h -> get2 r h j l = get3 a t h i j l.
Proof.
  intros [Hsa Hla] Hi. unfold np_index. rewrite Hsa.
  apply Nat.ltb_lt in Hi. rewrite Hi.
  eexists. split; [reflexivity|]. split.
  - split; cbn [shape data]; [reflexivity|]. apply tab_length.
  - intros j l Hj Hl. unfold get2, get3. cbn [size fold_right].
    rewrite get_tab by nia. f_equal. lia.
Qed.

Lemma np_index_matrix (a : ndarray R) (n m i : nat) :
  has_shape a [n; m] -> i < n ->
  exists r, np_index a i = Ok r /\ has_shape r [m] /\
    forall j, j < m -> get1 r j = get2 a m i j.
Proof.
  intros [Hsa Hla] Hi. unfold np_index. rewrite Hsa.
  apply Nat.ltb_lt in Hi. rewrite Hi.
  eexists. split; [reflexivity|]. split.
  - split; cbn [shape data]; [reflexivity|]. apply tab_length.
  - intros j Hj. unfold get1, get2. cbn [size fold_right].
    rewrite get_tab by lia. f_equal. lia.
Qed.

Lemma np_index_vector (a : ndarray R) (n i : nat) :
  has_shape a [n] -> i < n ->
  exists r, np_index a i = Ok r /\ has_shape r [] /\ get r 0 = get1 a i.
Proof.
  intros [Hsa Hla] Hi. unfold np_index. rewrite Hsa.
  apply Nat.ltb_lt in Hi. rewrite Hi.
  eexists. split; [reflexivity|]. split.
  - split; cbn [shape data]; [reflexivity|]. apply tab_length.
  - unfold get1. cbn [size fold_right].
    rewrite get_tab by lia. f_equal. lia.
Qed.

Lemma np_index2_matrix (a : ndarray R) (n m i j : nat) :
  has_shape a [n; m] -> i < n -> j < m ->
  exists r, np_index2 a i j = Ok r /\ has_shape r [] /\
    get r 0 = get2 a m i j.
Proof.
  intros [Hsa Hla] Hi Hj. unfold np_index2. rewrite Hsa.
  apply Nat.ltb_lt in Hi. apply Nat.ltb_lt in Hj. rewrite Hi, Hj.
  eexists. split; [reflexivity|]. split.
  - split; cbn [shape data]; [reflexivity|]. apply tab_length.
  - unfold get2. cbn [size fold_right].
    rewrite get_tab by lia. f_equal. lia.
Qed.

Lemma np_reshape_ok (a : ndarray R) (s s' : list nat) :
  has_shape a s -> size s = size s' ->
  np_reshape a s' = Ok {| shape := s'; data := data a |} /\
  has_shape {| shape := s'; data := data a |} s'.
Proof.
  intros [Hsa Hla] Hsz. unfold np_reshape. rewrite Hsa, Hsz, Nat.eqb_refl.
  split; [reflexivity|]. split; cbn [shape data]; [reflexivity|]. lia.
Qed.

(** ** Stacking a Python list of arrays *)

Lemma length_concat_uniform (ls : list (list R)) (sz : nat) :
  Forall (fun l => length l = sz) ls ->
  length (concat ls) = length ls * sz.
Proof.
  induction 1 as [|l ls Hl _ IH]; simpl.
  - reflexivity.
  - rewrite length_app, IH, Hl. reflexivity.
Qed.

Lemma nth_concat_uniform (ls : list (list R)) (sz t k : nat) (d : R) :
  Forall (fun l => length l = sz) ls -> k < sz ->
  nth (t * sz + k) (concat ls) d = nth k (nth t ls []) d.
Proof.
  intros Hall Hk. revert t.
  induction Hall as [|l ls Hl _ IH]; intros t.
  - cbn [concat]. rewrite !nth_overflow by (simpl; lia).
    destruct t; simpl; destruct k; reflexivity.
  - destruct t as [|t]; cbn [concat nth].
    + rewrite Nat.mul_0_l, Nat.add_0_l. apply app_nth1. lia.
    + rewrite app_nth2 by (rewrite Hl; simpl; lia).
      replace (S t * sz + k - length l) with (t * sz + k)
        by (rewrite Hl; simpl; lia).
      apply IH.
Qed.

Lemma forallb_shape_uniform (l : list (ndarray R)) (s : list nat) :
  Forall (fun x => has_shape x s) l ->
  forallb (fun x => shape_eqb (shape x) s) l = true.
Proof.
  induction 1 as [|x l [Hx _] _ IH]; simpl.
  - reflexivity.
  - rewrite Hx, shape_eqb_refl, IH. reflexivity.
Qed.

(** A non-empty list of arrays of one shape is stacked along a new
    leading axis. *)
Lemma np_array_uniform (l : list (ndarray R)) (s : list nat) :
  Forall (fun x => has_shape x s) l -> l <> [] ->
  exists r, np_array l = Ok r /\ has_shape r (length l :: s) /\
    forall t a k, nth_error l t = Some a -> k < size s ->
      get r (t * size s + k) = get a k.
Proof.
  intros Hall Hne. destruct l as [|a0 l]; [congruence|].
  assert (Ha0 : has_shape a0 s) by (inversion Hall; assumption).
  assert (Hl : Forall (fun x => has_shape x s) l)
    by (inversion Hall; assumption).
  assert (Hlen : Forall (fun d => length d = size s) (map data (a0 :: l))).
  { apply Forall_map. eapply Forall_impl; [|exact Hall].
    intros x [_ Hx]. exact Hx. }
  unfold np_array. destruct Ha0 as [Hs0 Hl0]. rewrite Hs0.
  rewrite forallb_shape_uniform by assumption.
  eexists. split; [reflexivity|]. split.
  - split; cbn [shape data]; [reflexivity|].
    rewrite (length_concat_uniform Hlen), length_map. reflexivity.
  - intros t a k Ht Hk. unfold get. cbn [shape data].
    rewrite (nth_concat_uniform t zero Hlen Hk).
    f_equal.
    rewrite nth_indep with (d' := data a)
      by (rewrite length_map; apply nth_error_Some; congruence).
    rewrite map_nth. f_equal. apply nth_error_nth. assumption.
Qed.

(** [np.transpose(l, [1,0,2])] of a non-empty list of [(n,h)] matrices is
    the [(n, len(l), h)] array whose slice at [t] is the [t]-th matrix. *)
Lemma np_transpose_102_uniform (l : list (ndarray R)) (n h : nat) :
  Forall (fun x => has_shape x [n; h]) l -> l <> [] ->
  exists r, np_transpose_102 l = Ok r /\ has_shape r [n; length l; h] /\
    forall t a i j, nth_error l t = Some a -> i < n -> j < h ->
      get3 r (length l) h i t j = get2 a h i j.
Proof.
  intros Hall Hne.
  destruct (np_array_uniform Hall Hne) as (r0 & Hr0 & [Hs0 Hl0] & Hget0).
  unfold np_transpose_102. rewrite Hr0. cbn [bind]. rewrite Hs0.
  eexists. split; [reflexivity|]. split.
  - split; cbn [shape data size fold_right]; [reflexivity|].
    rewrite tab_length. lia.
  - intros t a i j Ht Hi Hj.
    assert (Htl : t < length l) by (apply nth_error_Some; congruence).
    unfold get3 at 1. rewrite get_tab by (apply cube_index_lt; assumption).
    rewrite row_index_div, row_index_mod by assumption.
    rewrite row_index_div, row_index_mod by assumption.
    specialize (Hget0 t a (i * h + j) Ht).
    cbn [size fold_right] in Hget0.
    unfold get2. rewrite <- Hget0 by nia. f_equal. lia.
Qed.

End NumpyFacts.

(* ------------------------------------------------------------------ *)
(** * Zeros in IEEE binary64 *)
(* ------------------------------------------------------------------ *)

(** What the statements about zero gradients and padding use of the
    element arithmetic, proved for binary64 from the specification of the
    primitive operations.  None of [0 * v = 0], [v * 0 = 0], [v + 0 = v]
    and [0 / c = 0] holds for every binary64 value [v] and every nonzero
    [c]: an infinity or a nan times zero is nan, and -0 + 0 is +0. *)

Lemma float_zero_iszero : float_iszero PrimFloat.zero.
Proof. vm_compute. exact I. Qed.

Lemma float_mul_zero_l (z v : float) :
  float_iszero z -> float_isfinite v -> float_iszero (z * v).
Proof.
  unfold float_iszero, float_isfinite. rewrite mul_spec.
  destruct (Prim2SF z), (Prim2SF v); cbn; tauto.
Qed.

Lemma float_mul_zero_r (v z : float) :
  float_isfinite v -> float_iszero z -> float_iszero (v * z).
Proof.
  unfold float_iszero, float_isfinite. rewrite mul_spec.
  destruct (Prim2SF z), (Prim2SF v); cbn; tauto.
Qed.

Lemma float_add_zeros (a b : float) :
  float_iszero a -> float_iszero b -> float_iszero (a + b).
Proof.
  unfold float_iszero. rewrite add_spec.
  destruct (Prim2SF a) as [[|]| | |], (Prim2SF b) as [[|]| | |]; cbn; tauto.
Qed.

Lemma float_div_zero (z c : float) :
  float_iszero z -> ~ float_iszero c -> ~ float_isnan c ->
  float_iszero (z / c).
Proof.
  unfold float_iszero, float_isnan. rewrite div_spec.
  destruct (Prim2SF z), (Prim2SF c); cbn; tauto.
Qed.

(** Adding a zero changes at most the sign of a zero. *)
Lemma float_add_zero_absorbed (a z : float) :
  float_iszero z -> same_value (a + z)%float a.
Proof.
  unfold same_value. cbn [iszero float_kinds]. unfold float_iszero.
  intros Hz.
  destruct (Prim2SF z) as [sz| | |] eqn:Ez; try contradiction.
  destruct (Prim2SF a) as [sa| | |] eqn:Ea.
  - right. rewrite add_spec, Ea, Ez. destruct sa, sz; cbn; tauto.
  - left. apply Prim2SF_inj. rewrite add_spec, Ea, Ez. reflexivity.
  - left. apply Prim2SF_inj. rewrite add_spec, Ea, Ez. reflexivity.
  - left. apply Prim2SF_inj. rewrite add_spec, Ea, Ez. reflexivity.
Qed.

Lemma float_zero_add_absorbed (z b : float) :
  float_iszero z -> same_value (z + b)%float b.
Proof.
  unfold same_value. cbn [iszero float_kinds]. unfold float_iszero.
  intros Hz.
  destruct (Prim2SF z) as [sz| | |] eqn:Ez; try contradiction.
  destruct (Prim2SF b) as [sb| | |] eqn:Eb.
  - right. rewrite add_spec, Eb, Ez. destruct sb, sz; cbn; tauto.
  - left. apply Prim2SF_inj. rewrite add_spec, Eb, Ez. reflexivity.
  - left. apply Prim2SF_inj. rewrite add_spec, Eb, Ez. reflexivity.
  - left. apply Prim2SF_inj. rewrite add_spec, Eb, Ez. reflexivity.
Qed.

Lemma same_value_refl {R : Type} {KR : Kinds R} (a : R) : same_value a a.
Proof. left. reflexivity. Qed.

Lemma same_value_trans {R : Type} {KR : Kinds R} (a b c : R) :
  same_value a b -> same_value b c -> same_value a c.
Proof.
  unfold same_value. intros [->|[Ha Hb]] [->|[Hb' Hc]]; tauto.
Qed.

Lemma same_value_sym {R : Type} {KR : Kinds R} (a b : R) :
  same_value a b -> same_value b a.
Proof. unfold same_value. intros [->|[Ha Hb]]; tauto. Qed.

(** Sums and quotients do not tell the sign of a zero operand, apart
    from the sign of the divisor. *)
Lemma float_add_same_value (a a' b b' : float) :
  same_value a a' -> same_value b b' ->
  same_value (a + b)%float (a' + b')%float.
Proof.
  intros [->|[Ha Ha']] [->|[Hb Hb']].
  - left. reflexivity.
  - apply same_value_trans with a'.
    + apply float_add_zero_absorbed. exact Hb.
    + apply same_value_sym, float_add_zero_absorbed. exact Hb'.
  - apply same_value_trans with b'.
    + apply float_zero_add_absorbed. exact Ha.
    + apply same_value_sym, float_zero_add_absorbed. exact Ha'.
  - right. split; apply float_add_zeros; assumption.
Qed.

Lemma float_div_same_value (a a' c : float) :
  same_value a a' -> same_value (a / c)%float (a' / c)%float.
Proof.
  intros [->|[Ha Ha']]; [left; reflexivity|].
  cbn [iszero float_kinds] in Ha, Ha'. unfold float_iszero in Ha, Ha'.
  destruct (Prim2SF a) as [sa| | |] eqn:Ea; try contradiction.
  destruct (Prim2SF a') as [sa'| | |] eqn:Ea'; try contradiction.
  unfold same_value. cbn [iszero float_kinds]. unfold float_iszero.
  destruct (Prim2SF c) as [sc|sc| |sc mc ec] eqn:Ec.
  - left. apply Prim2SF_inj. rewrite !div_spec, Ea, Ea', Ec. reflexivity.
  - right. rewrite !div_spec, Ea, Ea', Ec. cbn. tauto.
  - left. apply Prim2SF_inj. rewrite !div_spec, Ea, Ea', Ec. reflexivity.
  - right. rewrite !div_spec, Ea, Ea', Ec. cbn. tauto.
Qed.

(* ------------------------------------------------------------------ *)
(** * StepCell: one timestep *)
(* ------------------------------------------------------------------ *)

Section StepCell.

Context {R : Type} {SR : Scalar R} {AR : Activation R}.

Lemma rnn_step_forward_entries (x prev_h Wx Wh b : ndarray R) (n d h : nat) :
  has_shape x [n; d] -> has_shape prev_h [n; h] ->
  has_shape Wx [d; h] -> has_shape Wh [h; h] -> has_shape b [h] ->
  exists next_h,
    rnn_step_forward x prev_h Wx Wh b =
      Ok (next_h, {| c_x := x; c_prev_h := prev_h; c_next_h := next_h;
                     c_Wh := Wh; c_Wx := Wx |}) /\
    has_shape next_h [n; h] /\
    forall i j, i < n -> j < h ->
      get2 next_h h i j = step_entry x prev_h Wx Wh b d h i j.
Proof.
  intros Hx Hp HWx HWh Hb.
  destruct (np_dot_matrix Hx HWx) as (xWx & E1 & S1 & G1).
  destruct (np_dot_matrix Hp HWh) as (hWh & E2 & S2 & G2).
  destruct (np_binop_same add S1 S2) as (s & E3 & S3 & G3).
  destruct (np_binop_row add S3 Hb) as (z & E4 & S4 & G4).
  unfold rnn_step_forward, np_add.
  rewrite E1. cbn [bind]. rewrite E2. cbn [bind].
  rewrite E3. cbn [bind]. rewrite E4. cbn [bind].
  eexists. split; [reflexivity|]. split.
  - apply has_shape_map. assumption.
  - intros i j Hi Hj. unfold get2 at 1.
    assert (Hq : i * h + j < n * h) by (apply row_index_lt; assumption).
    rewrite get_map by (destruct S4 as [_ L4]; rewrite L4; simpl; lia).
    unfold step_entry. f_equal.
    fold (get2 z h i j). rewrite G4 by assumption. f_equal.
    unfold get2 at 1. rewrite G3 by (simpl; lia).
    fold (get2 xWx h i j). fold (get2 hWh h i j).
    rewrite G1, G2 by assumption. reflexivity.
Qed.

(** A cache built by the forward step has the shapes of its inputs. *)
Lemma rnn_step_forward_cache_shaped (x prev_h Wx Wh b next_h : ndarray R)
    (c : step_cache R) (n d h : nat) :
  has_shape x [n; d] -> has_shape prev_h [n; h] ->
  has_shape Wx [d; h] -> has_shape Wh [h; h] -> has_shape b [h] ->
  rnn_step_forward x prev_h Wx Wh b = Ok (next_h, c) ->
  cache_shaped c n d h /\ has_shape next_h [n; h] /\
  c = {| c_x := x; c_prev_h := prev_h; c_next_h := next_h;
         c_Wh := Wh; c_Wx := Wx |}.
Proof.
  intros Hx Hp HWx HWh Hb Hfwd.
  destruct (rnn_step_forward_entries Hx Hp HWx HWh Hb) as (nh & E & S & _).
  rewrite E in Hfwd. injection Hfwd as Hnh Hc. subst nh. subst c.
  split; [|split; [assumption|reflexivity]].
  unfold cache_shaped. cbn [c_x c_prev_h c_next_h c_Wh c_Wx]. tauto.
Qed.

Lemma rnn_step_backward_entries (dnext_h : ndarray R) (c : step_cache R)
    (n d h : nat) :
  has_shape dnext_h [n; h] -> cache_shaped c n d h ->
  exists dx dprev_h dWx dWh db,
    rnn_step_backward dnext_h c = Ok (dx, dprev_h, dWx, dWh, db) /\
    (has_shape dx [n; d] /\ has_shape dprev_h [n; h] /\
     has_shape dWx [d; h] /\ has_shape dWh [h; h] /\ has_shape db [h]) /\
    (forall k j, k < h -> j < h ->
       get2 dWh h k j =
       sigma n (fun i => mul (get2 (c_prev_h c) h i k)
                             (local_grad dnext_h (c_next_h c) h i j))) /\
    (forall l j, l < d -> j < h ->
       get2 dWx h l j =
       sigma n (fun i => mul (get2 (c_x c) d i l)
                             (local_grad dnext_h (c_next_h c) h i j))) /\
    (forall i l, i < n -> l < d ->
       get2 dx d i l =
       sigma h (fun j => mul (local_grad dnext_h (c_next_h c) h i j)
                             (get2 (c_Wx c) h l j))) /\
    (forall i k, i < n -> k < h ->
       get2 dprev_h h i k =
       sigma h (fun j => mul (local_grad dnext_h (c_next_h c) h i j)
                             (get2 (c_Wh c) h k j))) /\
    (forall j, j < h ->
       get1 db j =
       sigma n (fun i => local_grad dnext_h (c_next_h c) h i j)).
Proof.
  intros Hd (Hx & Hp & Hn & HWh & HWx).
  assert (Hsq : has_shape (np_rsub one (np_square (c_next_h c))) [n; h]).
  { apply (has_shape_map (sub one)).
    apply (has_shape_map (fun v => mul v v)). assumption. }
  destruct (np_binop_same mul Hd Hsq) as (dz & E0 & S0 & G0).
  assert (Gdz : forall i j, i < n -> j < h ->
            get2 dz h i j = local_grad dnext_h (c_next_h c) h i j).
  { intros i j Hi Hj. unfold get2 at 1.
    assert (Hq : i * h + j < n * h) by (apply row_index_lt; assumption).
    rewrite G0 by (simpl; lia). unfold local_grad, get2. f_equal.
    destruct Hn as [_ Ln]. simpl in Ln.
    change (np_rsub one (np_square (c_next_h c)))
      with (np_map (sub one) (np_map (fun v => mul v v) (c_next_h c))).
    rewrite get_map by (simpl; rewrite length_map; lia).
    rewrite get_map by lia. reflexivity. }
  destruct (np_transpose_matrix Hp) as (SpT & GpT).
  destruct (np_transpose_matrix Hx) as (SxT & GxT).
  destruct (np_transpose_matrix HWx) as (SWxT & GWxT).
  destruct (np_transpose_matrix HWh) as (SWhT & GWhT).
  destruct (np_dot_matrix SpT S0) as (dWh & E1 & S1 & G1).
  destruct (np_dot_matrix SxT S0) as (dWx & E2 & S2 & G2).
  destruct (np_dot_matrix S0 SWxT) as (dx & E3 & S3 & G3).
  destruct (np_dot_matrix S0 SWhT) as (dprev_h & E4 & S4 & G4).
  destruct (np_sum_axis0_matrix S0) as (db & E5 & S5 & G5).
  exists dx, dprev_h, dWx, dWh, db.
  split.
  { unfold rnn_step_backward, np_mul.
    rewrite E0. cbn [bind]. rewrite E1. cbn [bind]. rewrite E2. cbn [bind].
    rewrite E3. cbn [bind]. rewrite E4. cbn [bind]. rewrite E5. reflexivity. }
  split; [tauto|].
  split; [|split; [|split; [|split]]].
  - intros k j Hk Hj. rewrite G1 by assumption.
    apply sigma_ext. intros i Hi. rewrite GpT, Gdz by assumption. reflexivity.
  - intros l j Hl Hj. rewrite G2 by assumption.
    apply sigma_ext. intros i Hi. rewrite GxT, Gdz by assumption. reflexivity.
  - intros i l Hi Hl. rewrite G3 by assumption.
    apply sigma_ext. intros j Hj. rewrite GWxT, Gdz by assumption. reflexivity.
  - intros i k Hi Hk. rewrite G4 by assumption.
    apply sigma_ext. intros j Hj. rewrite GWhT, Gdz by assumption. reflexivity.
  - intros j Hj. rewrite G5 by assumption.
    apply sigma_ext. intros i Hi. apply Gdz; assumption.
Qed.

End StepCell.

(* ------------------------------------------------------------------ *)
(** * SequenceRunner: the forward pass *)
(* ------------------------------------------------------------------ *)

Section SequenceForward.

Context {R : Type} {SR : Scalar R} {AR : Activation R}.

Variables (x h0 Wx Wh b : ndarray R).

Variables (n T d h : nat).

Hypothesis Hx : has_shape x [n; T; d].
Hypothesis Hh0 : has_shape h0 [n; h].
Hypothesis HWx : has_shape Wx [d; h].
Hypothesis HWh : has_shape Wh [h; h].
Hypothesis Hb : has_shape b [h].

Lemma forward_inv_init : forward_inv x h0 Wx Wh b n d h 0 [] [] h0.
Proof.
  unfold forward_inv.
  split; [reflexivity|]. split; [reflexivity|]. split; [reflexivity|].
  split; [assumption|]. split; [constructor|]. split; [constructor|].
  intros t Ht. lia.
Qed.

Lemma forward_inv_step (t0 : nat) (hl : list (ndarray R))
    (cl : list (step_cache R)) (prev : ndarray R) :
  t0 < T -> forward_inv x h0 Wx Wh b n d h t0 hl cl prev ->
  exists xt next_h c,
    np_slice_mid x t0 = Ok xt /\
    rnn_step_forward xt prev Wx Wh b = Ok (next_h, c) /\
    c_next_h c = next_h /\
    forward_inv x h0 Wx Wh b n d h (S t0) (hl ++ [next_h]) (cl ++ [c]) next_h.
Proof.
  intros Ht0 (Lh & Lc & Hprev & Sprev & Fh & Fc & Hsteps).
  destruct (np_slice_mid_cube Hx Ht0) as (xt & Ext & Sxt & _).
  destruct (rnn_step_forward_entries Sxt Sprev HWx HWh Hb)
    as (next_h & Estep & Snext & _).
  destruct (rnn_step_forward_cache_shaped Sxt Sprev HWx HWh Hb Estep)
    as (Cs & _ & _).
  set (c := {| c_x := xt; c_prev_h := prev; c_next_h := next_h;
               c_Wh := Wh; c_Wx := Wx |}) in *.
  exists xt, next_h, c. split; [exact Ext|]. split; [exact Estep|].
  split; [reflexivity|].
  unfold forward_inv. rewrite !length_app. cbn [length].
  split; [lia|]. split; [lia|]. split.
  { cbn [hidden_before]. rewrite Hprev. cbn [bind]. rewrite Ext. cbn [bind].
    rewrite Estep. reflexivity. }
  split; [assumption|]. split.
  { apply Forall_app. split; [assumption|].
    constructor; [assumption|constructor]. }
  split.
  { apply Forall_app. split; [assumption|].
    constructor; [assumption|constructor]. }
  intros t Ht. destruct (Nat.eq_dec t t0) as [->|Hne].
  - exists next_h, c. split; [|split].
    + rewrite nth_error_app2 by lia. rewrite Lh, Nat.sub_diag. reflexivity.
    + rewrite nth_error_app2 by lia. rewrite Lc, Nat.sub_diag. reflexivity.
    + unfold step_at. rewrite Hprev. cbn [bind]. rewrite Ext. cbn [bind].
      exact Estep.
  - destruct (Hsteps t) as (nh & c' & E1 & E2 & E3); [lia|].
    exists nh, c'. split; [|split].
    + rewrite nth_error_app1 by lia. assumption.
    + rewrite nth_error_app1 by lia. assumption.
    + assumption.
Qed.

Lemma rnn_forward_loop_inv (k t0 : nat) (hl : list (ndarray R))
    (cl : list (step_cache R)) (prev : ndarray R) :
  t0 + k <= T -> forward_inv x h0 Wx Wh b n d h t0 hl cl prev ->
  exists hl' cl' prev',
    rnn_forward_loop x Wx Wh b (seq t0 k) hl cl prev = Ok (hl', cl') /\
    forward_inv x h0 Wx Wh b n d h (t0 + k) hl' cl' prev'.
Proof.
  revert t0 hl cl prev.
  induction k as [|k IH]; intros t0 hl cl prev Hle Hinv.
  - exists hl, cl, prev. rewrite Nat.add_0_r. split; [reflexivity|assumption].
  - assert (Ht0 : t0 < T) by lia.
    destruct (forward_inv_step Ht0 Hinv)
      as (xt & nh & c & E1 & E2 & E3 & Hinv').
    destruct (IH (S t0) _ _ _ ltac:(lia) Hinv')
      as (hl' & cl' & prev' & E & Hfin).
    exists hl', cl', prev'. cbn [seq rnn_forward_loop].
    rewrite E1. cbn [bind]. rewrite E2. cbn [bind]. rewrite E3.
    split; [exact E|]. replace (t0 + S k) with (S t0 + k) by lia. assumption.
Qed.

(** The forward pass on well-shaped inputs with at least one timestep. *)
Lemma rnn_forward_run :
  1 <= T ->
  exists hs cache,
    rnn_forward x h0 Wx Wh b = Ok (hs, cache) /\
    has_shape hs [n; T; h] /\
    length cache = T /\
    Forall (fun c => cache_shaped c n d h) cache /\
    forall t, t < T ->
      exists next_h c,
        step_at x h0 Wx Wh b t = Ok (next_h, c) /\
        nth_error cache t = Some c /\
        has_shape next_h [n; h] /\
        forall i j, i < n -> j < h ->
          get3 hs T h i t j = get2 next_h h i j.
Proof.
  intros HT.
  destruct (@rnn_forward_loop_inv T 0 [] [] h0 ltac:(lia) forward_inv_init)
    as (hl & cl & prev & Eloop & (Lh & Lc & _ & _ & Fh & Fc & Hsteps)).
  cbn [Nat.add] in *.
  assert (Hne : hl <> []) by (intros ->; simpl in Lh; lia).
  destruct (np_transpose_102_uniform Fh Hne) as (hs & Ehs & Shs & Ghs).
  rewrite Lh in Shs, Ghs.
  exists hs, cl. split.
  { unfold rnn_forward, shape_at. destruct Hx as [Hsx _]. rewrite Hsx.
    cbn [list_index nth_error bind]. rewrite Eloop. cbn [bind].
    rewrite Ehs. reflexivity. }
  split; [assumption|]. split; [assumption|]. split; [assumption|].
  intros t Ht. destruct (Hsteps t Ht) as (nh & c & E1 & E2 & E3).
  exists nh, c. split; [assumption|]. split; [assumption|]. split.
  - rewrite Forall_forall in Fh. apply Fh. eapply nth_error_In. eassumption.
  - intros i j Hi Hj. apply Ghs; assumption.
Qed.

End SequenceForward.

(* ------------------------------------------------------------------ *)
(** * SequenceRunner: the backward pass *)
(* ------------------------------------------------------------------ *)

Section SequenceBackward.

Context {R : Type} {SR : Scalar R}.

Lemma np_iadd_same (a b : ndarray R) (s : list nat) :
  has_shape a s -> has_shape b s ->
  exists r, np_iadd a b = Ok r /\ has_shape r s /\
    forall k, k < size s -> get r k = add (get a k) (get b k).
Proof.
  intros Ha Hb.
  destruct (np_binop_same add Ha Hb) as (r & E & S & G).
  exists r. unfold np_iadd, np_add. rewrite E. cbn [bind].
  destruct S as [Ss Sl]. destruct Ha as [Hsa _].
  rewrite Ss, Hsa, shape_eqb_refl.
  split; [reflexivity|]. split; [split; assumption|assumption].
Qed.

Lemma acc_sum_ext (g g' : nat -> R) (k : nat) :
  (forall m, m <= k -> g m = g' m) -> acc_sum g k = acc_sum g' k.
Proof.
  induction k as [|k IH]; intros Hg; cbn [acc_sum].
  - apply Hg. lia.
  - rewrite IH by (intros m Hm; apply Hg; lia).
    rewrite (Hg (S k)) by lia. reflexivity.
Qed.

Variables (dh : ndarray R) (cache : list (step_cache R)).

Variables (n T d h : nat).

Hypothesis Hdh : has_shape dh [n; T; h].
Hypothesis Hcache : forall t, t < T ->
  exists c, nth_error cache t = Some c /\ cache_shaped c n d h.

Lemma step_backward_shaped (g : ndarray R) (t : nat) :
  t < T -> has_shape g [n; h] ->
  exists c r, list_index cache t = Ok c /\
    rnn_step_backward g c = Ok r /\ grads_shaped n d h r.
Proof.
  intros Ht Hg. destruct (Hcache Ht) as (c & Ec & Cs).
  destruct (rnn_step_backward_entries Hg Cs)
    as (dx & dprev_h & dWx & dWh & db & E & S & _).
  exists c, (dx, dprev_h, dWx, dWh, db).
  unfold list_index. rewrite Ec.
  split; [reflexivity|]. split; [exact E|exact S].
Qed.

Lemma shape_at_dh : shape_at dh 1 = Ok T.
Proof. unfold shape_at. destruct Hdh as [Hs _]. rewrite Hs. reflexivity. Qed.

(** The first iteration, at the last timestep. *)
Lemma backward_iter_first (ts : list nat) :
  1 <= T ->
  exists dxl vars,
    backward_inv dh cache n T d h 0 dxl vars /\
    rnn_backward_loop dh cache ((T - 1) :: ts) [] None =
    rnn_backward_loop dh cache ts dxl vars.
Proof.
  intros HT.
  assert (Htop : T - 1 < T) by lia.
  destruct (np_slice_mid_cube Hdh Htop) as (dht & Eslice & Sdht & _).
  destruct (step_backward_shaped Htop Sdht) as (c & r & Ec & Er & Sr).
  destruct r as [[[[dx dprev_h] dWx] dWh] db].
  assert (Eb : bptt dh cache (T - 1) 0 = Ok (dx, dprev_h, dWx, dWh, db)).
  { cbn [bptt]. rewrite Eslice. cbn [bind]. rewrite Ec. cbn [bind]. exact Er. }
  exists [dx], (Some (dprev_h, dWx, dWh, db)). split.
  - destruct Sr as (S1 & S2 & S3 & S4 & S5).
    split; [reflexivity|]. split; [constructor; [assumption|constructor]|].
    split.
    + intros m Hm. assert (m = 0) by lia. subst m.
      exists (dx, dprev_h, dWx, dWh, db).
      split; [exact Eb|]. split; [cbn; tauto|reflexivity].
    + exists dprev_h, dWx, dWh, db. rewrite Eb.
      repeat (split; [first [reflexivity|assumption]|]).
      split; [|split]; intros; cbn [acc_sum]; rewrite Eb; reflexivity.
  - cbn [rnn_backward_loop]. rewrite shape_at_dh. cbn [bind].
    replace (S (T - 1) =? T) with true by (symmetry; apply Nat.eqb_eq; lia).
    rewrite Eslice. cbn [bind]. rewrite Ec. cbn [bind]. rewrite Er.
    reflexivity.
Qed.

(** A later iteration, at timestep [T-1-(k+1)]. *)
Lemma backward_iter_next (k : nat) (ts : list nat)
    (dxl : list (ndarray R)) (vars : option (@bptt_vars R)) :
  S (S k) <= T -> backward_inv dh cache n T d h k dxl vars ->
  exists dxl' vars',
    backward_inv dh cache n T d h (S k) dxl' vars' /\
    rnn_backward_loop dh cache ((T - 1 - S k) :: ts) dxl vars =
    rnn_backward_loop dh cache ts dxl' vars'.
Proof.
  intros Hk (Ldx & Fdx & Hsteps & dh0 & aWx & aWh & ab & Evars & Edh0 &
             Sdh0 & SaWx & SaWh & Sab & GWx & GWh & Gb).
  set (t := T - 1 - S k) in *.
  assert (Ht : t < T) by (unfold t; lia).
  destruct (np_slice_mid_cube Hdh Ht) as (dht & Eslice & Sdht & _).
  destruct (np_binop_same add Sdht Sdh0) as (g & Eg & Sg & _).
  destruct (step_backward_shaped Ht Sg) as (c & r & Ec & Er & Sr).
  destruct r as [[[[dx dprev_h] dWx] dWh] db].
  destruct Sr as (S1 & S2 & S3 & S4 & S5).
  destruct (np_iadd_same SaWx S3) as (aWx' & EWx & SWx' & GWx').
  destruct (np_iadd_same SaWh S4) as (aWh' & EWh & SWh' & GWh').
  destruct (np_iadd_same Sab S5) as (ab' & Eab & Sb' & Gb').
  assert (Eb : bptt dh cache (T - 1) (S k) = Ok (dx, dprev_h, dWx, dWh, db)).
  { cbn [bptt]. destruct (Hsteps k (Nat.le_refl k)) as (rk & Erk & _ & _).
    rewrite Erk in Edh0 |- *. destruct rk as [[[[dxk dpk] dWxk] dWhk] dbk].
    cbn [grad_dprev_h] in Edh0. subst dpk. cbn [bind]. fold t.
    rewrite Eslice. cbn [bind]. unfold np_add. rewrite Eg. cbn [bind].
    rewrite Ec. cbn [bind]. exact Er. }
  exists (dxl ++ [dx]), (Some (dprev_h, aWx', aWh', ab')). split.
  - split; [rewrite length_app; cbn [length]; lia|].
    split; [apply Forall_app; split;
            [assumption|constructor; [assumption|constructor]]|].
    split.
    + intros m Hm. destruct (Nat.eq_dec m (S k)) as [->|Hne].
      * exists (dx, dprev_h, dWx, dWh, db).
        split; [exact Eb|]. split; [cbn; tauto|].
        rewrite nth_error_app2 by lia. rewrite Ldx, Nat.sub_diag. reflexivity.
      * destruct (Hsteps m) as (rm & E1 & E2 & E3); [lia|].
        exists rm. split; [assumption|]. split; [assumption|].
        rewrite nth_error_app1 by lia. assumption.
    + exists dprev_h, aWx', aWh', ab'. rewrite Eb.
      repeat (split; [first [reflexivity|assumption]|]).
      split; [|split].
      * intros l j Hl Hj. cbn [acc_sum]. rewrite Eb. cbn [grad_dWx].
        rewrite <- GWx by assumption.
        unfold get2. apply GWx'. cbn [size fold_right]. nia.
      * intros i j Hi Hj. cbn [acc_sum]. rewrite Eb. cbn [grad_dWh].
        rewrite <- GWh by assumption.
        unfold get2. apply GWh'. cbn [size fold_right]. nia.
      * intros j Hj. cbn [acc_sum]. rewrite Eb. cbn [grad_db].
        rewrite <- Gb by assumption.
        unfold get1. apply Gb'. cbn [size fold_right]. lia.
  - cbn [rnn_backward_loop]. rewrite shape_at_dh. cbn [bind].
    replace (S t =? T) with false
      by (symmetry; apply Nat.eqb_neq; unfold t; lia).
    rewrite Eslice. cbn [bind]. rewrite Evars. cbn [read_local bind].
    unfold np_add. rewrite Eg. cbn [bind]. rewrite Ec. cbn [bind].
    rewrite Er. cbn [bind]. rewrite EWx. cbn [bind]. rewrite EWh. cbn [bind].
    rewrite Eab. reflexivity.
Qed.

Lemma range_down_S (r : nat) : range_down (S r) = r :: range_down r.
Proof. unfold range_down. rewrite seq_S, rev_app_distr. reflexivity. Qed.

(** The remaining [r] iterations, after those of timesteps [T-1 .. T-1-k]. *)
Lemma backward_loop_rest (r k : nat) (dxl : list (ndarray R))
    (vars : option (@bptt_vars R)) :
  S k + r = T -> backward_inv dh cache n T d h k dxl vars ->
  exists dxl' vars',
    rnn_backward_loop dh cache (range_down r) dxl vars = Ok (dxl', vars') /\
    backward_inv dh cache n T d h (T - 1) dxl' vars'.
Proof.
  revert k dxl vars. induction r as [|r IH]; intros k dxl vars Hk Hinv.
  - exists dxl, vars. replace (T - 1) with k by lia.
    split; [reflexivity|assumption].
  - rewrite range_down_S.
    destruct (@backward_iter_next k (range_down r) dxl vars ltac:(lia) Hinv)
      as (dxl' & vars' & Hinv' & E).
    replace (T - 1 - S k) with r in E by lia.
    rewrite E. apply (IH (S k)); [lia|assumption].
Qed.

Lemma backward_loop_run :
  1 <= T ->
  exists dxl vars,
    rnn_backward_loop dh cache (range_down T) [] None = Ok (dxl, vars) /\
    backward_inv dh cache n T d h (T - 1) dxl vars.
Proof.
  intros HT.
  assert (E0 : range_down T = (T - 1) :: range_down (T - 1))
    by (rewrite <- range_down_S; f_equal; lia).
  rewrite E0.
  destruct (@backward_iter_first (range_down (T - 1)) HT)
    as (dxl & vars & Hinv & E).
  rewrite E. apply (@backward_loop_rest (T - 1) 0); [lia|assumption].
Qed.

(** The backward pass over [T >= 1] timesteps, on a gradient of shape
    [(n,T,h)] and a cache whose first [T] entries are well shaped. *)
Lemma rnn_backward_run :
  1 <= T ->
  exists dx dh0 dWx dWh db,
    rnn_backward dh cache = Ok (dx, dh0, dWx, dWh, db) /\
    (has_shape dx [n; T; d] /\ has_shape dh0 [n; h] /\
     has_shape dWx [d; h] /\ has_shape dWh [h; h] /\ has_shape db [h]) /\
    (forall t, t < T ->
       exists r, step_grad dh cache T t = Ok r /\ grads_shaped n d h r) /\
    (forall t i l, t < T -> i < n -> l < d ->
       get3 dx T d i t l = get2 (grad_dx (step_grad dh cache T t)) d i l) /\
    dh0 = grad_dprev_h (step_grad dh cache T 0) /\
    (forall l j, l < d -> j < h ->
       get2 dWx h l j =
       acc_sum (fun m =>
         get2 (grad_dWx (step_grad dh cache T (T - 1 - m))) h l j) (T - 1)) /\
    (forall i j, i < h -> j < h ->
       get2 dWh h i j =
       acc_sum (fun m =>
         get2 (grad_dWh (step_grad dh cache T (T - 1 - m))) h i j) (T - 1)) /\
    (forall j, j < h ->
       get1 db j =
       acc_sum (fun m =>
         get1 (grad_db (step_grad dh cache T (T - 1 - m))) j) (T - 1)).
Proof.
  intros HT.
  destruct (backward_loop_run HT) as (dxl & vars & Eloop & Hinv).
  destruct Hinv as (Ldx & Fdx & Hsteps & dh0 & dWx & dWh & db & Evars & Edh0 &
                    Sdh0 & SdWx & SdWh & Sdb & GWx & GWh & Gb).
  assert (Lrev : length (rev dxl) = T) by (rewrite length_rev; lia).
  assert (Hne : rev dxl <> [])
    by (intros E; rewrite E in Lrev; simpl in Lrev; lia).
  destruct (np_transpose_102_uniform (Forall_rev Fdx) Hne)
    as (dx & Edx & Sdx & Gdx).
  rewrite Lrev in Sdx, Gdx.
  assert (Hstep_eq : forall m, m <= T - 1 ->
            step_grad dh cache T (T - 1 - m) = bptt dh cache (T - 1) m).
  { intros m Hm. unfold step_grad. f_equal. lia. }
  exists dx, dh0, dWx, dWh, db. split.
  { unfold rnn_backward. rewrite shape_at_dh. cbn [bind]. rewrite Eloop.
    cbn [bind]. rewrite Edx. cbn [bind]. rewrite Evars. reflexivity. }
  split; [tauto|]. split.
  { intros t Ht. destruct (Hsteps (T - 1 - t)) as (r & E1 & E2 & _); [lia|].
    exists r. split; assumption. }
  split.
  { intros t i l Ht Hi Hl.
    destruct (Hsteps (T - 1 - t)) as (r & E1 & _ & E3); [lia|].
    unfold step_grad. rewrite E1. apply Gdx; try assumption.
    rewrite nth_error_rev.
    replace (t <? length dxl) with true by (symmetry; apply Nat.ltb_lt; lia).
    replace (length dxl - S t) with (T - 1 - t) by lia. assumption. }
  split.
  { unfold step_grad. rewrite Nat.sub_0_r. assumption. }
  split; [|split].
  - intros l j Hl Hj. rewrite GWx by assumption.
    apply acc_sum_ext. intros m Hm. rewrite Hstep_eq by assumption. reflexivity.
  - intros i j Hi Hj. rewrite GWh by assumption.
    apply acc_sum_ext. intros m Hm. rewrite Hstep_eq by assumption. reflexivity.
  - intros j Hj. rewrite Gb by assumption.
    apply acc_sum_ext. intros m Hm. rewrite Hstep_eq by assumption. reflexivity.
Qed.

(** The recurrence, timestep by timestep: the step of timestep [t] is the
    backward step applied to the cache entry [t] and to a gradient [g]
    that is [dh[:,t,:]] at the last timestep and [dh[:,t,:]] plus the
    [dprev_h] of the step of timestep [t+1] before. *)
Lemma step_grad_recurrence (t : nat) :
  t < T ->
  exists g c,
    nth_error cache t = Some c /\ has_shape g [n; h] /\
    step_grad dh cache T t = rnn_step_backward g c /\
    forall i j, i < n -> j < h ->
      get2 g h i j =
      if S t =? T then get3 dh T h i t j
      else add (get3 dh T h i t j)
               (get2 (grad_dprev_h (step_grad dh cache T (S t))) h i j).
Proof.
  intros Ht.
  destruct (backward_loop_run ltac:(lia))
    as (dxl & vars & _ & (_ & _ & Hsteps & _)).
  destruct (np_slice_mid_cube Hdh Ht) as (dht & Eslice & Sdht & Gdht).
  destruct (Hcache Ht) as (c & Ec & Cs).
  destruct (Nat.eq_dec (S t) T) as [Elast|Hnot].
  - exists dht, c. split; [assumption|]. split; [assumption|]. split.
    + unfold step_grad. replace (T - 1 - t) with 0 by lia.
      replace (T - 1) with t by lia. cbn [bptt].
      rewrite Eslice. cbn [bind]. unfold list_index. rewrite Ec. reflexivity.
    + intros i j Hi Hj. apply Nat.eqb_eq in Elast. rewrite Elast.
      apply Gdht; assumption.
  - destruct (Hsteps (T - 1 - S t)) as (r & Er & Sr & _); [lia|].
    destruct r as [[[[dx dprev_h] dWx] dWh] db].
    destruct Sr as (_ & Sdp & _).
    destruct (np_binop_same add Sdht Sdp) as (g & Eg & Sg & Gg).
    exists g, c. split; [assumption|]. split; [assumption|]. split.
    + unfold step_grad. replace (T - 1 - t) with (S (T - 1 - S t)) by lia.
      cbn [bptt]. rewrite Er. cbn [bind].
      replace (T - 1 - S (T - 1 - S t)) with t by lia.
      rewrite Eslice. cbn [bind]. unfold np_add. rewrite Eg. cbn [bind].
      unfold list_index. rewrite Ec. reflexivity.
    + intros i j Hi Hj. apply Nat.eqb_neq in Hnot. rewrite Hnot.
      unfold step_grad. rewrite Er. cbn [grad_dprev_h].
      rewrite <- Gdht by assumption. unfold get2. apply Gg.
      cbn [size fold_right]. nia.
Qed.

End SequenceBackward.

(* ------------------------------------------------------------------ *)
(** * MaskedAverager *)
(* ------------------------------------------------------------------ *)

Section MaskedAverager.

Context {R : Type} {SR : Scalar R}.

Lemma np_array_stacked (l : list (ndarray R)) (s : list nat) :
  Forall (fun a => has_shape a s) l ->
  exists r, np_array l = Ok r /\
    has_shape r (stacked_shape (length l) s) /\
    forall t a k, nth_error l t = Some a -> k < size s ->
      get r (t * size s + k) = get a k.
Proof.
  intros Hall. destruct l as [|a0 l].
  - eexists. split; [reflexivity|]. split; [split; reflexivity|].
    intros t a k Ht. destruct t; discriminate.
  - apply np_array_uniform; [assumption|discriminate].
Qed.

Section Forward.

Variables (hi mask : ndarray R) (n T h : nat).

Hypothesis Hhi : has_shape hi [n; T; h].
Hypothesis Hmask : has_shape mask [n; T].

Lemma average_forward_loop_inv (count : ndarray R) (k i0 : nat)
    (ho : list (ndarray R)) :
  has_shape count [n] ->
  (forall i, i < n -> get1 count i = mask_count mask T i) ->
  i0 + k <= n -> avg_inv hi mask T h i0 ho ->
  exists ho',
    average_forward_loop hi mask count (seq i0 k) ho = Ok ho' /\
    avg_inv hi mask T h (i0 + k) ho'.
Proof.
  intros Hc Gc. revert i0 ho.
  induction k as [|k IH]; intros i0 ho Hle Hinv.
  - exists ho. rewrite Nat.add_0_r. split; [reflexivity|assumption].
  - assert (Hi0 : i0 < n) by lia.
    destruct (np_index_matrix Hmask Hi0) as (mask_i & E1 & S1 & G1).
    destruct (np_index_cube Hhi Hi0) as (hi_i & E2 & S2 & G2).
    destruct (np_dot_vector_matrix S1 S2) as (s & E3 & S3 & G3).
    destruct (np_index_vector Hc Hi0) as (count_i & E4 & S4 & G4).
    destruct (np_binop_scalar div S3 S4) as (q & E5 & S5 & G5).
    destruct Hinv as (Lho & Fho & Gho).
    destruct (IH (S i0) (ho ++ [q])) as (ho' & E & Hfin); [lia| |].
    { split; [rewrite length_app; cbn [length]; lia|].
      split; [apply Forall_app; split;
              [assumption|constructor; [assumption|constructor]]|].
      intros i a j Hnth Hj.
      destruct (Nat.lt_ge_cases i (length ho)) as [Hlt|Hge].
      - rewrite nth_error_app1 in Hnth by assumption. eapply Gho; eassumption.
      - rewrite nth_error_app2 in Hnth by assumption.
        destruct (i - length ho) as [|m] eqn:Em.
        + cbn [nth_error] in Hnth. injection Hnth as <-.
          assert (i = i0) by lia. subst i.
          rewrite G5, G4, G3 by assumption.
          unfold avg_entry. rewrite <- Gc by assumption. f_equal.
          apply sigma_ext. intros t Ht. rewrite G1, G2 by assumption.
          reflexivity.
        + destruct m; discriminate. }
    exists ho'. cbn [seq average_forward_loop].
    rewrite E1. cbn [bind]. rewrite E2. cbn [bind]. rewrite E3. cbn [bind].
    rewrite E4. cbn [bind]. unfold np_div. rewrite E5. cbn [bind].
    split; [exact E|]. replace (i0 + S k) with (S i0 + k) by lia. assumption.
Qed.

(** The forward pass of the average on well-shaped inputs: it returns for
    every mask, whatever the counts are. *)
Lemma average_forward_run :
  exists ho count,
    average_forward hi mask =
      Ok (ho, {| ac_mask := mask; ac_count := count |}) /\
    has_shape count [n] /\
    (forall i, i < n -> get1 count i = mask_count mask T i) /\
    has_shape ho (stacked_shape n [h]) /\
    forall i k, i < n -> k < h ->
      get2 ho h i k = avg_entry hi mask T h i k.
Proof.
  destruct (np_sum_axis1_matrix Hmask) as (count & Ec & Sc & Gc).
  assert (Gc' : forall i, i < n -> get1 count i = mask_count mask T i)
    by (intros i Hi; apply Gc; assumption).
  destruct (@average_forward_loop_inv count n 0 [] Sc Gc' ltac:(lia))
    as (hl & Eloop & (Lh & Fh & Gh)).
  { split; [reflexivity|]. split; [constructor|].
    intros i a k Hnth. destruct i; discriminate. }
  cbn [Nat.add] in *.
  destruct (np_array_stacked Fh) as (ho & Eho & Sho & Gho).
  rewrite Lh in Sho.
  exists ho, count. split.
  { unfold average_forward, shape3. destruct Hhi as [Hs _]. rewrite Hs.
    cbn [bind]. rewrite Ec. cbn [bind]. rewrite Eloop. cbn [bind].
    rewrite Eho. reflexivity. }
  split; [assumption|]. split; [assumption|]. split; [assumption|].
  intros i k Hi Hk.
  assert (Hnth : exists a, nth_error hl i = Some a).
  { destruct (nth_error hl i) eqn:E; [eexists; reflexivity|].
    apply nth_error_None in E. lia. }
  destruct Hnth as (a & Hnth).
  specialize (Gho i a k Hnth). cbn [size fold_right] in Gho.
  rewrite Nat.mul_1_r in Gho. unfold get2. rewrite Gho by lia.
  apply (Gh i a k Hnth Hk).
Qed.

End Forward.

Section Backward.

Variables (dho : ndarray R) (cache : avg_cache R) (n T h : nat).

Hypothesis Hdho : has_shape dho [n; h].
Hypothesis Hmask : has_shape (ac_mask cache) [n; T].
Hypothesis Hcount : has_shape (ac_count cache) [n].

Lemma average_backward_inner_inv (i k t0 : nat) (tmph : list (ndarray R)) :
  i < n -> t0 + k <= T -> davg_inner_inv dho cache T h i t0 tmph ->
  exists tmph',
    average_backward_inner dho cache i (seq t0 k) tmph = Ok tmph' /\
    davg_inner_inv dho cache T h i (t0 + k) tmph'.
Proof.
  intros Hi. revert t0 tmph.
  induction k as [|k IH]; intros t0 tmph Hle Hinv.
  - exists tmph. rewrite Nat.add_0_r. split; [reflexivity|assumption].
  - assert (Ht0 : t0 < T) by lia.
    destruct (np_index_matrix Hdho Hi) as (dho_i & E1 & S1 & G1).
    destruct (np_index2_matrix Hmask Hi Ht0) as (m_ij & E2 & S2 & G2).
    destruct (np_binop_scalar mul S1 S2) as (p & E3 & S3 & G3).
    destruct (np_index_vector Hcount Hi) as (count_i & E4 & S4 & G4).
    destruct (np_binop_scalar div S3 S4) as (q & E5 & S5 & G5).
    destruct Hinv as (Lt & Ft & Gt).
    destruct (IH (S t0) (tmph ++ [q])) as (tmph' & E & Hfin); [lia| |].
    { split; [rewrite length_app; cbn [length]; lia|].
      split; [apply Forall_app; split;
              [assumption|constructor; [assumption|constructor]]|].
      intros t a j Hnth Hj.
      destruct (Nat.lt_ge_cases t (length tmph)) as [Hlt|Hge].
      - rewrite nth_error_app1 in Hnth by assumption. eapply Gt; eassumption.
      - rewrite nth_error_app2 in Hnth by assumption.
        destruct (t - length tmph) as [|m] eqn:Em.
        + cbn [nth_error] in Hnth. injection Hnth as <-.
          assert (t = t0) by lia. subst t.
          rewrite G5, G4, G3, G2, G1 by assumption. reflexivity.
        + destruct m; discriminate. }
    exists tmph'. cbn [seq average_backward_inner].
    rewrite E1. cbn [bind]. rewrite E2. cbn [bind].
    unfold np_mul, np_div. rewrite E3. cbn [bind].
    rewrite E4. cbn [bind]. rewrite E5. cbn [bind].
    split; [exact E|]. replace (t0 + S k) with (S t0 + k) by lia. assumption.
Qed.

Lemma average_backward_row (i : nat) :
  i < n ->
  exists tmph row,
    average_backward_inner dho cache i (seq 0 T) [] = Ok tmph /\
    np_array tmph = Ok row /\ davg_row_ok dho cache T h i row.
Proof.
  intros Hi.
  destruct (@average_backward_inner_inv i T 0 [] Hi ltac:(lia))
    as (tmph & E & (Lt & Ft & Gt)).
  { split; [reflexivity|]. split; [constructor|].
    intros t a k Hnth. destruct t; discriminate. }
  cbn [Nat.add] in *.
  destruct (np_array_stacked Ft) as (row & Erow & Srow & Grow).
  rewrite Lt in Srow.
  exists tmph, row. split; [assumption|]. split; [assumption|].
  split; [assumption|].
  intros t k Ht Hk.
  assert (Hnth : exists a, nth_error tmph t = Some a).
  { destruct (nth_error tmph t) eqn:En; [eexists; reflexivity|].
    apply nth_error_None in En. lia. }
  destruct Hnth as (a & Hnth).
  specialize (Grow t a k Hnth). cbn [size fold_right] in Grow.
  rewrite Nat.mul_1_r in Grow. unfold get2. rewrite Grow by lia.
  apply (Gt t a k Hnth Hk).
Qed.

Lemma average_backward_loop_inv (k i0 : nat) (dhi : list (list (ndarray R))) :
  i0 + k <= n -> davg_outer_inv dho cache T h i0 dhi ->
  exists dhi',
    average_backward_loop dho cache T (seq i0 k) dhi = Ok dhi' /\
    davg_outer_inv dho cache T h (i0 + k) dhi'.
Proof.
  revert i0 dhi. induction k as [|k IH]; intros i0 dhi Hle Hinv.
  - exists dhi. rewrite Nat.add_0_r. split; [reflexivity|assumption].
  - assert (Hi0 : i0 < n) by lia.
    destruct (average_backward_row Hi0) as (tmph & row & E1 & E2 & Hrow).
    destruct Hinv as (Ld & Gd).
    destruct (IH (S i0) (dhi ++ [tmph])) as (dhi' & E & Hfin); [lia| |].
    { split; [rewrite length_app; cbn [length]; lia|].
      intros i tm Hnth.
      destruct (Nat.lt_ge_cases i (length dhi)) as [Hlt|Hge].
      - rewrite nth_error_app1 in Hnth by assumption. apply Gd. assumption.
      - rewrite nth_error_app2 in Hnth by assumption.
        destruct (i - length dhi) as [|m] eqn:Em.
        + cbn [nth_error] in Hnth. injection Hnth as <-.
          assert (i = i0) by lia. subst i. exists row. split; assumption.
        + destruct m; discriminate. }
    exists dhi'. cbn [seq average_backward_loop]. rewrite E1. cbn [bind].
    split; [exact E|]. replace (i0 + S k) with (S i0 + k) by lia. assumption.
Qed.

End Backward.

(** [map_result] succeeds when its function does on every element, and
    keeps the positions. *)
Lemma map_result_indexed {A B : Type} (f : A -> result B)
    (P : nat -> B -> Prop) (l : list A) :
  (forall i a, nth_error l i = Some a -> exists b, f a = Ok b /\ P i b) ->
  exists bs, map_result f l = Ok bs /\ length bs = length l /\
    forall i b, nth_error bs i = Some b -> P i b.
Proof.
  revert P. induction l as [|a l IH]; intros P Hall.
  - exists []. split; [reflexivity|]. split; [reflexivity|].
    intros i b Hnth. destruct i; discriminate.
  - destruct (Hall 0 a eq_refl) as (b & Eb & Pb).
    destruct (IH (fun i => P (S i))) as (bs & Ebs & Lbs & Pbs).
    { intros i a' Hnth. apply (Hall (S i) a' Hnth). }
    exists (b :: bs). cbn [map_result]. rewrite Eb. cbn [bind].
    rewrite Ebs. cbn [bind]. split; [reflexivity|].
    split; [cbn [length]; lia|].
    intros i b' Hnth. destruct i as [|i].
    + injection Hnth as <-. assumption.
    + apply Pbs. assumption.
Qed.

(** The backward pass of the average on a well-shaped gradient and cache. *)
Lemma average_backward_run (dho : ndarray R) (cache : avg_cache R)
    (n T h : nat) :
  has_shape dho [n; h] ->
  has_shape (ac_mask cache) [n; T] ->
  has_shape (ac_count cache) [n] ->
  exists dhi,
    average_backward dho cache = Ok dhi /\
    has_shape dhi (stacked_shape n (stacked_shape T [h])) /\
    forall i t k, i < n -> t < T -> k < h ->
      get3 dhi T h i t k =
      davg_entry dho (ac_mask cache) (ac_count cache) T h i t k.
Proof.
  intros Hdho Hmask Hcount.
  destruct (@average_backward_loop_inv dho cache n T h Hdho Hmask Hcount
              n 0 [] ltac:(lia)) as (dhl & Eloop & (Ld & Gd)).
  { split; [reflexivity|]. intros i tmph Hnth. destruct i; discriminate. }
  cbn [Nat.add] in *.
  destruct (map_result_indexed (@np_array R)
              (fun i row => davg_row_ok dho cache T h i row) dhl Gd)
    as (rows & Erows & Lrows & Grows).
  assert (Frows : Forall (fun a => has_shape a (stacked_shape T [h])) rows).
  { apply Forall_forall. intros row Hin.
    destruct (In_nth_error _ _ Hin) as (i & Hi).
    destruct (Grows i row Hi) as [Srow _]. assumption. }
  destruct (np_array_stacked Frows) as (dhi & Edhi & Sdhi & Gdhi).
  rewrite Lrows, Ld in Sdhi.
  exists dhi. split.
  { unfold average_backward, shape2, shape_at.
    destruct Hdho as [Hs _]. rewrite Hs. cbn [bind].
    destruct Hmask as [Hsm _]. rewrite Hsm. cbn [list_index nth_error bind].
    rewrite Eloop. cbn [bind]. unfold np_array2. rewrite Erows. cbn [bind].
    exact Edhi. }
  split; [assumption|].
  intros i t k Hi Ht Hk.
  assert (Hnth : exists row, nth_error rows i = Some row).
  { destruct (nth_error rows i) eqn:En; [eexists; reflexivity|].
    apply nth_error_None in En. lia. }
  destruct Hnth as (row & Hnth).
  destruct (Grows i row Hnth) as [_ Grow].
  rewrite <- Grow by assumption.
  specialize (Gdhi i row (t * h + k) Hnth).
  destruct T as [|T']; [lia|]. cbn [stacked_shape size fold_right] in Gdhi.
  unfold get3, get2. rewrite <- Gdhi by nia. f_equal. lia.
Qed.

End MaskedAverager.

(* ------------------------------------------------------------------ *)
(** * TemporalAffine *)
(* ------------------------------------------------------------------ *)

Section TemporalAffine.

Context {R : Type} {SR : Scalar R}.

(** The cache of the forward pass is the tuple of its arguments and its
    output. *)
Lemma temporal_affine_forward_cache (x w b out : ndarray R)
    (cache : @affine_cache R) :
  temporal_affine_forward x w b = Ok (out, cache) -> cache = (x, w, b, out).
Proof.
  unfold temporal_affine_forward. intros Hfwd.
  invert_binds Hfwd. injection Hfwd as -> <-. reflexivity.
Qed.

Variables (dout x w b out : ndarray R) (n T d m : nat).

Hypothesis Hdout : has_shape dout [n; T; m].
Hypothesis Hx : has_shape x [n; T; d].
Hypothesis Hw : has_shape w [d; m].
Hypothesis Hb : has_shape b [m].

(** The forward pass on well-shaped arguments:
    [out[i,t] = x[i,t] . w + b]. *)
Lemma temporal_affine_forward_run :
  exists o,
    temporal_affine_forward x w b = Ok (o, (x, w, b, o)) /\
    has_shape o [n; T; m] /\
    forall i t j, i < n -> t < T -> j < m ->
      get3 o T m i t j =
      add (sigma d (fun l => mul (get3 x T d i t l) (get2 w m l j)))
          (get1 b j).
Proof.
  assert (Zx : size [n; T; d] = size [n * T; d])
    by (cbn [size fold_right]; lia).
  destruct (@np_reshape_ok R x _ _ Hx Zx) as (Ex2 & Sx2).
  set (x2 := {| shape := [n * T; d]; data := data x |}) in *.
  destruct (np_dot_matrix Sx2 Hw) as (p & Ep & Sp & Gp).
  assert (Zp : size [n * T; m] = size [n; T; m])
    by (cbn [size fold_right]; lia).
  destruct (@np_reshape_ok R p _ _ Sp Zp) as (Ep3 & Sp3).
  set (p3 := {| shape := [n; T; m]; data := data p |}) in *.
  destruct (np_binop_cube_row add Sp3 Hb) as (o & Eo & So & Go).
  exists o. split.
  { unfold temporal_affine_forward, shape3, shape_at.
    destruct Hx as [Hsx _]. rewrite Hsx. cbn [bind].
    destruct Hb as [Hsb _]. rewrite Hsb. cbn [list_index nth_error bind].
    rewrite Ex2. cbn [bind]. rewrite Ep. cbn [bind]. rewrite Ep3. cbn [bind].
    unfold np_add. rewrite Eo. reflexivity. }
  split; [assumption|].
  intros i t j Hi Ht Hj. rewrite Go by assumption. f_equal.
  assert (Hp : i * T + t < n * T) by (apply row_index_lt; assumption).
  change (get3 p3 T m i t j) with (get2 p m (i * T + t) j).
  rewrite Gp by assumption. reflexivity.
Qed.

(** The backward pass on well-shaped arguments.  The products of the
    weight gradient are written as the code forms them, gradient first. *)
Lemma temporal_affine_backward_run :
  exists dx dw db,
    temporal_affine_backward dout (x, w, b, out) = Ok (dx, dw, db) /\
    (has_shape dx [n; T; d] /\ has_shape dw [d; m] /\ has_shape db [m]) /\
    (forall i t l, i < n -> t < T -> l < d ->
       get3 dx T d i t l =
       sigma m (fun j => mul (get3 dout T m i t j) (get2 w m l j))) /\
    (forall l j, l < d -> j < m ->
       get2 dw m l j =
       sigma (n * T) (fun p =>
         mul (get3 dout T m (p / T) (p mod T) j)
             (get3 x T d (p / T) (p mod T) l))) /\
    (forall j, j < m ->
       get1 db j =
       sigma (n * T) (fun p => get3 dout T m (p / T) (p mod T) j)).
Proof.
  assert (Zd : size [n; T; m] = size [n * T; m])
    by (cbn [size fold_right]; lia).
  assert (Zx : size [n; T; d] = size [n * T; d])
    by (cbn [size fold_right]; lia).
  destruct (@np_reshape_ok R dout _ _ Hdout Zd) as (Ed2 & Sd2).
  destruct (@np_reshape_ok R x _ _ Hx Zx) as (Ex2 & Sx2).
  set (dout2 := {| shape := [n * T; m]; data := data dout |}) in *.
  set (x2 := {| shape := [n * T; d]; data := data x |}) in *.
  destruct (np_transpose_matrix Hw) as (SwT & GwT).
  destruct (np_dot_matrix Sd2 SwT) as (dx2 & Edx2 & Sdx2 & Gdx2).
  assert (Zdx : size [n * T; d] = size [n; T; d])
    by (cbn [size fold_right]; lia).
  destruct (@np_reshape_ok R dx2 _ _ Sdx2 Zdx) as (Edx & Sdx).
  destruct (np_transpose_matrix Sd2) as (Sd2T & Gd2T).
  destruct (np_dot_matrix Sd2T Sx2) as (dwT & EdwT & SdwT & GdwT).
  destruct (np_transpose_matrix SdwT) as (Sdw & Gdw).
  destruct (np_sum_axis01_cube Hdout) as (db & Edb & Sdb & Gdb).
  exists {| shape := [n; T; d]; data := data dx2 |}, (np_transpose dwT), db.
  split.
  { unfold temporal_affine_backward, shape3, shape_at.
    destruct Hx as [Hsx _]. rewrite Hsx. cbn [bind].
    destruct Hb as [Hsb _]. rewrite Hsb. cbn [list_index nth_error bind].
    rewrite Ed2. cbn [bind]. rewrite Edx2. cbn [bind]. rewrite Edx. cbn [bind].
    rewrite Ex2. cbn [bind]. rewrite EdwT. cbn [bind]. rewrite Edb.
    reflexivity. }
  split; [tauto|]. split; [|split].
  - intros i t l Hi Ht Hl.
    assert (Hp : i * T + t < n * T) by (apply row_index_lt; assumption).
    change (get3 {| shape := [n; T; d]; data := data dx2 |} T d i t l)
      with (get2 dx2 d (i * T + t) l).
    rewrite Gdx2 by assumption.
    apply sigma_ext. intros j Hj. rewrite GwT by assumption. reflexivity.
  - intros l j Hl Hj. rewrite Gdw, GdwT by assumption.
    apply sigma_ext. intros p Hp. rewrite Gd2T by assumption.
    destruct (@flat_index_split T p n Hp) as (_ & _ & Hsplit).
    unfold get3. rewrite <- Hsplit. reflexivity.
  - intros j Hj. apply Gdb. assumption.
Qed.

End TemporalAffine.

(* ------------------------------------------------------------------ *)
(** * The cache list of the backward pass and the empty sequence *)
(* ------------------------------------------------------------------ *)

Section CacheLength.

Context {R : Type} {SR : Scalar R}.

Variables (dh : ndarray R) (n T h : nat).

Hypothesis Hdh : has_shape dh [n; T; h].

Lemma list_index_app {A : Type} (l extra : list A) (t : nat) :
  t < length l -> list_index (l ++ extra) t = list_index l t.
Proof.
  intros Ht. unfold list_index. rewrite nth_error_app1 by assumption.
  reflexivity.
Qed.

(** Entries of the cache list past the timesteps the loop visits are
    never read. *)
Lemma rnn_backward_loop_app (cache extra : list (step_cache R))
    (ts : list nat) (dx : list (ndarray R)) (vars : option (@bptt_vars R)) :
  Forall (fun t => t < length cache) ts ->
  rnn_backward_loop dh (cache ++ extra) ts dx vars =
  rnn_backward_loop dh cache ts dx vars.
Proof.
  intros Hts. revert dx vars.
  induction Hts as [|t ts Ht _ IH]; intros dx vars.
  - reflexivity.
  - cbn [rnn_backward_loop]. rewrite (list_index_app _ extra Ht).
    same_binds; apply IH.
Qed.

Lemma range_down_lt (k : nat) : Forall (fun t => t < k) (range_down k).
Proof.
  unfold range_down. apply Forall_rev. apply Forall_forall.
  intros t Hin. apply in_seq in Hin. lia.
Qed.

Lemma rnn_backward_app (cache extra : list (step_cache R)) :
  T <= length cache ->
  rnn_backward dh (cache ++ extra) = rnn_backward dh cache.
Proof.
  intros Hlen. unfold rnn_backward. rewrite (shape_at_dh Hdh). cbn [bind].
  rewrite rnn_backward_loop_app; [reflexivity|].
  eapply Forall_impl; [|apply range_down_lt]. cbn beta. intros t Ht. lia.
Qed.

(** With fewer than [T] entries the first iteration fails on [cache[T-1]]. *)
Lemma rnn_backward_short (cache : list (step_cache R)) :
  length cache < T -> rnn_backward dh cache = Err IndexError.
Proof.
  intros Hlen. assert (Htop : T - 1 < T) by lia.
  destruct (np_slice_mid_cube Hdh Htop) as (dht & Eslice & _ & _).
  assert (E0 : range_down T = (T - 1) :: range_down (T - 1))
    by (rewrite <- range_down_S; f_equal; lia).
  unfold rnn_backward. rewrite (shape_at_dh Hdh). cbn [bind]. rewrite E0.
  cbn [rnn_backward_loop]. rewrite (shape_at_dh Hdh). cbn [bind].
  replace (S (T - 1) =? T) with true by (symmetry; apply Nat.eqb_eq; lia).
  rewrite Eslice. cbn [bind]. unfold list_index.
  replace (nth_error cache (T - 1)) with (@None (step_cache R))
    by (symmetry; apply nth_error_None; lia).
  reflexivity.
Qed.

End CacheLength.

Section EmptySequence.

Context {R : Type} {SR : Scalar R} {AR : Activation R}.

(** With no timestep the loop of the forward pass leaves the list [h]
    empty, and [np.transpose(h, [1,0,2])] is refused. *)
Lemma rnn_forward_no_timestep (x h0 Wx Wh b : ndarray R) (n d : nat) :
  shape x = [n; 0; d] -> rnn_forward x h0 Wx Wh b = Err ValueError.
Proof.
  intros Hs. unfold rnn_forward, shape_at. rewrite Hs. reflexivity.
Qed.

(** With no timestep the loop of the backward pass binds none of [dh0],
    [dWx], [dWh], [db] and leaves [dx] empty; the transposition of [dx]
    is refused before the unbound names are read. *)
Lemma rnn_backward_no_timestep (dh : ndarray R) (cache : list (step_cache R))
    (n h : nat) :
  shape dh = [n; 0; h] ->
  rnn_backward_loop dh cache (range_down 0) [] None = Ok ([], None) /\
  rnn_backward dh cache = Err ValueError.
Proof.
  intros Hs. split; [reflexivity|].
  unfold rnn_backward, shape_at. rewrite Hs. reflexivity.
Qed.

End EmptySequence.

(* ------------------------------------------------------------------ *)
(** * Properties of the layers *)
(* ------------------------------------------------------------------ *)

(** ** StepCell *)

(** C3. For x of shape (N,D), prev_h of shape (N,H), Wx of shape (D,H),
    Wh of shape (H,H) and b of shape (H,), [rnn_step_forward] returns
    next_h of shape (N,H) with
    next_h[i,j] =
      tanh (sum_l x[i,l]*Wx[l,j] + sum_l prev_h[i,l]*Wh[l,j] + b[j]),
    that is tanh(x.Wx + prev_h.Wh + b) with b broadcast over the batch
    axis, and a cache that holds x, prev_h, next_h, Wh and Wx. *)
Theorem rnn_step_forward_spec {R : Type} {SR : Scalar R} {AR : Activation R}
    (x prev_h Wx Wh b : ndarray R) (n d h : nat) :
  has_shape x [n; d] -> has_shape prev_h [n; h] ->
  has_shape Wx [d; h] -> has_shape Wh [h; h] -> has_shape b [h] ->
  exists next_h,
    rnn_step_forward x prev_h Wx Wh b =
      Ok (next_h, {| c_x := x; c_prev_h := prev_h; c_next_h := next_h;
                     c_Wh := Wh; c_Wx := Wx |}) /\
    has_shape next_h [n; h] /\
    forall i j, i < n -> j < h ->
      get2 next_h h i j =
      tanh (add (add (sigma d (fun l => mul (get2 x d i l) (get2 Wx h l j)))
                     (sigma h (fun l =>
                        mul (get2 prev_h h i l) (get2 Wh h l j))))
                (get1 b j)).
Proof.
  intros Hx Hp HWx HWh Hb.
  exact (rnn_step_forward_entries Hx Hp HWx HWh Hb).
Qed.

Lemma rnn_step_forward_spec_witness :
  exists next_h,
    rnn_step_forward Demo.x_t Demo.h0 Demo.Wx Demo.Wh Demo.b =
      Ok (next_h, {| c_x := Demo.x_t; c_prev_h := Demo.h0;
                     c_next_h := next_h; c_Wh := Demo.Wh;
                     c_Wx := Demo.Wx |}) /\
    has_shape next_h [2; 2].
Proof.
  destruct (@rnn_step_forward_spec Z _ _
              Demo.x_t Demo.h0 Demo.Wx Demo.Wh Demo.b 2 1 2)
    as (next_h & E & S & _); try (split; reflexivity).
  exists next_h. split; assumption.
Defined.

(** C2. For d_next_h of shape (N,H) and the cache of the matching forward
    step, [rnn_step_backward] returns, with
    dz[i,j] = d_next_h[i,j] * (1 - next_h[i,j]^2):
    dWh = prev_h^T.dz, dWx = x^T.dz, dx = dz.Wx^T, dprev_h = dz.Wh^T and
    db = the sum of dz over the batch axis. *)
Theorem rnn_step_backward_spec {R : Type} {SR : Scalar R} {AR : Activation R}
    (x prev_h Wx Wh b next_h dnext_h : ndarray R) (cache : step_cache R)
    (n d h : nat) :
  has_shape x [n; d] -> has_shape prev_h [n; h] ->
  has_shape Wx [d; h] -> has_shape Wh [h; h] -> has_shape b [h] ->
  has_shape dnext_h [n; h] ->
  rnn_step_forward x prev_h Wx Wh b = Ok (next_h, cache) ->
  exists dx dprev_h dWx dWh db,
    rnn_step_backward dnext_h cache = Ok (dx, dprev_h, dWx, dWh, db) /\
    (has_shape dx [n; d] /\ has_shape dprev_h [n; h] /\
     has_shape dWx [d; h] /\ has_shape dWh [h; h] /\ has_shape db [h]) /\
    (forall k j, k < h -> j < h ->
       get2 dWh h k j =
       sigma n (fun i => mul (get2 prev_h h i k)
                             (local_grad dnext_h next_h h i j))) /\
    (forall l j, l < d -> j < h ->
       get2 dWx h l j =
       sigma n (fun i => mul (get2 x d i l)
                             (local_grad dnext_h next_h h i j))) /\
    (forall i l, i < n -> l < d ->
       get2 dx d i l =
       sigma h (fun j => mul (local_grad dnext_h next_h h i j)
                             (get2 Wx h l j))) /\
    (forall i k, i < n -> k < h ->
       get2 dprev_h h i k =
       sigma h (fun j => mul (local_grad dnext_h next_h h i j)
                             (get2 Wh h k j))) /\
    (forall j, j < h ->
       get1 db j = sigma n (fun i => local_grad dnext_h next_h h i j)).
Proof.
  intros Hx Hp HWx HWh Hb Hd Hfwd.
  destruct (rnn_step_forward_cache_shaped Hx Hp HWx HWh Hb Hfwd)
    as (Cs & _ & Ec).
  pose proof (rnn_step_backward_entries Hd Cs) as Hbwd.
  rewrite Ec in Hbwd. cbn [c_x c_prev_h c_next_h c_Wh c_Wx] in Hbwd.
  rewrite <- Ec in Hbwd. exact Hbwd.
Qed.

Lemma rnn_step_backward_spec_witness :
  exists next_h cache dx dprev_h dWx dWh db,
    rnn_step_forward Demo.x_t Demo.h0 Demo.Wx Demo.Wh Demo.b =
      Ok (next_h, cache) /\
    rnn_step_backward Demo.dnext_h cache = Ok (dx, dprev_h, dWx, dWh, db) /\
    has_shape dWx [1; 2] /\
    get2 dWx 2 0 1 =
    sigma 2 (fun i => mul (get2 Demo.x_t 1 i 0)
                          (local_grad Demo.dnext_h next_h 2 i 1)).
Proof.
  assert (Hx : has_shape Demo.x_t [2; 1]) by (split; reflexivity).
  assert (Hp : has_shape Demo.h0 [2; 2]) by (split; reflexivity).
  assert (HWx : has_shape Demo.Wx [1; 2]) by (split; reflexivity).
  assert (HWh : has_shape Demo.Wh [2; 2]) by (split; reflexivity).
  assert (Hb : has_shape Demo.b [2]) by (split; reflexivity).
  assert (Hd : has_shape Demo.dnext_h [2; 2]) by (split; reflexivity).
  destruct (rnn_step_forward_entries Hx Hp HWx HWh Hb) as (next_h & Efwd & _).
  destruct (rnn_step_backward_spec Hx Hp HWx HWh Hb Hd Efwd)
    as (dx & dprev_h & dWx & dWh & db & E & (_ & _ & SWx & _) & _ & GWx & _).
  exists next_h. eexists. exists dx, dprev_h, dWx, dWh, db.
  split; [exact Efwd|]. split; [exact E|]. split; [exact SWx|].
  apply GWx; lia.
Defined.

(** ** SequenceRunner *)

Lemma rnn_step_forward_next_h {R : Type} {SR : Scalar R} {AR : Activation R}
    (x prev_h Wx Wh b next_h : ndarray R) (c : step_cache R) :
  rnn_step_forward x prev_h Wx Wh b = Ok (next_h, c) -> c_next_h c = next_h.
Proof.
  unfold rnn_step_forward. intros Hfwd. invert_binds Hfwd.
  injection Hfwd as <- <-. reflexivity.
Qed.

Lemma nth_error_shaped {A : Type} (P : A -> Prop) (l : list A) (T : nat) :
  length l = T -> Forall P l ->
  forall t, t < T -> exists c, nth_error l t = Some c /\ P c.
Proof.
  intros Hlen Hall t Ht. destruct (nth_error l t) as [c|] eqn:E.
  - exists c. split; [reflexivity|].
    rewrite Forall_forall in Hall. apply Hall. eapply nth_error_In. eassumption.
  - apply nth_error_None in E. lia.
Qed.

(** C4. For x of shape (N,T,D) with T >= 1, h0 of shape (N,H) and weights
    Wx, Wh, b, [rnn_forward] runs the forward step at timesteps 0 .. T-1:
    the step of timestep t is applied to the slice x[:,t,:] and to the
    hidden state produced by the step of timestep t-1 (h0 at timestep 0).
    It returns h of shape (N,T,H) whose slice h[:,t,:] is the output of
    timestep t, and a cache list of length T whose entry t is the cache of
    the step of timestep t. *)
Theorem rnn_forward_spec {R : Type} {SR : Scalar R} {AR : Activation R}
    (x h0 Wx Wh b : ndarray R) (n T d h : nat) :
  1 <= T ->
  has_shape x [n; T; d] -> has_shape h0 [n; h] ->
  has_shape Wx [d; h] -> has_shape Wh [h; h] -> has_shape b [h] ->
  exists hs cache,
    rnn_forward x h0 Wx Wh b = Ok (hs, cache) /\
    has_shape hs [n; T; h] /\
    length cache = T /\
    forall t, t < T ->
      exists xt prev next_h c,
        np_slice_mid x t = Ok xt /\ has_shape xt [n; d] /\
        (forall i l, i < n -> l < d -> get2 xt d i l = get3 x T d i t l) /\
        match t with
        | 0 => prev = h0
        | S t' => exists c', nth_error cache t' = Some c' /\ prev = c_next_h c'
        end /\
        rnn_step_forward xt prev Wx Wh b = Ok (next_h, c) /\
        nth_error cache t = Some c /\
        forall i j, i < n -> j < h -> get3 hs T h i t j = get2 next_h h i j.
Proof.
  intros HT Hx Hh0 HWx HWh Hb.
  destruct (rnn_forward_run Hx Hh0 HWx HWh Hb HT)
    as (hs & cache & E & Shs & Lc & _ & Hsteps).
  exists hs, cache. split; [exact E|]. split; [exact Shs|]. split; [exact Lc|].
  intros t Ht.
  destruct (Hsteps t Ht) as (next_h & c & Est & Ec & _ & Ghs).
  destruct (np_slice_mid_cube Hx Ht) as (xt & Ext & Sxt & Gxt).
  unfold step_at in Est. rewrite Ext in Est.
  destruct (hidden_before x h0 Wx Wh b t) as [prev|] eqn:Eprev;
    cbn [bind] in Est; [|discriminate Est].
  exists xt, prev, next_h, c.
  split; [exact Ext|]. split; [exact Sxt|]. split; [exact Gxt|].
  split; [|split; [exact Est|split; [exact Ec|exact Ghs]]].
  destruct t as [|t'].
  - cbn [hidden_before] in Eprev. injection Eprev as <-. reflexivity.
  - destruct (Hsteps t' ltac:(lia)) as (nh' & c' & Est' & Ec' & _).
    exists c'. split; [exact Ec'|].
    unfold step_at in Est'. cbn [hidden_before] in Eprev.
    destruct (hidden_before x h0 Wx Wh b t') as [p'|];
      cbn [bind] in Est', Eprev; [|discriminate Est'].
    destruct (np_slice_mid x t') as [xt'|];
      cbn [bind] in Est', Eprev; [|discriminate Est'].
    rewrite Est' in Eprev. cbn [bind] in Eprev. injection Eprev as <-.
    symmetry. eapply rnn_step_forward_next_h. exact Est'.
Qed.

Lemma rnn_forward_spec_witness :
  exists hs cache,
    rnn_forward Demo.x Demo.h0 Demo.Wx Demo.Wh Demo.b = Ok (hs, cache) /\
    has_shape hs [2; 2; 2] /\ length cache = 2.
Proof.
  assert (Hx : has_shape Demo.x [2; 2; 1]) by (split; reflexivity).
  assert (Hp : has_shape Demo.h0 [2; 2]) by (split; reflexivity).
  assert (HWx : has_shape Demo.Wx [1; 2]) by (split; reflexivity).
  assert (HWh : has_shape Demo.Wh [2; 2]) by (split; reflexivity).
  assert (Hb : has_shape Demo.b [2]) by (split; reflexivity).
  assert (HT : 1 <= 2) by lia.
  destruct (rnn_forward_spec HT Hx Hp HWx HWh Hb)
    as (hs & cache & E & S & L & _).
  exists hs, cache. split; [exact E|]. split; [exact S|exact L].
Defined.

(** C1. For dh of shape (N,T,H) with T >= 1 and the cache of the matching
    forward pass, [rnn_backward] runs the backward step of every timestep
    from T-1 down to 0.  The step of the last timestep receives
    dh[:,T-1,:]; the step of an earlier timestep t receives dh[:,t,:] plus
    the dprev_h returned by the step of timestep t+1.  dx is the array of
    shape (N,T,D) whose slice at t is the dx of the step of timestep t; dh0
    is the dprev_h of the step of timestep 0; dWx, dWh and db are the sums
    over the T timesteps of the dWx, dWh and db of the steps (added in the
    order the loop runs them, timestep T-1 first). *)
Theorem rnn_backward_spec {R : Type} {SR : Scalar R} {AR : Activation R}
    (x h0 Wx Wh b hs dh : ndarray R) (cache : list (step_cache R))
    (n T d h : nat) :
  1 <= T ->
  has_shape x [n; T; d] -> has_shape h0 [n; h] ->
  has_shape Wx [d; h] -> has_shape Wh [h; h] -> has_shape b [h] ->
  rnn_forward x h0 Wx Wh b = Ok (hs, cache) ->
  has_shape dh [n; T; h] ->
  exists dx dh0 dWx dWh db,
    rnn_backward dh cache = Ok (dx, dh0, dWx, dWh, db) /\
    (has_shape dx [n; T; d] /\ has_shape dh0 [n; h] /\
     has_shape dWx [d; h] /\ has_shape dWh [h; h] /\ has_shape db [h]) /\
    (forall t, t < T ->
       exists g c r,
         nth_error cache t = Some c /\ has_shape g [n; h] /\
         (forall i j, i < n -> j < h ->
            get2 g h i j =
            if S t =? T then get3 dh T h i t j
            else add (get3 dh T h i t j)
                     (get2 (grad_dprev_h (step_grad dh cache T (S t)))
                           h i j)) /\
         rnn_step_backward g c = Ok r /\
         step_grad dh cache T t = Ok r) /\
    (forall t i l, t < T -> i < n -> l < d ->
       get3 dx T d i t l = get2 (grad_dx (step_grad dh cache T t)) d i l) /\
    dh0 = grad_dprev_h (step_grad dh cache T 0) /\
    (forall l j, l < d -> j < h ->
       get2 dWx h l j =
       acc_sum (fun m =>
         get2 (grad_dWx (step_grad dh cache T (T - 1 - m))) h l j) (T - 1)) /\
    (forall i j, i < h -> j < h ->
       get2 dWh h i j =
       acc_sum (fun m =>
         get2 (grad_dWh (step_grad dh cache T (T - 1 - m))) h i j) (T - 1)) /\
    (forall j, j < h ->
       get1 db j =
       acc_sum (fun m =>
         get1 (grad_db (step_grad dh cache T (T - 1 - m))) j) (T - 1)).
Proof.
  intros HT Hx Hh0 HWx HWh Hb Hfwd Hdh.
  destruct (rnn_forward_run Hx Hh0 HWx HWh Hb HT)
    as (hs' & cache' & E & _ & Lc & Fc & _).
  rewrite E in Hfwd. injection Hfwd as -> ->.
  pose proof (nth_error_shaped Lc Fc) as Hcache. cbv beta in Hcache.
  destruct (@rnn_backward_run R SR dh cache n T d h Hdh Hcache HT)
    as (dx & dh0 & dWx & dWh & db & Eb & Sb & Hok & Gdx & Gdh0 & GWx & GWh
        & Gb).
  exists dx, dh0, dWx, dWh, db.
  split; [exact Eb|]. split; [exact Sb|].
  split; [|split; [exact Gdx|split; [exact Gdh0|split;
                   [exact GWx|split; [exact GWh|exact Gb]]]]].
  intros t Ht.
  destruct (@step_grad_recurrence R SR dh cache n T d h Hdh Hcache t Ht)
    as (g & c & Ec & Sg & Estep & Gg).
  destruct (Hok t Ht) as (r & Er & _).
  exists g, c, r. split; [exact Ec|]. split; [exact Sg|]. split; [exact Gg|].
  split; [rewrite <- Estep; exact Er|exact Er].
Qed.

Lemma rnn_backward_spec_witness :
  exists hs cache dx dh0 dWx dWh db,
    rnn_forward Demo.x Demo.h0 Demo.Wx Demo.Wh Demo.b = Ok (hs, cache) /\
    rnn_backward Demo.dh cache = Ok (dx, dh0, dWx, dWh, db) /\
    has_shape dx [2; 2; 1] /\
    dh0 = grad_dprev_h (step_grad Demo.dh cache 2 0).
Proof.
  assert (Hx : has_shape Demo.x [2; 2; 1]) by (split; reflexivity).
  assert (Hp : has_shape Demo.h0 [2; 2]) by (split; reflexivity).
  assert (HWx : has_shape Demo.Wx [1; 2]) by (split; reflexivity).
  assert (HWh : has_shape Demo.Wh [2; 2]) by (split; reflexivity).
  assert (Hb : has_shape Demo.b [2]) by (split; reflexivity).
  assert (Hd : has_shape Demo.dh [2; 2; 2]) by (split; reflexivity).
  assert (HT : 1 <= 2) by lia.
  destruct (rnn_forward_run Hx Hp HWx HWh Hb HT) as (hs & cache & E & _).
  destruct (rnn_backward_spec HT Hx Hp HWx HWh Hb E Hd)
    as (dx & dh0 & dWx & dWh & db & Eb & (Sdx & _) & _ & _ & Gdh0 & _).
  exists hs, cache, dx, dh0, dWx, dWh, db.
  split; [exact E|]. split; [exact Eb|]. split; [exact Sdx|exact Gdh0].
Defined.

(** C10. The sequence runner needs at least one timestep.  On an input
    with T = 0 timesteps [rnn_forward] fails (the list of hidden states is
    empty and cannot be transposed into an (N,0,H) array); on a gradient
    with T = 0 the loop of [rnn_backward] binds none of dh0, dWx, dWh, db
    and the function fails instead of returning zero gradients.  With
    T >= 1 and well-shaped arguments both functions return. *)
Theorem sequence_runner_needs_a_timestep
    {R : Type} {SR : Scalar R} {AR : Activation R} :
  (forall (x h0 Wx Wh b : ndarray R) (n d : nat),
     shape x = [n; 0; d] -> rnn_forward x h0 Wx Wh b = Err ValueError) /\
  (forall (dh : ndarray R) (cache : list (step_cache R)) (n h : nat),
     shape dh = [n; 0; h] ->
     rnn_backward_loop dh cache (range_down 0) [] None = Ok ([], None) /\
     rnn_backward dh cache = Err ValueError) /\
  (forall (x h0 Wx Wh b : ndarray R) (n T d h : nat),
     1 <= T ->
     has_shape x [n; T; d] -> has_shape h0 [n; h] ->
     has_shape Wx [d; h] -> has_shape Wh [h; h] -> has_shape b [h] ->
     returns (rnn_forward x h0 Wx Wh b) = true) /\
  (forall (dh : ndarray R) (cache : list (step_cache R)) (n T d h : nat),
     1 <= T ->
     has_shape dh [n; T; h] ->
     (forall t, t < T ->
        exists c, nth_error cache t = Some c /\ cache_shaped c n d h) ->
     returns (rnn_backward dh cache) = true).
Proof.
  split; [|split; [|split]].
  - intros x h0 Wx Wh b n d Hs.
    exact (@rnn_forward_no_timestep R SR AR x h0 Wx Wh b n d Hs).
  - intros dh cache n h Hs.
    exact (@rnn_backward_no_timestep R SR dh cache n h Hs).
  - intros x h0 Wx Wh b n T d h HT Hx Hh0 HWx HWh Hb.
    destruct (rnn_forward_run Hx Hh0 HWx HWh Hb HT) as (hs & cache & E & _).
    rewrite E. reflexivity.
  - intros dh cache n T d h HT Hdh Hcache.
    destruct (@rnn_backward_run R SR dh cache n T d h Hdh Hcache HT)
      as (dx & dh0 & dWx & dWh & db & E & _).
    rewrite E. reflexivity.
Qed.

Lemma sequence_runner_needs_a_timestep_witness :
  rnn_forward Demo.x_empty Demo.h0 Demo.Wx Demo.Wh Demo.b = Err ValueError /\
  rnn_backward Demo.dh_empty Demo.cache1 = Err ValueError /\
  returns (rnn_forward Demo.x Demo.h0 Demo.Wx Demo.Wh Demo.b) = true /\
  returns (rnn_backward Demo.dh1 Demo.cache1) = true.
Proof.
  destruct (@sequence_runner_needs_a_timestep Z _ _) as (F0 & B0 & F1 & B1).
  split; [|split; [|split]].
  - apply (F0 _ _ _ _ _ 2 1). reflexivity.
  - apply (B0 _ _ 2 2). reflexivity.
  - apply (F1 _ _ _ _ _ 2 2 1 2); try (split; reflexivity). lia.
  - apply (B1 _ _ 1 1 1 1); try (split; reflexivity); [lia|].
    intros t Ht. assert (t = 0) by lia. subst t.
    exists Demo.c1. split; [reflexivity|].
    repeat split; reflexivity.
Defined.

(** C8 (amended).  [rnn_backward] does not compare the length of the cache
    list with the number T of timesteps of dh.  With fewer than T entries
    it fails with IndexError, raised by [cache[T-1]] in the first
    iteration.  With more than T entries it does not fail: the entries at
    index T and beyond are never read, and the result is the one obtained
    from the first T entries. *)
Theorem rnn_backward_cache_length {R : Type} {SR : Scalar R}
    (dh : ndarray R) (n T h : nat) :
  has_shape dh [n; T; h] ->
  (forall cache : list (step_cache R),
     length cache < T -> rnn_backward dh cache = Err IndexError) /\
  (forall cache extra : list (step_cache R),
     length cache = T ->
     rnn_backward dh (cache ++ extra) = rnn_backward dh cache).
Proof.
  intros Hdh. split.
  - intros cache Hlen. exact (rnn_backward_short Hdh cache Hlen).
  - intros cache extra Hlen. apply (rnn_backward_app Hdh). lia.
Qed.

Lemma rnn_backward_cache_length_witness :
  rnn_backward Demo.dh1 [] = Err IndexError /\
  rnn_backward Demo.dh1 (Demo.cache1 ++ [Demo.c1]) =
  rnn_backward Demo.dh1 Demo.cache1.
Proof.
  assert (Hd : has_shape Demo.dh1 [1; 1; 1]) by (split; reflexivity).
  destruct (rnn_backward_cache_length Hd) as (Hshort & Hlong).
  split.
  - apply Hshort. simpl. lia.
  - apply Hlong. reflexivity.
Defined.

(** C8, as stated, fails: a gradient with T = 1 timestep and a cache list
    of two entries (the cache the forward pass returns, with one more
    entry) make [rnn_backward] return its five gradients. *)
Lemma rnn_backward_longer_cache_returns :
  has_shape Demo.dh1 [1; 1; 1] /\
  rnn_forward Demo.x1 Demo.h1 Demo.W1 Demo.W1 Demo.b1 =
    Ok (Demo.arr [1; 1; 1] [0%Z], Demo.cache1) /\
  length Demo.cache1_longer = 2 /\
  rnn_backward Demo.dh1 Demo.cache1_longer =
    Ok (Demo.arr [1; 1; 1] [1%Z], Demo.arr [1; 1] [1%Z],
        Demo.arr [1; 1] [0%Z], Demo.arr [1; 1] [0%Z], Demo.arr [1] [1%Z]).
Proof.
  split; [split; reflexivity|].
  split; [vm_compute; reflexivity|].
  split; [reflexivity|].
  vm_compute. reflexivity.
Qed.

(** ** MaskedAverager *)

Lemma stacked_shape_pos (n : nat) (s : list nat) :
  1 <= n -> stacked_shape n s = n :: s.
Proof. intros Hn. destruct n; [lia|reflexivity]. Qed.

(** C5 (amended).  [average_forward] makes no check on the counts and
    never fails on well-shaped arguments: when count[i] is 0 for a sample
    it still returns, and (mask[i] . h[i]) / count[i] is whatever the
    division of the element type gives for a zero divisor (nan or an
    infinity in binary64). *)
Theorem average_forward_zero_count {R : Type} {SR : Scalar R}
    (hi mask : ndarray R) (n T h : nat) :
  has_shape hi [n; T; h] -> has_shape mask [n; T] ->
  exists ho cache,
    average_forward hi mask = Ok (ho, cache) /\
    forall i k, i < n -> k < h ->
      mask_count mask T i = zero ->
      get2 ho h i k =
      div (sigma T (fun t => mul (get2 mask T i t) (get3 hi T h i t k))) zero.
Proof.
  intros Hhi Hmask.
  destruct (average_forward_run Hhi Hmask) as (ho & count & E & _ & _ & _ & G).
  exists ho. eexists. split; [exact E|].
  intros i k Hi Hk Hzero. rewrite G by assumption.
  unfold avg_entry. rewrite Hzero. reflexivity.
Qed.

Lemma average_forward_zero_count_witness :
  exists ho cache,
    average_forward Demo.hi_pad Demo.mask_pad = Ok (ho, cache) /\
    get2 ho 1 0 0 =
    div (sigma 1 (fun t => mul (get2 Demo.mask_pad 1 0 t)
                               (get3 Demo.hi_pad 1 1 0 t 0))) zero.
Proof.
  assert (Hhi : has_shape Demo.hi_pad [1; 1; 1]) by (split; reflexivity).
  assert (Hmask : has_shape Demo.mask_pad [1; 1]) by (split; reflexivity).
  destruct (average_forward_zero_count Hhi Hmask) as (ho & cache & E & G).
  exists ho, cache. split; [exact E|].
  apply G; [lia|lia|]. vm_compute. reflexivity.
Defined.

(** C5, as stated, fails: on one sequence whose only timestep is padding
    (count 0), in binary64, [average_forward] returns an average made of
    nan; nothing is raised. *)
Lemma average_forward_zero_count_returns :
  has_shape Demo.hi_pad [1; 1; 1] /\ has_shape Demo.mask_pad [1; 1] /\
  mask_count Demo.mask_pad 1 0 = 0%float /\
  average_forward Demo.hi_pad Demo.mask_pad =
    Ok (Demo.farr [1; 1] [nan],
        {| ac_mask := Demo.mask_pad; ac_count := Demo.farr [1] [0%float] |}).
Proof.
  split; [split; reflexivity|]. split; [split; reflexivity|].
  split; vm_compute; reflexivity.
Qed.

(** X13. For h of shape (N,T,H) with N >= 1 and a mask of shape (N,T)
    whose row sums count[i] are all nonzero, [average_forward] returns avg
    of shape (N,H) with avg[i] = (mask[i] . h[i]) / count[i].  When the
    mask is all ones (and 1 * v = v) avg[i] is the unweighted mean of h[i]
    over the T timesteps: the sum of the h[i,t] divided by the sum of T
    ones. *)
Theorem average_forward_spec {R : Type} {SR : Scalar R}
    (hi mask : ndarray R) (n T h : nat) :
  1 <= n ->
  has_shape hi [n; T; h] -> has_shape mask [n; T] ->
  (forall i, i < n -> mask_count mask T i <> zero) ->
  exists ho cache,
    average_forward hi mask = Ok (ho, cache) /\
    has_shape ho [n; h] /\
    (forall i k, i < n -> k < h ->
       get2 ho h i k =
       div (sigma T (fun t => mul (get2 mask T i t) (get3 hi T h i t k)))
           (mask_count mask T i)) /\
    ((forall v, mul one v = v) ->
     (forall i t, i < n -> t < T -> get2 mask T i t = one) ->
     forall i k, i < n -> k < h ->
       get2 ho h i k =
       div (sigma T (fun t => get3 hi T h i t k)) (sigma T (fun _ => one))).
Proof.
  intros Hn Hhi Hmask Hcount.
  destruct (average_forward_run Hhi Hmask) as (ho & count & E & _ & _ & S & G).
  rewrite (stacked_shape_pos _ Hn) in S.
  exists ho. eexists. split; [exact E|]. split; [exact S|]. split.
  - intros i k Hi Hk. apply G; assumption.
  - intros Hone Hall i k Hi Hk. rewrite G by assumption.
    unfold avg_entry, mask_count. f_equal.
    + apply sigma_ext. intros t Ht. rewrite Hall by assumption. apply Hone.
    + apply sigma_ext. intros t Ht. apply Hall; assumption.
Qed.

Lemma average_forward_spec_witness :
  exists ho cache,
    average_forward Demo.fhi Demo.fmask = Ok (ho, cache) /\
    has_shape ho [1; 1] /\
    get2 ho 1 0 0 =
    div (sigma 2 (fun t =>
           mul (get2 Demo.fmask 2 0 t) (get3 Demo.fhi 2 1 0 t 0)))
        (mask_count Demo.fmask 2 0).
Proof.
  assert (Hhi : has_shape Demo.fhi [1; 2; 1]) by (split; reflexivity).
  assert (Hmask : has_shape Demo.fmask [1; 2]) by (split; reflexivity).
  assert (Hn : 1 <= 1) by lia.
  assert (Hcount : forall i, i < 1 -> mask_count Demo.fmask 2 i <> zero).
  { intros i Hi E. assert (i = 0) by lia. subst i.
    apply (f_equal (fun v => PrimFloat.eqb v 1)) in E.
    vm_compute in E. discriminate E. }
  destruct (average_forward_spec Hn Hhi Hmask Hcount)
    as (ho & cache & E & S & G & _).
  exists ho, cache. split; [exact E|]. split; [exact S|]. apply G; lia.
Defined.

(** C6.  The claim fails on the empty batch (for a batch that is not empty
    it holds, see above): for h of shape (0,2,3) and a mask of shape
    (0,2) (no sample, hence no zero count) the list of rows is empty and
    [np.array] turns it into the 1-D array of shape (0,), where the claim
    and the docstring of the function say shape (N,H) = (0,3). *)
Lemma average_forward_empty_batch :
  has_shape Demo.hi_none [0; 2; 3] /\ has_shape Demo.mask_none [0; 2] /\
  average_forward Demo.hi_none Demo.mask_none =
    Ok (Demo.farr [0] [],
        {| ac_mask := Demo.mask_none; ac_count := Demo.farr [0] [] |}) /\
  shape (Demo.farr [0] []) <> [0; 3].
Proof.
  split; [split; reflexivity|]. split; [split; reflexivity|].
  split; [vm_compute; reflexivity|]. discriminate.
Qed.

Lemma average_forward_cache {R : Type} {SR : Scalar R}
    (hi mask ho : ndarray R) (cache : avg_cache R) (n T h : nat) :
  has_shape hi [n; T; h] -> has_shape mask [n; T] ->
  average_forward hi mask = Ok (ho, cache) ->
  ac_mask cache = mask /\ has_shape (ac_count cache) [n] /\
  forall i, i < n -> get1 (ac_count cache) i = mask_count mask T i.
Proof.
  intros Hhi Hmask Hfwd.
  destruct (average_forward_run Hhi Hmask) as (ho' & count & E & Sc & Gc & _).
  rewrite E in Hfwd. injection Hfwd as _ <-. cbn [ac_mask ac_count].
  split; [reflexivity|]. split; assumption.
Qed.

Lemma mask_count_no_timestep {R : Type} {SR : Scalar R}
    (mask : ndarray R) (i : nat) : mask_count mask 0 i = zero.
Proof. reflexivity. Qed.

(** C7 (amended).  For davg of shape (N,H) with N >= 1 and the cache of
    the matching forward pass, all counts being nonzero,
    [average_backward] returns dh of shape (N,T,H), the shape of h, with
    dh[i,t] = davg[i] * mask[i,t] / count[i].  At a padded position
    (mask[i,t] a zero) the component dh[i,t,k] is a zero (+0 or -0 in
    binary64) when davg[i,k] is finite and count[i] is neither a zero nor
    nan.  The two laws this last part rests on hold in binary64:
    [float_mul_zero_r] and [float_div_zero]. *)
Theorem average_backward_spec {R : Type} {SR : Scalar R} {KR : Kinds R}
    (davg hi mask ho : ndarray R) (cache : avg_cache R) (n T h : nat) :
  1 <= n ->
  has_shape davg [n; h] ->
  has_shape hi [n; T; h] -> has_shape mask [n; T] ->
  (forall i, i < n -> mask_count mask T i <> zero) ->
  average_forward hi mask = Ok (ho, cache) ->
  exists dh,
    average_backward davg cache = Ok dh /\
    has_shape dh [n; T; h] /\
    (forall i t k, i < n -> t < T -> k < h ->
       get3 dh T h i t k =
       div (mul (get2 davg h i k) (get2 mask T i t)) (mask_count mask T i)) /\
    ((forall v z, isfinite v -> iszero z -> iszero (mul v z)) ->
     (forall z c, iszero z -> ~ iszero c -> ~ isnan c -> iszero (div z c)) ->
     forall i t k, i < n -> t < T -> k < h ->
       iszero (get2 mask T i t) ->
       isfinite (get2 davg h i k) ->
       ~ iszero (mask_count mask T i) -> ~ isnan (mask_count mask T i) ->
       iszero (get3 dh T h i t k)).
Proof.
  intros Hn Hdavg Hhi Hmask Hcount Hfwd.
  destruct (average_forward_cache Hhi Hmask Hfwd) as (Em & Sc & Gc).
  assert (HT : 1 <= T).
  { destruct T as [|T']; [|lia]. exfalso.
    apply (Hcount 0 ltac:(lia)). apply mask_count_no_timestep. }
  assert (Hmask' : has_shape (ac_mask cache) [n; T])
    by (rewrite Em; assumption).
  destruct (@average_backward_run R SR davg cache n T h Hdavg Hmask' Sc)
    as (dh & E & S & G).
  rewrite (stacked_shape_pos _ HT), (stacked_shape_pos _ Hn) in S.
  assert (G' : forall i t k, i < n -> t < T -> k < h ->
            get3 dh T h i t k =
            div (mul (get2 davg h i k) (get2 mask T i t))
                (mask_count mask T i)).
  { intros i t k Hi Ht Hk. rewrite G by assumption.
    unfold davg_entry. rewrite Em, Gc by assumption. reflexivity. }
  exists dh. split; [exact E|]. split; [exact S|]. split; [exact G'|].
  intros Hmul Hdiv i t k Hi Ht Hk Hpad Hfin Hcz Hcn.
  rewrite G' by assumption.
  apply Hdiv; [apply Hmul; assumption|assumption|assumption].
Qed.

Lemma average_backward_spec_witness :
  exists ho cache dh,
    average_forward Demo.fhi Demo.fmask = Ok (ho, cache) /\
    average_backward Demo.fdavg cache = Ok dh /\
    has_shape dh [1; 2; 1] /\
    iszero (get3 dh 2 1 0 1 0).
Proof.
  assert (Hdavg : has_shape Demo.fdavg [1; 1]) by (split; reflexivity).
  assert (Hhi : has_shape Demo.fhi [1; 2; 1]) by (split; reflexivity).
  assert (Hmask : has_shape Demo.fmask [1; 2]) by (split; reflexivity).
  assert (Hn : 1 <= 1) by lia.
  assert (Hcount : forall i, i < 1 -> mask_count Demo.fmask 2 i <> zero).
  { intros i Hi E. assert (i = 0) by lia. subst i.
    apply (f_equal (fun v => PrimFloat.eqb v 1)) in E.
    vm_compute in E. discriminate E. }
  destruct (average_forward_run Hhi Hmask) as (ho & count & E & _).
  destruct (average_backward_spec Hn Hdavg Hhi Hmask Hcount E)
    as (dh & Eb & S & _ & Gpad).
  exists ho. eexists. exists dh.
  split; [exact E|]. split; [exact Eb|]. split; [exact S|].
  apply Gpad; try lia.
  - exact float_mul_zero_r.
  - exact float_div_zero.
  - vm_compute. exact I.
  - vm_compute. exact I.
  - vm_compute. tauto.
  - vm_compute. tauto.
Defined.

(** C7, as stated, fails in binary64 when the gradient holds an infinity:
    for one sequence whose second timestep is padding (mask [[1, 0]],
    count 1) and davg = [[inf]], the gradient at the padded position is
    inf * 0 / 1, which is nan and not zero. *)
Lemma average_backward_padded_nan :
  has_shape Demo.fdavg_inf [1; 1] /\ has_shape Demo.fhi [1; 2; 1] /\
  has_shape Demo.fmask [1; 2] /\
  mask_count Demo.fmask 2 0 = 1%float /\
  get2 Demo.fmask 2 0 1 = 0%float /\
  average_forward Demo.fhi Demo.fmask =
    Ok (Demo.farr [1; 1] [3%float],
        {| ac_mask := Demo.fmask; ac_count := Demo.farr [1] [1%float] |}) /\
  average_backward Demo.fdavg_inf
    {| ac_mask := Demo.fmask; ac_count := Demo.farr [1] [1%float] |} =
    Ok (Demo.farr [1; 2; 1] [infinity; nan]) /\
  ~ iszero (get3 (Demo.farr [1; 2; 1] [infinity; nan]) 2 1 0 1 0).
Proof.
  split; [split; reflexivity|]. split; [split; reflexivity|].
  split; [split; reflexivity|].
  split; [vm_compute; reflexivity|]. split; [vm_compute; reflexivity|].
  split; [vm_compute; reflexivity|]. split; [vm_compute; reflexivity|].
  vm_compute. tauto.
Qed.

(** On the empty batch [average_backward] stacks an empty list, as
    [average_forward] does: for davg of shape (0,3) and the cache of the
    forward pass on h of shape (0,2,3) the result is the 1-D array of
    shape (0,), not an array of shape (0,2,3). *)
Lemma average_backward_empty_batch :
  has_shape Demo.davg_none [0; 3] /\
  average_forward Demo.hi_none Demo.mask_none =
    Ok (Demo.farr [0] [],
        {| ac_mask := Demo.mask_none; ac_count := Demo.farr [0] [] |}) /\
  average_backward Demo.davg_none
    {| ac_mask := Demo.mask_none; ac_count := Demo.farr [0] [] |} =
    Ok (Demo.farr [0] []) /\
  shape (Demo.farr [0] []) <> [0; 2; 3].
Proof.
  split; [split; reflexivity|]. split; [vm_compute; reflexivity|].
  split; [vm_compute; reflexivity|]. discriminate.
Qed.

(** ** TemporalAffine *)

(** C9.  For dout of shape (N,T,M) and the cache of the matching forward
    pass on x of shape (N,T,D), w of shape (D,M) and b of shape (M,),
    [temporal_affine_backward] returns dx with dx[i,t] = dout[i,t] . w^T,
    dw = the sum over all pairs (i,t) of x[i,t]^T . dout[i,t] and
    db = the sum over all pairs (i,t) of dout[i,t]; the pairs are summed
    in row-major order, and the product of two elements commutes. *)
Theorem temporal_affine_backward_spec {R : Type} {SR : Scalar R}
    (x w b out dout : ndarray R) (cache : @affine_cache R) (n T d m : nat) :
  (forall u v : R, mul u v = mul v u) ->
  has_shape x [n; T; d] -> has_shape w [d; m] -> has_shape b [m] ->
  has_shape dout [n; T; m] ->
  temporal_affine_forward x w b = Ok (out, cache) ->
  exists dx dw db,
    temporal_affine_backward dout cache = Ok (dx, dw, db) /\
    (has_shape dx [n; T; d] /\ has_shape dw [d; m] /\ has_shape db [m]) /\
    (forall i t l, i < n -> t < T -> l < d ->
       get3 dx T d i t l =
       sigma m (fun j => mul (get3 dout T m i t j) (get2 w m l j))) /\
    (forall l j, l < d -> j < m ->
       get2 dw m l j =
       sigma (n * T) (fun p =>
         mul (get3 x T d (p / T) (p mod T) l)
             (get3 dout T m (p / T) (p mod T) j))) /\
    (forall j, j < m ->
       get1 db j =
       sigma (n * T) (fun p => get3 dout T m (p / T) (p mod T) j)).
Proof.
  intros Hcomm Hx Hw Hb Hdout Hfwd.
  rewrite (@temporal_affine_forward_cache R SR x w b out cache Hfwd).
  destruct (@temporal_affine_backward_run R SR dout x w b out n T d m
              Hdout Hx Hw Hb)
    as (dx & dw & db & E & S & Gdx & Gdw & Gdb).
  exists dx, dw, db. split; [exact E|]. split; [exact S|].
  split; [exact Gdx|]. split; [|exact Gdb].
  intros l j Hl Hj. rewrite Gdw by assumption.
  apply sigma_ext. intros p Hp. apply Hcomm.
Qed.

Lemma temporal_affine_backward_spec_witness :
  exists out cache dx dw db,
    temporal_affine_forward Demo.ax Demo.aw Demo.ab = Ok (out, cache) /\
    temporal_affine_backward Demo.adout cache = Ok (dx, dw, db) /\
    has_shape dw [2; 3] /\
    get2 dw 3 1 2 =
    sigma 2 (fun p => mul (get3 Demo.ax 2 2 (p / 2) (p mod 2) 1)
                          (get3 Demo.adout 2 3 (p / 2) (p mod 2) 2)).
Proof.
  assert (Hx : has_shape Demo.ax [1; 2; 2]) by (split; reflexivity).
  assert (Hw : has_shape Demo.aw [2; 3]) by (split; reflexivity).
  assert (Hb : has_shape Demo.ab [3]) by (split; reflexivity).
  assert (Hd : has_shape Demo.adout [1; 2; 3]) by (split; reflexivity).
  destruct (@temporal_affine_forward_run Z Z_scalar _ _ _ _ _ _ _ Hx Hw Hb)
    as (out & Hfwd & _).
  destruct (@temporal_affine_backward_spec Z Z_scalar _ _ _ _ _ _ _ _ _ _
              Z.mul_comm Hx Hw Hb Hd Hfwd)
    as (dx & dw & db & E & (_ & Sdw & _) & _ & Gdw & _).
  exists out. eexists. exists dx, dw, db.
  split; [exact Hfwd|]. split; [exact E|]. split; [exact Sdw|].
  apply (Gdw 1 2); lia.
Defined.

(* ------------------------------------------------------------------ *)
(** * Further properties of the layers *)
(* ------------------------------------------------------------------ *)

(** ** More facts about the numpy operations *)

Section MoreNumpyFacts.

Context {R : Type} {SR : Scalar R}.

Lemma sigma_succ (n : nat) (f : nat -> R) :
  sigma (S n) f = add (sigma n f) (f n).
Proof.
  unfold sigma. rewrite seq_S, fold_left_app. reflexivity.
Qed.

(** A sum whose terms are all zeros is a zero. *)
Lemma sigma_iszero {KR : Kinds R} (n : nat) (f : nat -> R) :
  iszero zero ->
  (forall a b, iszero a -> iszero b -> iszero (add a b)) ->
  (forall l, l < n -> iszero (f l)) -> iszero (sigma n f).
Proof.
  intros Hz Hadd. induction n as [|n IH]; intros Hf.
  - exact Hz.
  - rewrite sigma_succ. apply Hadd; [apply IH|apply Hf; lia].
    intros l Hl. apply Hf. lia.
Qed.

(** Two sums whose terms are related by a relation that the sum
    preserves. *)
Lemma sigma_rel (P : R -> R -> Prop) (n : nat) (f g : nat -> R) :
  P zero zero ->
  (forall a a' b b', P a a' -> P b b' -> P (add a b) (add a' b')) ->
  (forall l, l < n -> P (f l) (g l)) -> P (sigma n f) (sigma n g).
Proof.
  intros Hz Hadd. induction n as [|n IH]; intros Hfg.
  - exact Hz.
  - rewrite !sigma_succ. apply Hadd; [apply IH|apply Hfg; lia].
    intros l Hl. apply Hfg. lia.
Qed.

(** A sum whose terms past the first [L] are [zero] is the sum of its
    first [L] terms, when adding [zero] to that sum does not change it. *)
Lemma sigma_padded (T L : nat) (f : nat -> R) :
  L <= T ->
  (forall t, L <= t -> t < T -> f t = zero) ->
  add (sigma L f) zero = sigma L f ->
  sigma T f = sigma L f.
Proof.
  intros HL Htail Hadd. induction T as [|T IH].
  - assert (L = 0) by lia. subst L. reflexivity.
  - destruct (Nat.eq_dec L (S T)) as [->|Hne]; [reflexivity|].
    rewrite sigma_succ, IH.
    + rewrite Htail by lia. exact Hadd.
    + lia.
    + intros t Ht1 Ht2. apply Htail; lia.
Qed.

(** A sum whose terms past the first [L] are zeros has the value of the
    sum of its first [L] terms. *)
Lemma sigma_absorbed {KR : Kinds R} (T L : nat) (f : nat -> R) :
  (forall a z, iszero z -> same_value (add a z) a) ->
  L <= T ->
  (forall t, L <= t -> t < T -> iszero (f t)) ->
  same_value (sigma T f) (sigma L f).
Proof.
  intros Habs HL Htail. induction T as [|T IH].
  - assert (L = 0) by lia. subst L. apply same_value_refl.
  - destruct (Nat.eq_dec L (S T)) as [->|Hne]; [apply same_value_refl|].
    rewrite sigma_succ. apply same_value_trans with (sigma T f).
    + apply Habs. apply Htail; lia.
    + apply IH; [lia|]. intros t Ht1 Ht2. apply Htail; lia.
Qed.

(** A matrix and a matrix of one row: [(n,m) op (1,m)]. *)
Lemma np_binop_one_row (op : R -> R -> R) (a b : ndarray R) (n m : nat) :
  has_shape a [n; m] -> has_shape b [1; m] ->
  exists r, np_binop op a b = Ok r /\ has_shape r [n; m] /\
    forall i j, i < n -> j < m ->
      get2 r m i j = op (get2 a m i j) (get2 b m 0 j).
Proof.
  intros [Hsa Hla] [Hsb Hlb]. unfold np_binop.
  rewrite Hsa, Hsb. cbn [rev app bshape]. rewrite bdim_same.
  assert (Hn1 : bdim n 1 = Some n).
  { unfold bdim. destruct (n =? 1) eqn:E; [reflexivity|].
    cbn. reflexivity. }
  rewrite Hn1.
  eexists. split; [reflexivity|]. split.
  - split; cbn [shape data rev app size fold_right]; [reflexivity|].
    rewrite tab_length. lia.
  - intros i j Hi Hj. unfold get2.
    assert (Hq : i * m + j < size [m; n]) by (cbn [size fold_right]; nia).
    rewrite get_tab by assumption.
    rewrite (bidx_same [m; n]) by assumption.
    cbn [bidx]. rewrite row_index_mod by assumption.
    f_equal. f_equal.
    destruct (m =? 1) eqn:Hm1; cbn; [|lia].
    apply Nat.eqb_eq in Hm1. lia.
Qed.

(** The slice [a[:,t,:]] only reads the entries of timestep [t]. *)
Lemma np_slice_mid_ext (a a' : ndarray R) (n T d t : nat) :
  has_shape a [n; T; d] -> has_shape a' [n; T; d] -> t < T ->
  (forall i l, i < n -> l < d -> get3 a T d i t l = get3 a' T d i t l) ->
  np_slice_mid a t = np_slice_mid a' t.
Proof.
  intros [Hsa _] [Hsa' _] Ht Hagree. unfold np_slice_mid.
  rewrite Hsa, Hsa'. apply Nat.ltb_lt in Ht. rewrite Ht.
  f_equal. f_equal. apply tab_ext. intros q Hq.
  cbn [size fold_right] in *. rewrite Nat.mul_1_r in *.
  destruct (@flat_index_split d q n Hq) as (Hi & Hl & _).
  apply (Hagree _ _ Hi Hl).
Qed.

End MoreNumpyFacts.

(** ** TemporalAffine, forward *)

(** X1. For x of shape (N,T,D), w of shape (D,M) and b of shape (M,), of
    any sizes (an empty batch or sequence included),
    [temporal_affine_forward] returns out of shape (N,T,M) with
    out[i,t,j] = sum_l x[i,t,l]*w[l,j] + b[j], the same affine map at every
    timestep, and the cache is the tuple (x, w, b, out). *)
Theorem temporal_affine_forward_spec {R : Type} {SR : Scalar R}
    (x w b : ndarray R) (n T d m : nat) :
  has_shape x [n; T; d] -> has_shape w [d; m] -> has_shape b [m] ->
  exists out,
    temporal_affine_forward x w b = Ok (out, (x, w, b, out)) /\
    has_shape out [n; T; m] /\
    forall i t j, i < n -> t < T -> j < m ->
      get3 out T m i t j =
      add (sigma d (fun l => mul (get3 x T d i t l) (get2 w m l j)))
          (get1 b j).
Proof.
  intros Hx Hw Hb.
  exact (@temporal_affine_forward_run R SR x w b n T d m Hx Hw Hb).
Qed.

Lemma temporal_affine_forward_spec_witness :
  exists out,
    temporal_affine_forward Demo.ax Demo.aw Demo.ab =
      Ok (out, (Demo.ax, Demo.aw, Demo.ab, out)) /\
    has_shape out [1; 2; 3] /\
    get3 out 2 3 0 1 2 =
    add (sigma 2 (fun l => mul (get3 Demo.ax 2 2 0 1 l) (get2 Demo.aw 3 l 2)))
        (get1 Demo.ab 2).
Proof.
  assert (Hx : has_shape Demo.ax [1; 2; 2]) by (split; reflexivity).
  assert (Hw : has_shape Demo.aw [2; 3]) by (split; reflexivity).
  assert (Hb : has_shape Demo.ab [3]) by (split; reflexivity).
  destruct (temporal_affine_forward_spec Hx Hw Hb) as (out & E & S & G).
  exists out. split; [exact E|]. split; [exact S|]. apply G; lia.
Defined.

(** ** Shapes that do not fit *)

(** X2. When the input size of x differs from the number of rows of Wx,
    [rnn_forward] never returns: whatever the number of timesteps and the
    other arguments, it fails with ValueError (raised by np.dot in the
    first step, or by np.transpose when there is no timestep). *)
Theorem rnn_forward_input_size_mismatch
    {R : Type} {SR : Scalar R} {AR : Activation R}
    (x h0 Wx Wh b : ndarray R) (n T d d' h : nat) :
  has_shape x [n; T; d] -> shape Wx = [d'; h] -> d <> d' ->
  rnn_forward x h0 Wx Wh b = Err ValueError.
Proof.
  intros Hx HWx Hd. destruct T as [|T].
  - destruct Hx as [Hsx _].
    exact (@rnn_forward_no_timestep R SR AR x h0 Wx Wh b n d Hsx).
  - destruct (np_slice_mid_cube Hx (Nat.lt_0_succ T))
      as (xt & Ext & [Sxt _] & _).
    unfold rnn_forward, shape_at. destruct Hx as [Hsx _]. rewrite Hsx.
    cbn [list_index nth_error bind seq rnn_forward_loop].
    rewrite Ext. cbn [bind]. unfold rnn_step_forward, np_dot.
    rewrite Sxt, HWx. cbn [last removelast rev app].
    apply Nat.eqb_neq in Hd. rewrite Hd. reflexivity.
Qed.

Lemma rnn_forward_input_size_mismatch_witness :
  rnn_forward Demo.x Demo.h0 Demo.Wx_wide Demo.Wh Demo.b = Err ValueError.
Proof.
  apply (@rnn_forward_input_size_mismatch Z _ _ Demo.x Demo.h0 Demo.Wx_wide
           Demo.Wh Demo.b 2 2 1 3 2).
  - split; reflexivity.
  - reflexivity.
  - lia.
Defined.

(** X3. [rnn_step_forward] does not require prev_h to have one row per
    sample: a prev_h of shape (1,H) is broadcast over the batch, and
    next_h[i,j] = tanh(sum_l x[i,l]*Wx[l,j] + sum_l prev_h[0,l]*Wh[l,j] + b[j]).
    The cache it returns is of no use to the backward step when the batch
    size N is not 1: [rnn_step_backward] fails on it with ValueError, the
    product prev_h^T . dz having mismatched inner sizes 1 and N. *)
Theorem rnn_step_broadcast_prev_h
    {R : Type} {SR : Scalar R} {AR : Activation R}
    (x prev_h Wx Wh b dnext_h : ndarray R) (n d h : nat) :
  has_shape x [n; d] -> has_shape prev_h [1; h] ->
  has_shape Wx [d; h] -> has_shape Wh [h; h] -> has_shape b [h] ->
  has_shape dnext_h [n; h] -> n <> 1 ->
  exists next_h cache,
    rnn_step_forward x prev_h Wx Wh b = Ok (next_h, cache) /\
    has_shape next_h [n; h] /\
    (forall i j, i < n -> j < h ->
       get2 next_h h i j =
       tanh (add (add (sigma d (fun l => mul (get2 x d i l) (get2 Wx h l j)))
                      (sigma h (fun l =>
                         mul (get2 prev_h h 0 l) (get2 Wh h l j))))
                 (get1 b j))) /\
    rnn_step_backward dnext_h cache = Err ValueError.
Proof.
  intros Hx Hp HWx HWh Hb Hd Hn.
  destruct (np_dot_matrix Hx HWx) as (xWx & E1 & S1 & G1).
  destruct (np_dot_matrix Hp HWh) as (hWh & E2 & S2 & G2).
  destruct (np_binop_one_row add S1 S2) as (s & E3 & S3 & G3).
  destruct (np_binop_row add S3 Hb) as (z & E4 & S4 & G4).
  eexists. eexists. split.
  { unfold rnn_step_forward, np_add.
    rewrite E1. cbn [bind]. rewrite E2. cbn [bind].
    rewrite E3. cbn [bind]. rewrite E4. cbn [bind]. reflexivity. }
  assert (Snext : has_shape (np_map tanh z) [n; h])
    by (apply has_shape_map; assumption).
  split; [exact Snext|]. split.
  - intros i j Hi Hj. unfold get2 at 1.
    assert (Hq : i * h + j < n * h) by (apply row_index_lt; assumption).
    rewrite get_map by (destruct S4 as [_ L4]; rewrite L4; simpl; lia).
    f_equal. fold (get2 z h i j). rewrite G4 by assumption. f_equal.
    rewrite G3, G1 by assumption. rewrite G2 by (lia || assumption).
    reflexivity.
  - assert (Hsq : has_shape (np_rsub one (np_square (np_map tanh z))) [n; h]).
    { apply (has_shape_map (sub one)).
      apply (has_shape_map (fun v => mul v v)). assumption. }
    destruct (np_binop_same mul Hd Hsq) as (dz & E0 & [Sdz _] & _).
    destruct (np_transpose_matrix Hp) as ([SpT _] & _).
    unfold rnn_step_backward, np_mul. cbn [c_x c_prev_h c_next_h c_Wh c_Wx].
    rewrite E0. cbn [bind]. unfold np_dot at 1.
    rewrite SpT, Sdz. cbn [last removelast rev app].
    replace (1 =? n) with false
      by (symmetry; apply Nat.eqb_neq; lia).
    reflexivity.
Qed.

Lemma rnn_step_broadcast_prev_h_witness :
  exists next_h cache,
    rnn_step_forward Demo.x_t Demo.h_row Demo.Wx Demo.Wh Demo.b =
      Ok (next_h, cache) /\
    has_shape next_h [2; 2] /\
    rnn_step_backward Demo.dnext_h cache = Err ValueError.
Proof.
  assert (Hx : has_shape Demo.x_t [2; 1]) by (split; reflexivity).
  assert (Hp : has_shape Demo.h_row [1; 2]) by (split; reflexivity).
  assert (HWx : has_shape Demo.Wx [1; 2]) by (split; reflexivity).
  assert (HWh : has_shape Demo.Wh [2; 2]) by (split; reflexivity).
  assert (Hb : has_shape Demo.b [2]) by (split; reflexivity).
  assert (Hd : has_shape Demo.dnext_h [2; 2]) by (split; reflexivity).
  assert (Hn : 2 <> 1) by lia.
  destruct (rnn_step_broadcast_prev_h Hx Hp HWx HWh Hb Hd Hn)
    as (next_h & cache & E & S & _ & Ebwd).
  exists next_h, cache. split; [exact E|]. split; [exact S|exact Ebwd].
Defined.

(** X4. [average_forward] compares the number of columns of the mask with
    the number T of timesteps of h only through np.dot: with a mask of
    shape (N,T') where T' differs from T it fails with ValueError as soon
    as there is a sample (N >= 1), and on an empty batch it returns
    without noticing. *)
Theorem average_forward_mask_length_mismatch {R : Type} {SR : Scalar R}
    (hi mask : ndarray R) (n T T' h : nat) :
  has_shape hi [n; T; h] -> has_shape mask [n; T'] -> T <> T' ->
  (1 <= n -> average_forward hi mask = Err ValueError) /\
  (n = 0 -> returns (average_forward hi mask) = true).
Proof.
  intros Hhi Hmask HT.
  destruct (np_sum_axis1_matrix Hmask) as (count & Ec & _).
  split.
  - intros Hn. assert (H0 : 0 < n) by lia.
    destruct (np_index_matrix Hmask H0) as (mask_0 & E1 & [S1 _] & _).
    destruct (np_index_cube Hhi H0) as (hi_0 & E2 & [S2 _] & _).
    unfold average_forward, shape3. destruct Hhi as [Hs _]. rewrite Hs.
    cbn [bind]. rewrite Ec. cbn [bind].
    destruct n as [|n']; [lia|]. cbn [seq average_forward_loop].
    rewrite E1. cbn [bind]. rewrite E2. cbn [bind].
    unfold np_dot. rewrite S1, S2. cbn [last removelast rev app].
    replace (T' =? T) with false by (symmetry; apply Nat.eqb_neq; lia).
    reflexivity.
  - intros ->. unfold average_forward, shape3.
    destruct Hhi as [Hs _]. rewrite Hs. cbn [bind]. rewrite Ec. reflexivity.
Qed.

Lemma average_forward_mask_length_mismatch_witness :
  average_forward Demo.hi Demo.mask_short = Err ValueError.
Proof.
  assert (Hhi : has_shape Demo.hi [2; 3; 2]) by (split; reflexivity).
  assert (Hmask : has_shape Demo.mask_short [2; 2]) by (split; reflexivity).
  assert (HT : 3 <> 2) by lia.
  destruct (average_forward_mask_length_mismatch Hhi Hmask HT) as (Hfail & _).
  apply Hfail. lia.
Defined.

(** ** SequenceRunner, forward: the cache and the flow of time *)

Section ForwardChain.

Context {R : Type} {SR : Scalar R} {AR : Activation R}.

Lemma rnn_step_forward_cache_fields (x prev_h Wx Wh b next_h : ndarray R)
    (c : step_cache R) :
  rnn_step_forward x prev_h Wx Wh b = Ok (next_h, c) ->
  c = {| c_x := x; c_prev_h := prev_h; c_next_h := next_h;
         c_Wh := Wh; c_Wx := Wx |}.
Proof.
  unfold rnn_step_forward. intros Hfwd. invert_binds Hfwd.
  injection Hfwd as <- <-. reflexivity.
Qed.

Lemma step_at_inv (x h0 Wx Wh b next_h : ndarray R) (c : step_cache R)
    (t : nat) :
  step_at x h0 Wx Wh b t = Ok (next_h, c) ->
  exists prev xt,
    hidden_before x h0 Wx Wh b t = Ok prev /\
    np_slice_mid x t = Ok xt /\
    rnn_step_forward xt prev Wx Wh b = Ok (next_h, c).
Proof.
  unfold step_at. intros Hstep.
  destruct (hidden_before x h0 Wx Wh b t) as [prev|];
    cbn [bind] in Hstep; [|discriminate Hstep].
  destruct (np_slice_mid x t) as [xt|];
    cbn [bind] in Hstep; [|discriminate Hstep].
  exists prev, xt. split; [reflexivity|]. split; [reflexivity|exact Hstep].
Qed.

Lemma hidden_before_succ (x h0 Wx Wh b next_h : ndarray R)
    (c : step_cache R) (t : nat) :
  step_at x h0 Wx Wh b t = Ok (next_h, c) ->
  hidden_before x h0 Wx Wh b (S t) = Ok next_h.
Proof.
  intros Hstep. destruct (step_at_inv _ _ _ _ _ _ Hstep)
    as (prev & xt & E1 & E2 & E3).
  cbn [hidden_before]. rewrite E1. cbn [bind]. rewrite E2. cbn [bind].
  rewrite E3. reflexivity.
Qed.

(** While two inputs agree up to timestep [s], so do the hidden states
    entering timesteps [0 .. s+1]. *)
Lemma hidden_before_agree (x x' h0 Wx Wh b : ndarray R) (n T d s : nat) :
  has_shape x [n; T; d] -> has_shape x' [n; T; d] -> s < T ->
  (forall t i l, t <= s -> i < n -> l < d ->
     get3 x T d i t l = get3 x' T d i t l) ->
  forall t, t <= S s ->
    hidden_before x h0 Wx Wh b t = hidden_before x' h0 Wx Wh b t.
Proof.
  intros Hx Hx' Hs Hagree t. induction t as [|t IH]; intros Ht.
  - reflexivity.
  - cbn [hidden_before]. rewrite IH by lia.
    rewrite (@np_slice_mid_ext R SR x x' n T d t Hx Hx'); [reflexivity|lia|].
    intros i l Hi Hl. apply Hagree; [lia|assumption|assumption].
Qed.

End ForwardChain.

(** X5. The cache list returned by [rnn_forward] is a chain: its entry t
    holds the slice x[:,t,:], the matrices Wx and Wh the run was given,
    as prev_h the next_h of entry t-1 (h0 for entry 0), and as next_h
    the slice h[:,t,:] of the returned hidden states. *)
Theorem rnn_forward_cache_chain
    {R : Type} {SR : Scalar R} {AR : Activation R}
    (x h0 Wx Wh b hs : ndarray R) (cache : list (step_cache R))
    (n T d h : nat) :
  has_shape x [n; T; d] -> has_shape h0 [n; h] ->
  has_shape Wx [d; h] -> has_shape Wh [h; h] -> has_shape b [h] ->
  rnn_forward x h0 Wx Wh b = Ok (hs, cache) ->
  forall t c, nth_error cache t = Some c ->
    c_Wx c = Wx /\ c_Wh c = Wh /\
    np_slice_mid x t = Ok (c_x c) /\
    match t with
    | 0 => c_prev_h c = h0
    | S t' =>
        exists c', nth_error cache t' = Some c' /\ c_prev_h c = c_next_h c'
    end /\
    forall i j, i < n -> j < h ->
      get3 hs T h i t j = get2 (c_next_h c) h i j.
Proof.
  intros Hx Hh0 HWx HWh Hb Hfwd t c Hc.
  assert (HT : 1 <= T).
  { destruct T as [|T']; [|lia]. destruct Hx as [Hsx _].
    rewrite (@rnn_forward_no_timestep R SR AR x h0 Wx Wh b n d Hsx) in Hfwd.
    discriminate Hfwd. }
  destruct (rnn_forward_run Hx Hh0 HWx HWh Hb HT)
    as (hs' & cache' & E & _ & Lc & _ & Hsteps).
  rewrite E in Hfwd. injection Hfwd as -> ->.
  assert (Ht : t < T).
  { rewrite <- Lc. apply nth_error_Some. congruence. }
  destruct (Hsteps t Ht) as (next_h & c0 & Est & Ec0 & _ & Ghs).
  rewrite Hc in Ec0. injection Ec0 as <-.
  destruct (step_at_inv _ _ _ _ _ _ Est) as (prev & xt & Eprev & Ext & Estep).
  rewrite (rnn_step_forward_cache_fields _ _ _ _ _ Estep).
  cbn [c_x c_prev_h c_next_h c_Wh c_Wx].
  split; [reflexivity|]. split; [reflexivity|]. split; [exact Ext|].
  split; [|exact Ghs].
  destruct t as [|t'].
  - cbn [hidden_before] in Eprev. injection Eprev as <-. reflexivity.
  - destruct (Hsteps t' ltac:(lia)) as (nh' & c' & Est' & Ec' & _).
    exists c'. split; [exact Ec'|].
    rewrite (hidden_before_succ _ _ _ _ _ _ Est') in Eprev.
    injection Eprev as <-.
    destruct (step_at_inv _ _ _ _ _ _ Est') as (p' & xt' & _ & _ & Estep').
    symmetry. exact (rnn_step_forward_next_h _ _ _ _ _ Estep').
Qed.

Lemma rnn_forward_cache_chain_witness :
  exists hs cache c0 c1,
    rnn_forward Demo.x Demo.h0 Demo.Wx Demo.Wh Demo.b = Ok (hs, cache) /\
    nth_error cache 0 = Some c0 /\ nth_error cache 1 = Some c1 /\
    c_Wx c1 = Demo.Wx /\ c_prev_h c1 = c_next_h c0.
Proof.
  assert (Hx : has_shape Demo.x [2; 2; 1]) by (split; reflexivity).
  assert (Hp : has_shape Demo.h0 [2; 2]) by (split; reflexivity).
  assert (HWx : has_shape Demo.Wx [1; 2]) by (split; reflexivity).
  assert (HWh : has_shape Demo.Wh [2; 2]) by (split; reflexivity).
  assert (Hb : has_shape Demo.b [2]) by (split; reflexivity).
  assert (HT : 1 <= 2) by lia.
  destruct (rnn_forward_run Hx Hp HWx HWh Hb HT)
    as (hs & cache & E & _ & Lc & Fc & _).
  destruct (nth_error_shaped Lc Fc (t := 1) ltac:(lia)) as (c1 & Ec1 & _).
  destruct (rnn_forward_cache_chain Hx Hp HWx HWh Hb E 1 Ec1)
    as (EWx & _ & _ & (c0 & Ec0 & Eprev) & _).
  exists hs, cache, c0, c1.
  split; [exact E|]. split; [exact Ec0|]. split; [exact Ec1|].
  split; [exact EWx|exact Eprev].
Defined.

(** X6. The forward pass is causal: when two inputs of shape (N,T,D)
    agree at every timestep up to s, the hidden states [rnn_forward]
    returns for them agree at every timestep up to s, whatever the
    inputs are afterwards. *)
Theorem rnn_forward_causal
    {R : Type} {SR : Scalar R} {AR : Activation R}
    (x x' h0 Wx Wh b hs hs' : ndarray R) (cache cache' : list (step_cache R))
    (n T d h s : nat) :
  has_shape x [n; T; d] -> has_shape x' [n; T; d] ->
  has_shape h0 [n; h] ->
  has_shape Wx [d; h] -> has_shape Wh [h; h] -> has_shape b [h] ->
  s < T ->
  (forall t i l, t <= s -> i < n -> l < d ->
     get3 x T d i t l = get3 x' T d i t l) ->
  rnn_forward x h0 Wx Wh b = Ok (hs, cache) ->
  rnn_forward x' h0 Wx Wh b = Ok (hs', cache') ->
  forall t i j, t <= s -> i < n -> j < h ->
    get3 hs T h i t j = get3 hs' T h i t j.
Proof.
  intros Hx Hx' Hh0 HWx HWh Hb Hs Hagree Hfwd Hfwd' t i j Ht Hi Hj.
  assert (HT : 1 <= T) by lia.
  destruct (rnn_forward_run Hx Hh0 HWx HWh Hb HT)
    as (hs1 & cache1 & E & _ & _ & _ & Hsteps).
  rewrite E in Hfwd. injection Hfwd as -> ->.
  destruct (rnn_forward_run Hx' Hh0 HWx HWh Hb HT)
    as (hs2 & cache2 & E' & _ & _ & _ & Hsteps').
  rewrite E' in Hfwd'. injection Hfwd' as -> ->.
  destruct (Hsteps t ltac:(lia)) as (nh & c & Est & _ & _ & G).
  destruct (Hsteps' t ltac:(lia)) as (nh' & c' & Est' & _ & _ & G').
  rewrite G, G' by assumption.
  assert (Estep : step_at x h0 Wx Wh b t = step_at x' h0 Wx Wh b t).
  { unfold step_at.
    rewrite (hidden_before_agree h0 Wx Wh b Hx Hx' Hs Hagree (t := t))
      by lia.
    rewrite (@np_slice_mid_ext R SR x x' n T d t Hx Hx'); [reflexivity|lia|].
    intros i0 l Hi0 Hl. apply Hagree; assumption. }
  rewrite Estep, Est' in Est. injection Est as <- _. reflexivity.
Qed.

Lemma rnn_forward_causal_witness :
  exists hs hs' cache cache',
    rnn_forward Demo.x Demo.h0 Demo.Wx Demo.Wh Demo.b = Ok (hs, cache) /\
    rnn_forward Demo.x_alt Demo.h0 Demo.Wx Demo.Wh Demo.b =
      Ok (hs', cache') /\
    get3 hs 2 2 1 0 1 = get3 hs' 2 2 1 0 1.
Proof.
  assert (Hx : has_shape Demo.x [2; 2; 1]) by (split; reflexivity).
  assert (Hx' : has_shape Demo.x_alt [2; 2; 1]) by (split; reflexivity).
  assert (Hp : has_shape Demo.h0 [2; 2]) by (split; reflexivity).
  assert (HWx : has_shape Demo.Wx [1; 2]) by (split; reflexivity).
  assert (HWh : has_shape Demo.Wh [2; 2]) by (split; reflexivity).
  assert (Hb : has_shape Demo.b [2]) by (split; reflexivity).
  assert (HT : 1 <= 2) by lia.
  assert (Hs : 0 < 2) by lia.
  assert (Hagree : forall t i l, t <= 0 -> i < 2 -> l < 1 ->
            get3 Demo.x 2 1 i t l = get3 Demo.x_alt 2 1 i t l).
  { intros t i l Ht Hi Hl.
    assert (t = 0) by lia. assert (l = 0) by lia. subst t l.
    destruct i as [|[|i]]; [reflexivity|reflexivity|lia]. }
  destruct (rnn_forward_run Hx Hp HWx HWh Hb HT) as (hs & cache & E & _).
  destruct (rnn_forward_run Hx' Hp HWx HWh Hb HT) as (hs' & cache' & E' & _).
  exists hs, hs', cache, cache'.
  split; [exact E|]. split; [exact E'|].
  apply (rnn_forward_causal Hx Hx' Hp HWx HWh Hb Hs Hagree E E'); lia.
Defined.

(** ** Backward passes on a gradient that is zero *)

Section ZeroGradient.

Context {R : Type} {SR : Scalar R} {KR : Kinds R}.

Hypothesis zero_iszero : iszero (zero : R).
Hypothesis mul_zero_l :
  forall z v : R, iszero z -> isfinite v -> iszero (mul z v).
Hypothesis mul_zero_r :
  forall v z : R, isfinite v -> iszero z -> iszero (mul v z).
Hypothesis add_zeros :
  forall a b : R, iszero a -> iszero b -> iszero (add a b).

Lemma rnn_step_backward_zero (dnext_h : ndarray R) (c : step_cache R)
    (n d h : nat) :
  has_shape dnext_h [n; h] -> cache_shaped c n d h -> cache_finite c n d h ->
  (forall i j, i < n -> j < h -> iszero (get2 dnext_h h i j)) ->
  exists r,
    rnn_step_backward dnext_h c = Ok r /\ grads_shaped n d h r /\
    (forall i l, i < n -> l < d -> iszero (get2 (grad_dx (Ok r)) d i l)) /\
    (forall i k, i < n -> k < h ->
       iszero (get2 (grad_dprev_h (Ok r)) h i k)) /\
    (forall l j, l < d -> j < h -> iszero (get2 (grad_dWx (Ok r)) h l j)) /\
    (forall k j, k < h -> j < h -> iszero (get2 (grad_dWh (Ok r)) h k j)) /\
    (forall j, j < h -> iszero (get1 (grad_db (Ok r)) j)).
Proof.
  intros Hd Cs (Fx & Fp & Fn & FWh & FWx) Hzero.
  destruct (rnn_step_backward_entries Hd Cs)
    as (dx & dprev_h & dWx & dWh & db & E & S & GWh & GWx & Gdx & Gdp & Gdb).
  assert (Hdz : forall i j, i < n -> j < h ->
            iszero (local_grad dnext_h (c_next_h c) h i j)).
  { intros i j Hi Hj. unfold local_grad.
    apply mul_zero_l; [apply Hzero|apply Fn]; assumption. }
  exists (dx, dprev_h, dWx, dWh, db).
  split; [exact E|]. split; [exact S|].
  cbn [grad_dx grad_dprev_h grad_dWx grad_dWh grad_db].
  split; [|split; [|split; [|split]]].
  - intros i l Hi Hl. rewrite Gdx by assumption.
    apply sigma_iszero; [assumption|assumption|]. intros j Hj.
    apply mul_zero_l; [apply Hdz|apply FWx]; assumption.
  - intros i k Hi Hk. rewrite Gdp by assumption.
    apply sigma_iszero; [assumption|assumption|]. intros j Hj.
    apply mul_zero_l; [apply Hdz|apply FWh]; assumption.
  - intros l j Hl Hj. rewrite GWx by assumption.
    apply sigma_iszero; [assumption|assumption|]. intros i Hi.
    apply mul_zero_r; [apply Fx|apply Hdz]; assumption.
  - intros k j Hk Hj. rewrite GWh by assumption.
    apply sigma_iszero; [assumption|assumption|]. intros i Hi.
    apply mul_zero_r; [apply Fp|apply Hdz]; assumption.
  - intros j Hj. rewrite Gdb by assumption.
    apply sigma_iszero; [assumption|assumption|]. intros i Hi.
    apply Hdz; assumption.
Qed.

Variables (dh : ndarray R) (cache : list (step_cache R)) (n T d h s : nat).

Hypothesis Hdh : has_shape dh [n; T; h].
Hypothesis Hcache : forall t, t < T ->
  exists c, nth_error cache t = Some c /\ cache_shaped c n d h.
Hypothesis Hfinite : forall t c, s < t -> t < T ->
  nth_error cache t = Some c -> cache_finite c n d h.
Hypothesis Hafter : forall t i j, s < t -> t < T -> i < n -> j < h ->
  iszero (get3 dh T h i t j).

(** The steps of the timesteps after [s] return arrays of zeros for dx
    and dprev_h. *)
Lemma bptt_zero_after (k : nat) :
  k <= T - 1 -> s < T - 1 - k ->
  exists r,
    bptt dh cache (T - 1) k = Ok r /\ grads_shaped n d h r /\
    (forall i l, i < n -> l < d -> iszero (get2 (grad_dx (Ok r)) d i l)) /\
    (forall i j, i < n -> j < h ->
       iszero (get2 (grad_dprev_h (Ok r)) h i j)).
Proof.
  induction k as [|k IH]; intros Hk Hs.
  - assert (Htop : T - 1 < T) by lia.
    destruct (np_slice_mid_cube Hdh Htop) as (dht & Eslice & Sdht & Gdht).
    destruct (Hcache Htop) as (c & Ec & Cs).
    assert (Fc : cache_finite c n d h)
      by (apply (@Hfinite (T - 1) c); [lia|lia|exact Ec]).
    destruct (@rnn_step_backward_zero dht c n d h Sdht Cs Fc)
      as (r & Er & Sr & Zdx & Zdp & _).
    { intros i j Hi Hj. rewrite Gdht by assumption.
      apply Hafter; [lia|lia|assumption|assumption]. }
    exists r. split; [|split; [exact Sr|split; [exact Zdx|exact Zdp]]].
    cbn [bptt]. rewrite Eslice. cbn [bind]. unfold list_index. rewrite Ec.
    exact Er.
  - destruct (IH ltac:(lia) ltac:(lia)) as (r' & Er' & Sr' & _ & Zdp').
    destruct r' as [[[[dx' dprev'] dWx'] dWh'] db'].
    destruct Sr' as (_ & Sdp' & _). cbn [grad_dprev_h] in Zdp'.
    assert (Ht : T - 1 - S k < T) by lia.
    destruct (np_slice_mid_cube Hdh Ht) as (dht & Eslice & Sdht & Gdht).
    destruct (np_binop_same add Sdht Sdp') as (g & Eg & Sg & Gg).
    destruct (Hcache Ht) as (c & Ec & Cs).
    assert (Fc : cache_finite c n d h)
      by (apply (@Hfinite (T - 1 - S k) c); [lia|lia|exact Ec]).
    destruct (@rnn_step_backward_zero g c n d h Sg Cs Fc)
      as (r & Er & Sr & Zdx & Zdp & _).
    { intros i j Hi Hj. unfold get2. rewrite Gg by (cbn [size fold_right]; nia).
      fold (get2 dht h i j). fold (get2 dprev' h i j).
      rewrite Gdht by assumption.
      apply add_zeros; [|apply Zdp'; assumption].
      apply Hafter; [lia|lia|assumption|assumption]. }
    exists r. split; [|split; [exact Sr|split; [exact Zdx|exact Zdp]]].
    cbn [bptt]. rewrite Er'. cbn [bind]. rewrite Eslice. cbn [bind].
    unfold np_add. rewrite Eg. cbn [bind]. unfold list_index. rewrite Ec.
    exact Er.
Qed.

Lemma rnn_backward_zero_after :
  s < T ->
  exists dx dh0 dWx dWh db,
    rnn_backward dh cache = Ok (dx, dh0, dWx, dWh, db) /\
    has_shape dx [n; T; d] /\
    forall t i l, s < t -> t < T -> i < n -> l < d ->
      iszero (get3 dx T d i t l).
Proof.
  intros Hs.
  destruct (@rnn_backward_run R SR dh cache n T d h Hdh Hcache ltac:(lia))
    as (dx & dh0 & dWx & dWh & db & E & (Sdx & _) & _ & Gdx & _).
  exists dx, dh0, dWx, dWh, db. split; [exact E|]. split; [exact Sdx|].
  intros t i l Hst Ht Hi Hl. rewrite Gdx by assumption.
  unfold step_grad.
  destruct (@bptt_zero_after (T - 1 - t) ltac:(lia) ltac:(lia))
    as (r & Er & _ & Zdx & _).
  rewrite Er. apply Zdx; assumption.
Qed.

End ZeroGradient.

(** X7. With an upstream gradient dnext_h made of zeros and a cache that
    holds no infinity and no nan, [rnn_step_backward] returns five
    gradients made of zeros.  The laws assumed on the element arithmetic
    (a zero times a finite value is a zero, the sum of two zeros is a
    zero) hold in binary64, where the zeros are +0 and -0; a cache that
    holds an infinity or a nan gives nan instead. *)
Theorem rnn_step_backward_zero_upstream
    {R : Type} {SR : Scalar R} {KR : Kinds R}
    (dnext_h : ndarray R) (c : step_cache R) (n d h : nat) :
  iszero (zero : R) ->
  (forall z v : R, iszero z -> isfinite v -> iszero (mul z v)) ->
  (forall v z : R, isfinite v -> iszero z -> iszero (mul v z)) ->
  (forall a b : R, iszero a -> iszero b -> iszero (add a b)) ->
  has_shape dnext_h [n; h] -> cache_shaped c n d h -> cache_finite c n d h ->
  (forall i j, i < n -> j < h -> iszero (get2 dnext_h h i j)) ->
  exists dx dprev_h dWx dWh db,
    rnn_step_backward dnext_h c = Ok (dx, dprev_h, dWx, dWh, db) /\
    (forall i l, i < n -> l < d -> iszero (get2 dx d i l)) /\
    (forall i k, i < n -> k < h -> iszero (get2 dprev_h h i k)) /\
    (forall l j, l < d -> j < h -> iszero (get2 dWx h l j)) /\
    (forall k j, k < h -> j < h -> iszero (get2 dWh h k j)) /\
    (forall j, j < h -> iszero (get1 db j)).
Proof.
  intros Hz Hl Hr Ha Hd Cs Fc Hzero.
  destruct (rnn_step_backward_zero Hz Hl Hr Ha Hd Cs Fc Hzero)
    as (r & E & _ & Z).
  destruct r as [[[[dx dprev_h] dWx] dWh] db].
  exists dx, dprev_h, dWx, dWh, db. split; [exact E|exact Z].
Qed.

Lemma rnn_step_backward_zero_upstream_witness :
  exists dx dprev_h dWx dWh db,
    rnn_step_backward Demo.fdnext_zero Demo.fc0 =
      Ok (dx, dprev_h, dWx, dWh, db) /\
    iszero (get2 dx 1 0 0) /\ iszero (get2 dWx 1 0 0) /\
    iszero (get1 db 0).
Proof.
  assert (Hd : has_shape Demo.fdnext_zero [1; 1]) by (split; reflexivity).
  assert (Cs : cache_shaped Demo.fc0 1 1 1) by (repeat split; reflexivity).
  assert (Fc : cache_finite Demo.fc0 1 1 1).
  { repeat split; intros i j Hi Hj;
      assert (i = 0) by lia; assert (j = 0) by lia; subst i j;
      vm_compute; exact I. }
  assert (Hzero : forall i j, i < 1 -> j < 1 ->
            iszero (get2 Demo.fdnext_zero 1 i j)).
  { intros i j Hi Hj. assert (i = 0) by lia. assert (j = 0) by lia.
    subst i j. vm_compute. exact I. }
  destruct (@rnn_step_backward_zero_upstream float float_scalar float_kinds
              Demo.fdnext_zero Demo.fc0 1 1 1 float_zero_iszero
              float_mul_zero_l float_mul_zero_r float_add_zeros
              Hd Cs Fc Hzero)
    as (dx & dprev_h & dWx & dWh & db & E & Zdx & _ & ZdWx & _ & Zdb).
  exists dx, dprev_h, dWx, dWh, db.
  split; [exact E|].
  split; [apply Zdx; lia|]. split; [apply ZdWx; lia|apply Zdb; lia].
Defined.

(** X8. No gradient flows forward in time: when the upstream gradient dh
    is a zero at every timestep after s, and the cache entries of these
    timesteps hold no infinity and no nan, the input gradient dx returned
    by [rnn_backward] is a zero at every timestep after s.  The cache
    list only needs well-shaped entries at indices 0 .. T-1; the laws
    assumed on the element arithmetic hold in binary64. *)
Theorem rnn_backward_no_gradient_after
    {R : Type} {SR : Scalar R} {KR : Kinds R}
    (dh : ndarray R) (cache : list (step_cache R)) (n T d h s : nat) :
  iszero (zero : R) ->
  (forall z v : R, iszero z -> isfinite v -> iszero (mul z v)) ->
  (forall v z : R, isfinite v -> iszero z -> iszero (mul v z)) ->
  (forall a b : R, iszero a -> iszero b -> iszero (add a b)) ->
  has_shape dh [n; T; h] ->
  (forall t, t < T ->
     exists c, nth_error cache t = Some c /\ cache_shaped c n d h) ->
  (forall t c, s < t -> t < T ->
     nth_error cache t = Some c -> cache_finite c n d h) ->
  s < T ->
  (forall t i j, s < t -> t < T -> i < n -> j < h ->
     iszero (get3 dh T h i t j)) ->
  exists dx dh0 dWx dWh db,
    rnn_backward dh cache = Ok (dx, dh0, dWx, dWh, db) /\
    has_shape dx [n; T; d] /\
    forall t i l, s < t -> t < T -> i < n -> l < d ->
      iszero (get3 dx T d i t l).
Proof.
  intros Hz Hl Hr Ha Hdh Hcache Hfinite Hs Hafter.
  exact (@rnn_backward_zero_after R SR KR Hz Hl Hr Ha dh cache n T d h s
           Hdh Hcache Hfinite Hafter Hs).
Qed.

Lemma rnn_backward_no_gradient_after_witness :
  exists dx dh0 dWx dWh db,
    rnn_backward Demo.fdh_early Demo.fcache = Ok (dx, dh0, dWx, dWh, db) /\
    iszero (get3 dx 2 1 0 1 0) /\
    get3 dx 2 1 0 0 0 = (-0.75)%float.
Proof.
  assert (Hd : has_shape Demo.fdh_early [1; 2; 1]) by (split; reflexivity).
  assert (Hcache : forall t, t < 2 ->
            exists c, nth_error Demo.fcache t = Some c /\
                      cache_shaped c 1 1 1).
  { intros t Ht. destruct t as [|[|t]]; [| |lia].
    - exists Demo.fc0. split; [reflexivity|]. repeat split; reflexivity.
    - exists Demo.fc1. split; [reflexivity|]. repeat split; reflexivity. }
  assert (Hfinite : forall t c, 0 < t -> t < 2 ->
            nth_error Demo.fcache t = Some c -> cache_finite c 1 1 1).
  { intros t c Ht0 Ht Hc. assert (t = 1) by lia. subst t.
    injection Hc as <-.
    repeat split; intros i j Hi Hj;
      assert (i = 0) by lia; assert (j = 0) by lia; subst i j;
      vm_compute; exact I. }
  assert (Hs : 0 < 2) by lia.
  assert (Hafter : forall t i j, 0 < t -> t < 2 -> i < 1 -> j < 1 ->
            iszero (get3 Demo.fdh_early 2 1 i t j)).
  { intros t i j Ht0 Ht Hi Hj. assert (t = 1) by lia.
    assert (i = 0) by lia. assert (j = 0) by lia. subst t i j.
    vm_compute. exact I. }
  destruct (@rnn_backward_no_gradient_after float float_scalar float_kinds
              Demo.fdh_early Demo.fcache 1 2 1 1 0 float_zero_iszero
              float_mul_zero_l float_mul_zero_r float_add_zeros
              Hd Hcache Hfinite Hs Hafter)
    as (dx & dh0 & dWx & dWh & db & Eb & _ & Zdx).
  exists dx, dh0, dWx, dWh, db.
  split; [exact Eb|]. split; [apply Zdx; lia|].
  assert (Ev : rnn_backward Demo.fdh_early Demo.fcache =
               Ok (Demo.farr [1; 2; 1] [-0.75; 0]%float,
                   Demo.farr [1; 1] [0.75%float],
                   Demo.farr [1; 1] [1.5%float],
                   Demo.farr [1; 1] [0%float],
                   Demo.farr [1] [0.75%float]))
    by (vm_compute; reflexivity).
  rewrite Ev in Eb. injection Eb as <- _ _ _ _. vm_compute. reflexivity.
Defined.

(** ** MaskedAverager and padding *)

(** X9. Finite values of h at masked-out positions do not reach the
    average: when hi and hi' agree at every position (i,t) except where
    the mask entry is a zero and both hold finite values,
    [average_forward] returns the same cache and the same averages for
    both, up to the sign of a zero.  The laws assumed on the element
    arithmetic hold in binary64; an infinity or a nan at a masked-out
    position does reach the average (as nan). *)
Theorem average_forward_ignores_padding
    {R : Type} {SR : Scalar R} {KR : Kinds R}
    (hi hi' mask : ndarray R) (n T h : nat) :
  (forall z v : R, iszero z -> isfinite v -> iszero (mul z v)) ->
  (forall a a' b b' : R, same_value a a' -> same_value b b' ->
     same_value (add a b) (add a' b')) ->
  (forall a a' c : R, same_value a a' -> same_value (div a c) (div a' c)) ->
  has_shape hi [n; T; h] -> has_shape hi' [n; T; h] ->
  has_shape mask [n; T] ->
  (forall i t, i < n -> t < T ->
     (iszero (get2 mask T i t) /\
      forall k, k < h ->
        isfinite (get3 hi T h i t k) /\ isfinite (get3 hi' T h i t k)) \/
     forall k, k < h -> get3 hi T h i t k = get3 hi' T h i t k) ->
  exists ho ho' cache,
    average_forward hi mask = Ok (ho, cache) /\
    average_forward hi' mask = Ok (ho', cache) /\
    shape ho = shape ho' /\
    forall i k, i < n -> k < h ->
      same_value (get2 ho h i k) (get2 ho' h i k).
Proof.
  intros Hmul Hadd Hdiv Hhi Hhi' Hmask Hagree.
  destruct (average_forward_run Hhi Hmask)
    as (ho & count & E & _ & _ & [S _] & G).
  destruct (average_forward_run Hhi' Hmask)
    as (ho' & count' & E' & _ & _ & [S' _] & G').
  assert (Ec : count' = count).
  { unfold average_forward in E, E'.
    destruct (shape3 hi) as [[[? ?] ?]|]; [|discriminate].
    destruct (shape3 hi') as [[[? ?] ?]|]; [|discriminate].
    cbn [bind] in E, E'.
    destruct (np_sum_axis1 mask) as [c|]; [|discriminate].
    cbn [bind] in E, E'.
    destruct (average_forward_loop _ _ _ _ _) in E; [|discriminate].
    destruct (average_forward_loop _ _ _ _ _) in E'; [|discriminate].
    cbn [bind] in E, E'.
    destruct (np_array _) in E; [|discriminate].
    destruct (np_array _) in E'; [|discriminate].
    cbn [bind] in E, E'. congruence. }
  subst count'.
  exists ho, ho'. eexists. split; [exact E|]. split; [exact E'|].
  split; [congruence|].
  intros i k Hi Hk. rewrite G, G' by assumption. unfold avg_entry.
  apply Hdiv. apply sigma_rel; [apply same_value_refl|exact Hadd|].
  intros t Ht.
  destruct (Hagree i t Hi Ht) as [[Hm Hfin]|Hh].
  - destruct (Hfin k Hk) as [Hf Hf'].
    right. split; apply Hmul; assumption.
  - rewrite Hh by assumption. apply same_value_refl.
Qed.

Lemma average_forward_ignores_padding_witness :
  exists ho ho' cache,
    average_forward Demo.fhi Demo.fmask = Ok (ho, cache) /\
    average_forward Demo.fhi_other Demo.fmask = Ok (ho', cache) /\
    same_value (get2 ho 1 0 0) (get2 ho' 1 0 0).
Proof.
  assert (Hhi : has_shape Demo.fhi [1; 2; 1]) by (split; reflexivity).
  assert (Hhi' : has_shape Demo.fhi_other [1; 2; 1])
    by (split; reflexivity).
  assert (Hmask : has_shape Demo.fmask [1; 2]) by (split; reflexivity).
  assert (Hagree : forall i t, i < 1 -> t < 2 ->
            (iszero (get2 Demo.fmask 2 i t) /\
             forall k, k < 1 ->
               isfinite (get3 Demo.fhi 2 1 i t k) /\
               isfinite (get3 Demo.fhi_other 2 1 i t k)) \/
            forall k, k < 1 ->
              get3 Demo.fhi 2 1 i t k = get3 Demo.fhi_other 2 1 i t k).
  { intros i t Hi Ht. assert (i = 0) by lia. subst i.
    destruct t as [|[|t]]; [| |lia].
    - right. intros k Hk. assert (k = 0) by lia. subst k. reflexivity.
    - left. split; [vm_compute; exact I|].
      intros k Hk. assert (k = 0) by lia. subst k.
      split; vm_compute; exact I. }
  destruct (@average_forward_ignores_padding float float_scalar float_kinds
              Demo.fhi Demo.fhi_other Demo.fmask 1 2 1 float_mul_zero_l
              float_add_same_value float_div_same_value
              Hhi Hhi' Hmask Hagree)
    as (ho & ho' & cache & E & E' & _ & G).
  exists ho, ho', cache. split; [exact E|]. split; [exact E'|].
  apply G; lia.
Defined.

(** X10. For a sample i of length L, that is, whose mask row is 1 on the
    first L timesteps and 0 on the others, and whose padded hidden states
    are finite, the average returned by [average_forward] has the value
    of the mean of the first L hidden states only:
    avg[i,k] is (sum over t < L of h[i,t,k]) divided by the sum of L ones,
    up to the sign of a zero.  What is assumed of the arithmetic holds in
    binary64: the laws about zeros, 1 * v = v at the entries of the
    sample, and that adding 0 to the sum of L ones does not change it. *)
Theorem average_forward_prefix_mean
    {R : Type} {SR : Scalar R} {KR : Kinds R}
    (hi mask : ndarray R) (n T h L i : nat) :
  iszero (zero : R) ->
  (forall z v : R, iszero z -> isfinite v -> iszero (mul z v)) ->
  (forall a z : R, iszero z -> same_value (add a z) a) ->
  (forall a a' c : R, same_value a a' -> same_value (div a c) (div a' c)) ->
  has_shape hi [n; T; h] -> has_shape mask [n; T] ->
  i < n -> L <= T ->
  (forall t, t < L -> get2 mask T i t = one) ->
  (forall t, L <= t -> t < T -> get2 mask T i t = zero) ->
  (forall t k, t < L -> k < h ->
     mul one (get3 hi T h i t k) = get3 hi T h i t k) ->
  (forall t k, L <= t -> t < T -> k < h -> isfinite (get3 hi T h i t k)) ->
  add (sigma L (fun _ => one)) zero = sigma L (fun _ => one) ->
  exists ho cache,
    average_forward hi mask = Ok (ho, cache) /\
    has_shape ho [n; h] /\
    forall k, k < h ->
      same_value (get2 ho h i k)
        (div (sigma L (fun t => get3 hi T h i t k))
             (sigma L (fun _ => one))).
Proof.
  intros Hz Hmul Habs Hdiv Hhi Hmask Hi HL Hin Hout Hone Hfin Hcount.
  destruct (average_forward_run Hhi Hmask)
    as (ho & count & E & _ & _ & S & G).
  rewrite (@stacked_shape_pos n [h] ltac:(lia)) in S.
  exists ho. eexists. split; [exact E|]. split; [exact S|].
  intros k Hk. rewrite G by assumption. unfold avg_entry.
  assert (Ec : mask_count mask T i = sigma L (fun _ => one)).
  { unfold mask_count.
    assert (El : sigma L (fun t => get2 mask T i t) =
                 sigma L (fun _ => one))
      by (apply sigma_ext; assumption).
    rewrite <- El. apply sigma_padded; [assumption|assumption|].
    rewrite El. exact Hcount. }
  rewrite Ec. apply Hdiv.
  assert (El : sigma L (fun t => mul (get2 mask T i t) (get3 hi T h i t k)) =
               sigma L (fun t => get3 hi T h i t k)).
  { apply sigma_ext. intros t Ht. rewrite Hin by assumption.
    apply Hone; assumption. }
  rewrite <- El. apply sigma_absorbed; [assumption|assumption|].
  intros t Ht1 Ht2. rewrite Hout by assumption.
  apply Hmul; [exact Hz|apply Hfin; assumption].
Qed.

Lemma average_forward_prefix_mean_witness :
  exists ho cache,
    average_forward Demo.fhi Demo.fmask = Ok (ho, cache) /\
    same_value (get2 ho 1 0 0)
      (div (sigma 1 (fun t => get3 Demo.fhi 2 1 0 t 0))
           (sigma 1 (fun _ => one))).
Proof.
  assert (Hhi : has_shape Demo.fhi [1; 2; 1]) by (split; reflexivity).
  assert (Hmask : has_shape Demo.fmask [1; 2]) by (split; reflexivity).
  assert (Hi : 0 < 1) by lia.
  assert (HL : 1 <= 2) by lia.
  assert (Hin : forall t, t < 1 -> get2 Demo.fmask 2 0 t = one).
  { intros t Ht. assert (t = 0) by lia. subst t. reflexivity. }
  assert (Hout : forall t, 1 <= t -> t < 2 -> get2 Demo.fmask 2 0 t = zero).
  { intros t Ht1 Ht2. assert (t = 1) by lia. subst t. reflexivity. }
  assert (Hone : forall t k, t < 1 -> k < 1 ->
            mul one (get3 Demo.fhi 2 1 0 t k) = get3 Demo.fhi 2 1 0 t k).
  { intros t k Ht Hk. assert (t = 0) by lia. assert (k = 0) by lia.
    subst t k. vm_compute. reflexivity. }
  assert (Hfin : forall t k, 1 <= t -> t < 2 -> k < 1 ->
            isfinite (get3 Demo.fhi 2 1 0 t k)).
  { intros t k Ht1 Ht2 Hk. assert (t = 1) by lia. assert (k = 0) by lia.
    subst t k. vm_compute. exact I. }
  assert (Hcount : add (sigma 1 (fun _ => one)) zero =
                   sigma 1 (fun _ : nat => (one : float)))
    by (vm_compute; reflexivity).
  destruct (@average_forward_prefix_mean float float_scalar float_kinds
              Demo.fhi Demo.fmask 1 2 1 1 0 float_zero_iszero
              float_mul_zero_l float_add_zero_absorbed float_div_same_value
              Hhi Hmask Hi HL Hin Hout Hone Hfin Hcount)
    as (ho & cache & E & _ & G).
  exists ho, cache. split; [exact E|]. apply G. lia.
Defined.

(** X11. For a sample i of length L >= 1 (mask row 1 on the first L
    timesteps, 0 on the others) [average_backward], called on the cache
    of the forward pass, gives every one of the L real timesteps the same
    share of the gradient: dh[i,t,k] = davg[i,k] divided by the sum of L
    ones, for t < L.  What is assumed of the arithmetic holds in
    binary64: v * 1 = v at the entries of davg[i], and that adding 0 to
    the sum of L ones does not change it. *)
Theorem average_backward_equal_shares {R : Type} {SR : Scalar R}
    (davg hi mask ho : ndarray R) (cache : avg_cache R)
    (n T h L i : nat) :
  has_shape davg [n; h] ->
  has_shape hi [n; T; h] -> has_shape mask [n; T] ->
  average_forward hi mask = Ok (ho, cache) ->
  i < n -> 1 <= L -> L <= T ->
  (forall t, t < L -> get2 mask T i t = one) ->
  (forall t, L <= t -> t < T -> get2 mask T i t = zero) ->
  (forall k, k < h -> mul (get2 davg h i k) one = get2 davg h i k) ->
  add (sigma L (fun _ => one)) zero = sigma L (fun _ => one) ->
  exists dh,
    average_backward davg cache = Ok dh /\
    has_shape dh [n; T; h] /\
    forall t k, t < L -> k < h ->
      get3 dh T h i t k = div (get2 davg h i k) (sigma L (fun _ => one)).
Proof.
  intros Hdavg Hhi Hmask Hfwd Hi HL1 HL Hin Hout Hone Hcount.
  destruct (average_forward_cache Hhi Hmask Hfwd) as (Em & Sc & Gc).
  assert (Hmask' : has_shape (ac_mask cache) [n; T])
    by (rewrite Em; assumption).
  destruct (@average_backward_run R SR davg cache n T h Hdavg Hmask' Sc)
    as (dh & E & S & G).
  rewrite (@stacked_shape_pos T [h] ltac:(lia)) in S.
  rewrite (@stacked_shape_pos n [T; h] ltac:(lia)) in S.
  exists dh. split; [exact E|]. split; [exact S|].
  intros t k Ht Hk. rewrite G by (lia || assumption).
  unfold davg_entry. rewrite Em, Gc by assumption.
  rewrite Hin, Hone by assumption. f_equal.
  unfold mask_count.
  assert (El : sigma L (fun t => get2 mask T i t) = sigma L (fun _ => one))
    by (apply sigma_ext; assumption).
  rewrite <- El. apply sigma_padded; [assumption|assumption|].
  rewrite El. exact Hcount.
Qed.

Lemma average_backward_equal_shares_witness :
  exists ho cache dh,
    average_forward Demo.fhi Demo.fmask = Ok (ho, cache) /\
    average_backward Demo.fdavg cache = Ok dh /\
    get3 dh 2 1 0 0 0 =
    div (get2 Demo.fdavg 1 0 0) (sigma 1 (fun _ => one)).
Proof.
  assert (Hdavg : has_shape Demo.fdavg [1; 1]) by (split; reflexivity).
  assert (Hhi : has_shape Demo.fhi [1; 2; 1]) by (split; reflexivity).
  assert (Hmask : has_shape Demo.fmask [1; 2]) by (split; reflexivity).
  assert (Hi : 0 < 1) by lia.
  assert (HL1 : 1 <= 1) by lia.
  assert (HL : 1 <= 2) by lia.
  assert (Hin : forall t, t < 1 -> get2 Demo.fmask 2 0 t = one).
  { intros t Ht. assert (t = 0) by lia. subst t. reflexivity. }
  assert (Hout : forall t, 1 <= t -> t < 2 -> get2 Demo.fmask 2 0 t = zero).
  { intros t Ht1 Ht2. assert (t = 1) by lia. subst t. reflexivity. }
  assert (Hone : forall k, k < 1 ->
            mul (get2 Demo.fdavg 1 0 k) one = get2 Demo.fdavg 1 0 k).
  { intros k Hk. assert (k = 0) by lia. subst k. vm_compute. reflexivity. }
  assert (Hcount : add (sigma 1 (fun _ => one)) zero =
                   sigma 1 (fun _ : nat => (one : float)))
    by (vm_compute; reflexivity).
  destruct (average_forward_run Hhi Hmask) as (ho & count & E & _).
  destruct (@average_backward_equal_shares float float_scalar Demo.fdavg
              Demo.fhi Demo.fmask ho _ 1 2 1 1 0 Hdavg Hhi Hmask E
              Hi HL1 HL Hin Hout Hone Hcount)
    as (dh & Eb & _ & G).
  exists ho. eexists. exists dh.
  split; [exact E|]. split; [exact Eb|]. apply G; lia.
Defined.

(** ** TemporalAffine: the output width *)

(** X12. [temporal_affine_forward] takes the output width M from the bias
    b, not from w.  With w of shape (D,M') and b of shape (M,), M' different
    from M, it fails with ValueError (the reshape of the product to
    (N,T,M)) as soon as there is a vector to transform (N*T >= 1); when
    there is none (N*T = 0) the reshape succeeds and it returns an empty
    out of shape (N,T,M). *)
Theorem temporal_affine_forward_width_mismatch {R : Type} {SR : Scalar R}
    (x w b : ndarray R) (n T d m m' : nat) :
  has_shape x [n; T; d] -> has_shape w [d; m'] -> has_shape b [m] ->
  m <> m' ->
  (1 <= n * T -> temporal_affine_forward x w b = Err ValueError) /\
  (n * T = 0 ->
   exists out,
     temporal_affine_forward x w b = Ok (out, (x, w, b, out)) /\
     has_shape out [n; T; m]).
Proof.
  intros Hx Hw Hb Hm.
  assert (Zx : size [n; T; d] = size [n * T; d])
    by (cbn [size fold_right]; lia).
  destruct (@np_reshape_ok R x _ _ Hx Zx) as (Ex2 & Sx2).
  set (x2 := {| shape := [n * T; d]; data := data x |}) in *.
  destruct (np_dot_matrix Sx2 Hw) as (p & Ep & Sp & _).
  assert (Estart : temporal_affine_forward x w b =
            (p3 <- np_reshape p [n; T; m] ;;
             out <- np_add p3 b ;;
             Ok (out, (x, w, b, out)))%py).
  { unfold temporal_affine_forward, shape3, shape_at.
    destruct Hx as [Hsx _]. rewrite Hsx. cbn [bind].
    destruct Hb as [Hsb _]. rewrite Hsb. cbn [list_index nth_error bind].
    rewrite Ex2. cbn [bind]. rewrite Ep. cbn [bind]. reflexivity. }
  rewrite Estart. split.
  - intros Hpos. unfold np_reshape. destruct Sp as [Ssp _]. rewrite Ssp.
    replace (size [n * T; m'] =? size [n; T; m]) with false; [reflexivity|].
    symmetry. apply Nat.eqb_neq. cbn [size fold_right]. nia.
  - intros Hnone.
    assert (Zp : size [n * T; m'] = size [n; T; m])
      by (cbn [size fold_right]; nia).
    destruct (@np_reshape_ok R p _ _ Sp Zp) as (Ep3 & Sp3).
    destruct (np_binop_cube_row add Sp3 Hb) as (o & Eo & So & _).
    exists o. rewrite Ep3. cbn [bind]. unfold np_add. rewrite Eo.
    split; [reflexivity|assumption].
Qed.

Lemma temporal_affine_forward_width_mismatch_witness :
  temporal_affine_forward Demo.ax Demo.aw Demo.b = Err ValueError.
Proof.
  assert (Hx : has_shape Demo.ax [1; 2; 2]) by (split; reflexivity).
  assert (Hw : has_shape Demo.aw [2; 3]) by (split; reflexivity).
  assert (Hb : has_shape Demo.b [2]) by (split; reflexivity).
  assert (Hm : 2 <> 3) by lia.
  destruct (temporal_affine_forward_width_mismatch Hx Hw Hb Hm)
    as (Hfail & _).
  apply Hfail. lia.
Defined.
